(** * Triangular-arbitrage core: a shallow embedding and its properties

    The development follows the JavaScript sources module by module:
    - [Js]        : the fragments of the host language the code relies on
                    (exceptions, [??], string helpers, truthiness);
    - [Classifier]: [normalizeDex] / [normalizeType] (utils/_utils);
    - [Triangle]  : [solveTriangleOrientation] / [validateTriangle]
                    (engine/triArbitrage);
    - [Dec]       : decimal.js arithmetic, rounded to [precision]
                    significant digits;
    - [Cpmm]      : the cpmm quote adapter (engine/Q_cpmm.fixed) and
                    [getFeeRate] (utils/_utils);
    - [Route]     : [simulateTriangularRoute] (engine/triArbitrage);
    - [Flash]     : [buildSwapIxForPool], [buildFlashloanTx]
                    (flash/flashloanSwapInstructions.fixed) and
                    [executeRoute] (flash/swapExecutor.fixed);
    - [Hydrate]   : the final marking pass of [enrichReserves]
                    (_reserveEnricher);
    - [Limiter]   : the rate limiter of utils/poolLoader;
    - [SplToken]  : [parseSplTokenAmount] (utils/poolLoader);
    - [Validate]  : [validatePools] (utils/poolLoader);
    - [Utils]     : decimals and reserve helpers (utils/_utils);
    - [Exec]      : [resolveDexType] / [executeFlashloan]
                    (engine/triArbitrage);
    - [Clmm]      : the clmm quote adapter (adapters_CLI);
    - [Sim]       : [sdk.quote] / [simulateLeg] and the statistics
                    (engine/triArbitrage);
    - [Fetch]     : [fetchAccountsBatched] (utils/poolLoader);
    - [Precision] : the range in which the cpmm quote is exact;
    - [Cache]     : [hasValidReserves] and the cached pass
                    (utils/poolLoader);
    - [Meta]      : [normMint] / [isSolUsdcPair] / [normalizePool]
                    (in/poolfetch_meta);
    - [Sides]     : relabelling of the two sides of a pool.

    Conventions.  A JavaScript function that may throw returns a [result];
    a property that may be [undefined] or [null] is an [option]; atomic
    amounts are integers ([Z]); Decimal values are rationals ([Q]) kept
    in lowest terms.  The properties come after the definitions, one
    section per module. *)

From Stdlib Require Import ZArith QArith Qround Qabs Bool List String Ascii Lia.
From Stdlib Require Import DecimalString.
From Stdlib.Strings Require Byte.
Import ListNotations.

Local Open Scope string_scope.
Local Open Scope Z_scope.

(* ===================================================================== *)
(** ** Host-language fragments *)
(* ===================================================================== *)

Module Js.

(** Outcome of evaluating a JavaScript expression or function body:
    a value, or a thrown [Error] carrying its message. *)
Inductive result (A : Type) : Type :=
| Ok (a : A)
| Throw (msg : string).
Arguments Ok {A} a.
Arguments Throw {A} msg.

Definition bind {A B} (m : result A) (k : A -> result B) : result B :=
  match m with
  | Ok a => k a
  | Throw e => Throw e
  end.

Definition isOk {A} (m : result A) : bool :=
  match m with Ok _ => true | Throw _ => false end.

(** [ensure(cond, msg)]: throws [msg] unless [cond]. *)
Definition ensure (cond : bool) (msg : string) : result unit :=
  if cond then Ok tt else Throw msg.

(** [a ?? b] on a possibly-missing property. *)
Definition nullish {A} (a b : option A) : option A :=
  match a with Some _ => a | None => b end.

(** [a ?? d] when the last alternative is a literal. *)
Definition nullish_or {A} (a : option A) (d : A) : A :=
  match a with Some x => x | None => d end.

(** [String.prototype.toLowerCase], on the ASCII range. *)
Definition lower_ascii (c : ascii) : ascii :=
  let n := nat_of_ascii c in
  if (andb (Nat.leb 65 n) (Nat.leb n 90)) then ascii_of_nat (n + 32) else c.

Fixpoint toLowerCase (s : string) : string :=
  match s with
  | EmptyString => EmptyString
  | String c r => String (lower_ascii c) (toLowerCase r)
  end.

Definition upper_ascii (c : ascii) : ascii :=
  let n := nat_of_ascii c in
  if (andb (Nat.leb 97 n) (Nat.leb n 122)) then ascii_of_nat (n - 32) else c.

Fixpoint toUpperCase (s : string) : string :=
  match s with
  | EmptyString => EmptyString
  | String c r => String (upper_ascii c) (toUpperCase r)
  end.

(** [hay.includes(needle)]. *)
Fixpoint includes (hay needle : string) : bool :=
  if String.prefix needle hay then true
  else match hay with
       | EmptyString => false
       | String _ r => includes r needle
       end.

(** Truthiness of a string: only the empty string is falsy. *)
Definition truthy_str (s : string) : bool :=
  match s with EmptyString => false | _ => true end.

(** Truthiness of an optional number: [undefined], [null] and [0] are
    falsy. *)
Definition truthy_num (n : option Z) : bool :=
  match n with Some z => negb (z =? 0) | None => false end.

(** Truthiness of an optional string property. *)
Definition truthy_ostr (s : option string) : bool :=
  match s with Some x => truthy_str x | None => false end.

End Js.

Import Js.

Declare Scope js_scope.
Delimit Scope js_scope with js.
Notation "x <- e ;; k" := (Js.bind e (fun x => k))
  (at level 61, e at next level, right associativity) : js_scope.
Notation "e ;;; k" := (Js.bind e (fun _ => k))
  (at level 61, right associativity) : js_scope.
Local Open Scope js_scope.

(* ===================================================================== *)
(** ** Pool classifier (utils/_utils: normalizeDex, normalizeType) *)
(* ===================================================================== *)

Module Classifier.

(** The four pool variants; [normalizeType] returns their names. *)
Inductive Variant : Type := cpmm | dlmm | clmm | whirlpool.

Definition variant_name (v : Variant) : string :=
  match v with
  | cpmm => "cpmm" | dlmm => "dlmm" | clmm => "clmm"
  | whirlpool => "whirlpool"
  end.

(** [p.raw._original], [p.raw] and [p]: the properties the classifier
    reads, each possibly missing. *)
Record Original : Type := mkOriginal {
  o_dex : option string;
  o_type : option string
}.

Record Raw : Type := mkRaw {
  r_dex : option string;
  r_type : option string;
  r_poolType : option string;
  r_bin_step : option Z;
  r_tickSpacing : option Z;
  r_original : option Original
}.

Record Pool : Type := mkPool {
  dex : option string;
  type : option string;
  poolType : option string;
  binStep : option Z;
  tickSpacing : option Z;
  raw : option Raw
}.

(** Optional chaining [a?.f] and [a?.b?.f]. *)
Definition opt {A B} (a : option A) (f : A -> option B) : option B :=
  match a with Some x => f x | None => None end.

(** [(p?.dex ?? p?.raw?.dex ?? p?.raw?._original?.dex ?? '')
      .toString().toLowerCase()] *)
Definition dex_text (p : option Pool) : string :=
  toLowerCase
    (nullish_or
       (nullish (opt p dex)
          (nullish (opt (opt p raw) r_dex)
             (opt (opt (opt p raw) r_original) o_dex)))
       "").

Definition normalizeDex (p : option Pool) : string :=
  let d := dex_text p in
  if negb (truthy_str d) then "unknown"
  else if includes d "meteora" then "meteora"
  else if includes d "orca" then "orca"
  else if includes d "raydium" then "raydium"
  else d.

(** [(p?.type ?? p?.poolType ?? p?.raw?.type ?? p?.raw?.poolType
      ?? p?.raw?._original?.type ?? '').toString().toLowerCase()] *)
Definition type_text (p : option Pool) : string :=
  toLowerCase
    (nullish_or
       (nullish (opt p type)
          (nullish (opt p poolType)
             (nullish (opt (opt p raw) r_type)
                (nullish (opt (opt p raw) r_poolType)
                   (opt (opt (opt p raw) r_original) o_type)))))
       "").

Definition normalizeType (p : option Pool) : Variant :=
  let d := normalizeDex p in
  if String.eqb d "orca" then whirlpool
  else
    let t := type_text p in
    if includes t "dlmm" then dlmm
    else if includes t "whirlpool" || includes t "orca" then whirlpool
    else if includes t "clmm" then clmm
    else if includes t "cpmm" || includes t "amm" || includes t "constant"
         then cpmm
    else if truthy_num (opt p binStep)
            || truthy_num (opt (opt p raw) r_bin_step) then dlmm
    else if truthy_num (opt p tickSpacing)
            || truthy_num (opt (opt p raw) r_tickSpacing) then whirlpool
    else cpmm.

(** The resolution order as the specification words it: explicit
    type field, then DEX name, then structure, then the default. *)
Definition explicit_variant (t : string) : option Variant :=
  if includes t "dlmm" then Some dlmm
  else if includes t "whirlpool" then Some whirlpool
  else if includes t "clmm" then Some clmm
  else if includes t "cpmm" then Some cpmm
  else None.

Definition dex_heuristic (d : string) : option Variant :=
  if includes d "meteora" then Some dlmm
  else if includes d "orca" then Some whirlpool
  else None.

Definition structural_heuristic (p : option Pool) : option Variant :=
  match opt p binStep, opt p tickSpacing with
  | Some _, _ => Some dlmm
  | None, Some _ => Some whirlpool
  | None, None => None
  end.

Definition spec_classify (p : option Pool) : Variant :=
  match explicit_variant (type_text p) with
  | Some v => v
  | None =>
      match dex_heuristic (dex_text p) with
      | Some v => v
      | None =>
          match structural_heuristic p with
          | Some v => v
          | None => cpmm
          end
      end
  end.

(** An ordered rule list: the value of the first rule whose guard
    holds, or the default. *)
Fixpoint first_rule {A} (rules : list (bool * A)) (default : A) : A :=
  match rules with
  | [] => default
  | (guard, v) :: rest => if guard then v else first_rule rest default
  end.

(** The order in which the code resolves the variant. *)
Definition resolution_rules (p : option Pool) : list (bool * Variant) :=
  let t := type_text p in
  [ (String.eqb (normalizeDex p) "orca", whirlpool);
    (includes t "dlmm", dlmm);
    (includes t "whirlpool" || includes t "orca", whirlpool);
    (includes t "clmm", clmm);
    (includes t "cpmm" || includes t "amm" || includes t "constant", cpmm);
    (truthy_num (opt p binStep)
     || truthy_num (opt (opt p raw) r_bin_step), dlmm);
    (truthy_num (opt p tickSpacing)
     || truthy_num (opt (opt p raw) r_tickSpacing), whirlpool) ].

(** Sample records. *)
Definition bare : Pool := mkPool None None None None None None.

Definition orca_tagged_cpmm : Pool :=
  mkPool (Some "Orca") (Some "cpmm") None None None None.

Definition meteora_untyped : Pool :=
  mkPool (Some "meteora") None None None None None.

Definition with_dex (d : option string) (p : Pool) : Pool :=
  mkPool d (type p) (poolType p) (binStep p) (tickSpacing p) (raw p).

End Classifier.

(* ===================================================================== *)
(** ** Triangle orientation solver (engine/triArbitrage) *)
(* ===================================================================== *)

Module Triangle.

Definition mint := string.

(** A pool, as far as the solver and the route simulator look at it:
    its address and its two mints. *)
Record Pool : Type := mkPool {
  poolAddress : string;
  baseMint : mint;
  quoteMint : mint
}.

(** [{ startMint, inMints }] *)
Record Tri : Type := mkTri {
  startMint : mint;
  inMints : list mint
}.

(** One [if / else if / else return null] block of [tryStart]: from the
    current mint, the mint recorded in [inMints] and the next current
    mint. *)
Definition hop (curr : mint) (p : Pool) : option (mint * mint) :=
  if String.eqb curr (baseMint p) then Some (baseMint p, quoteMint p)
  else if String.eqb curr (quoteMint p) then Some (quoteMint p, baseMint p)
  else None.

Definition tryStart (p1 p2 p3 : Pool) (start : mint) : option Tri :=
  match hop start p1 with
  | None => None
  | Some (i0, c1) =>
      match hop c1 p2 with
      | None => None
      | Some (i1, c2) =>
          match hop c2 p3 with
          | None => None
          | Some (i2, c3) =>
              if negb (String.eqb c3 start) then None
              else Some (mkTri start [i0; i1; i2])
          end
      end
  end.

(** [a || b] on two possibly-null objects. *)
Definition or_else {A} (a b : option A) : option A :=
  match a with Some _ => a | None => b end.

(** [const [p1, p2, p3] = pools]: a missing element is [undefined], and
    reading [.baseMint] of it is a TypeError. *)
Definition solveTriangleOrientation (pools : list (option Pool))
  : result (option Tri) :=
  match nth 0 pools None with
  | None => Throw "TypeError: Cannot read properties of undefined"
  | Some p1 =>
      let attempt (start : mint) : result (option Tri) :=
        match hop start p1 with
        | None => Ok None
        | Some (i0, c1) =>
            match nth 1 pools None with
            | None => Throw "TypeError: Cannot read properties of undefined"
            | Some p2 =>
                match hop c1 p2 with
                | None => Ok None
                | Some (i1, c2) =>
                    match nth 2 pools None with
                    | None =>
                        Throw "TypeError: Cannot read properties of undefined"
                    | Some p3 =>
                        match hop c2 p3 with
                        | None => Ok None
                        | Some (i2, c3) =>
                            if negb (String.eqb c3 start) then Ok None
                            else Ok (Some (mkTri start [i0; i1; i2]))
                        end
                    end
                end
            end
        end in
      first <- attempt (baseMint p1) ;;
      match first with
      | Some t => Ok (Some t)
      | None => attempt (quoteMint p1)
      end
  end.

Definition validateTriangle (pools : list (option Pool)) : result Tri :=
  triangle <- solveTriangleOrientation pools ;;
  match triangle with
  | None => Throw "Invalid Triangle Orientation"
  | Some t => Ok t
  end.

(** The walk as the specification words it: at each step the current
    mint must equal one side of the next pool, and the walk advances to
    the other side. *)
Definition other_side (curr : mint) (p : Pool) : option mint :=
  if String.eqb curr (baseMint p) then Some (quoteMint p)
  else if String.eqb curr (quoteMint p) then Some (baseMint p)
  else None.

Fixpoint walk (curr : mint) (ps : list Pool) : option (list mint * mint) :=
  match ps with
  | [] => Some ([], curr)
  | p :: rest =>
      match other_side curr p with
      | None => None
      | Some next =>
          match walk next rest with
          | None => None
          | Some (ins, final) => Some (curr :: ins, final)
          end
      end
  end.

Definition closes (start : mint) (ps : list Pool) : option Tri :=
  match walk start ps with
  | Some (ins, final) =>
      if String.eqb final start then Some (mkTri start ins) else None
  | None => None
  end.

Definition spec_solve (p1 p2 p3 : Pool) : option Tri :=
  match closes (baseMint p1) [p1; p2; p3] with
  | Some t => Some t
  | None => closes (quoteMint p1) [p1; p2; p3]
  end.

Definition SOL : mint := "So11111111111111111111111111111111111111112".
Definition USDC : mint := "EPjFWdd5AufqSSqeM2qN1xzybapC8G4wEGGkZwyTDt1v".
Definition MNGO : mint := "MangoCzJ36AjZyKwVj3VnYU4GTonjfVEnJmvvWaxLac".

End Triangle.

(* ===================================================================== *)
(** ** decimal.js: the numeric primitive *)
(* ===================================================================== *)

Module Dec.

(** The rounding modes the repository runs under: the library default
    (ROUND_HALF_UP, 4) and the one utils/decimals installs
    (ROUND_DOWN, 1). *)
Inductive rounding : Type := ROUND_DOWN | ROUND_HALF_UP.

(** [Decimal.set({ precision, rounding })] *)
Record config : Type := mkConfig {
  precision : Z;
  mode : rounding
}.

(** The library's defaults, in force when nothing calls [Decimal.set]. *)
Definition default_config : config := mkConfig 20 ROUND_HALF_UP.

(** utils/decimals: [Decimal.set({ precision: 40, rounding: ROUND_DOWN })]. *)
Definition repo_config : config := mkConfig 40 ROUND_DOWN.

(** Number of decimal digits of a positive integer. *)
Fixpoint ndigits_fuel (fuel : nat) (n : Z) : Z :=
  match fuel with
  | O => 1
  | S f => if n <? 10 then 1 else 1 + ndigits_fuel f (n / 10)
  end.

Definition ndigits (n : Z) : Z := ndigits_fuel (Z.to_nat (Z.log2 n)) n.

(** [10^e <= n/d], cross-multiplied ([n], [d] positive). *)
Definition ge_pow10 (e n d : Z) : bool :=
  if 0 <=? e then 10 ^ e * d <=? n else d <=? n * 10 ^ (- e).

(** Decimal exponent of [n/d]: the [e] with [10^e <= n/d < 10^(e+1)]. *)
Definition dexp (n d : Z) : Z :=
  let e0 := ndigits n - ndigits d in
  if ge_pow10 e0 n d then e0 else e0 - 1.

(** Integer nearest to [tn/td] under the rounding mode ([tn], [td]
    positive). *)
Definition round_int (rm : rounding) (tn td : Z) : Z :=
  match rm with
  | ROUND_DOWN => tn / td
  | ROUND_HALF_UP => (2 * tn + td) / (2 * td)
  end.

(** A positive rational [n/d] rounded to [P] significant digits: scale
    by [10^k] so that the integer part has exactly [P] digits, round to
    an integer, scale back. *)
Definition round_pos (P : Z) (rm : rounding) (n d : Z) : Q :=
  let k := P - 1 - dexp n d in
  if 0 <=? k
  then round_int rm (n * 10 ^ k) d # Z.to_pos (10 ^ k)
  else inject_Z (round_int rm n (d * 10 ^ (- k)) * 10 ^ (- k)).

(** A Decimal holds its value in lowest terms; both modes are symmetric
    about zero. *)
Definition round_sig (c : config) (q : Q) : Q :=
  let r := Qred q in
  match Qnum r with
  | Z0 => 0%Q
  | Zpos n => Qred (round_pos (precision c) (mode c) (Zpos n) (Zpos (Qden r)))
  | Zneg n =>
      Qred (- round_pos (precision c) (mode c) (Zpos n) (Zpos (Qden r)))%Q
  end.

(** Arithmetic methods: the exact result rounded to [precision]
    significant digits. *)
Definition plus (c : config) (a b : Q) : Q := round_sig c (a + b)%Q.
Definition minus (c : config) (a b : Q) : Q := round_sig c (a - b)%Q.
Definition mul (c : config) (a b : Q) : Q := round_sig c (a * b)%Q.

(** [a.div(b)]; [None] stands for the non-finite results (Infinity,
    NaN) of a zero divisor. *)
Definition div (c : config) (a b : Q) : option Q :=
  if Qeq_bool b 0 then None else Some (round_sig c (a / b)%Q).

(** [a.gt(b)] *)
Definition gt (a b : Q) : bool := negb (Qle_bool a b).
Definition gt0 (a : Q) : bool := gt a 0.

(** [a.floor()]: rounds to an integer toward minus infinity; not
    subject to [precision]. *)
Definition floor (a : Q) : Z := Qfloor a.

(** [a.toFixed(0)]: rounds to an integer under the configured mode. *)
Definition toFixed0 (c : config) (a : Q) : Z :=
  match Qnum a with
  | Z0 => 0
  | Zpos n => round_int (mode c) (Zpos n) (Zpos (Qden a))
  | Zneg n => - round_int (mode c) (Zpos n) (Zpos (Qden a))
  end.

(** What a JavaScript value holds, as far as [new Decimal(v.toString())]
    is concerned: a finite numeric value, or text the constructor
    rejects.  (The spellings of NaN and Infinity are not modelled.) *)
Inductive jsnum : Type :=
| Num (q : Q)
| NotNumeric.

(** [new Decimal(v)] *)
Definition newDecimal (v : jsnum) : result Q :=
  match v with
  | Num q => Ok q
  | NotNumeric => Throw "[DecimalError] Invalid argument"
  end.

(** [toDec(v)] of the cpmm quoter, [D(x)] of utils/_utils. *)
Definition toDec (v : option jsnum) : result Q :=
  match v with
  | None => Ok 0%Q
  | Some n => newDecimal n
  end.

End Dec.

(* ===================================================================== *)
(** ** cpmm quote adapter (engine/Q_cpmm.fixed) and getFeeRate *)
(* ===================================================================== *)

Module Cpmm.
Import Dec.

(** [poolData.raw]: the properties the constructor reads. *)
Record RawData : Type := mkRawData {
  raw_feeBps : option jsnum;
  raw_reserve_x : option jsnum;
  raw_baseReserve : option jsnum;
  raw_reserve_y : option jsnum;
  raw_quoteReserve : option jsnum;
  raw_baseDecimals : option Z;
  raw_decimalsA : option Z;
  raw_quoteDecimals : option Z;
  raw_decimalsB : option Z
}.

(** [poolData]: the properties the constructor reads (mints apart). *)
Record PoolData : Type := mkPoolData {
  feeBps : option jsnum;
  fee_bps : option jsnum;
  xReserve : option jsnum;
  baseReserve : option jsnum;
  reserve_x : option jsnum;
  yReserve : option jsnum;
  quoteReserve : option jsnum;
  reserve_y : option jsnum;
  baseDecimals : option Z;
  decimalsA : option Z;
  decA : option Z;
  quoteDecimals : option Z;
  decimalsB : option Z;
  decB : option Z;
  raw : option RawData
}.

(** The adapter object after [new CPMMAdapter(connection, addr, pd)]. *)
Record Adapter : Type := mkAdapter {
  tokenXDecimals : option Z;
  tokenYDecimals : option Z;
  a_feeBps : jsnum;
  xReserveRaw : option jsnum;
  yReserveRaw : option jsnum
}.

Definition rawq {B} (pd : PoolData) (f : RawData -> option B) : option B :=
  match raw pd with Some r => f r | None => None end.

(** The constructor also builds [new PublicKey(poolAddress)], which
    throws on a malformed address; addresses are not part of this
    record. *)
Definition constructor (pd : PoolData) : Adapter :=
  {| tokenXDecimals :=
       nullish (baseDecimals pd) (nullish (decimalsA pd)
         (nullish (rawq pd raw_baseDecimals)
           (nullish (rawq pd raw_decimalsA) (decA pd))));
     tokenYDecimals :=
       nullish (quoteDecimals pd) (nullish (decimalsB pd)
         (nullish (rawq pd raw_quoteDecimals)
           (nullish (rawq pd raw_decimalsB) (decB pd))));
     a_feeBps :=
       nullish_or (nullish (feeBps pd) (nullish (fee_bps pd)
                    (rawq pd raw_feeBps)))
                  (Num 25);
     xReserveRaw :=
       nullish (xReserve pd) (nullish (baseReserve pd)
         (nullish (reserve_x pd)
           (nullish (rawq pd raw_reserve_x) (rawq pd raw_baseReserve))));
     yReserveRaw :=
       nullish (yReserve pd) (nullish (quoteReserve pd)
         (nullish (reserve_y pd)
           (nullish (rawq pd raw_reserve_y) (rawq pd raw_quoteReserve))))
  |}.

(** The standard quote, amounts only (prices are doubles and are left
    out).  An amount is [None] when the Decimal it prints is not
    finite. *)
Record Quote : Type := mkQuote {
  inAmountRaw : Z;
  outAmountRaw : option Z;
  minOutAmountRaw : option Z;
  q_swapForY : bool;
  dexType : string;
  success : bool
}.

Definition is_some {A} (o : option A) : bool :=
  match o with Some _ => true | None => false end.

(** [_normalizeQuote]: checks the decimals again and packs the quote. *)
Definition normalizeQuote (a : Adapter) (inAmt : Z) (out minOut : option Z)
           (swapForY : bool) : result Quote :=
  let inDecimals := if swapForY then tokenXDecimals a else tokenYDecimals a in
  let outDecimals := if swapForY then tokenYDecimals a else tokenXDecimals a in
  ensure (is_some inDecimals && is_some outDecimals)
         "CPMMAdapter missing token decimals" ;;;
  Ok (mkQuote inAmt out minOut swapForY "RAYDIUM_CPMM" true).

Definition quoteExactIn (c : config) (a : Adapter)
           (inAmountAtomic : option jsnum) (swapForY : bool)
           (slippageBps : Q) : result Quote :=
  ensure (is_some inAmountAtomic) "inAmountAtomic required" ;;;
  let xR := xReserveRaw a in
  let yR := yReserveRaw a in
  ensure (is_some xR && is_some yR)
         "CPMM reserves missing (run enrich reserves first)" ;;;
  x <- toDec xR ;;
  y <- toDec yR ;;
  ensure (gt0 x && gt0 y) "CPMM reserves are zero (cannot quote)" ;;;
  inAmt <- toDec inAmountAtomic ;;
  ensure (gt0 inAmt) "inAmountAtomic must be > 0" ;;;
  fb <- newDecimal (a_feeBps a) ;;
  let feeRate := round_sig c (fb / 10000)%Q in
  let oneMinusFee := minus c 1 feeRate in
  let inAfterFee := mul c inAmt oneMinusFee in
  let out :=
    if swapForY
    then div c (mul c inAfterFee y) (plus c x inAfterFee)
    else div c (mul c inAfterFee x) (plus c y inAfterFee) in
  let slip := round_sig c (slippageBps / 10000)%Q in
  let minOut := option_map (fun o => floor (mul c o (minus c 1 slip))) out in
  ensure (is_some (tokenXDecimals a) && is_some (tokenYDecimals a))
         "CPMMAdapter missing decimals for midPrice" ;;;
  normalizeQuote a (toFixed0 c inAmt) (option_map floor out) minOut swapForY.

Definition quoteFastExactIn := quoteExactIn.

(** utils/_utils [getFeeRate]: the properties it reads. *)
Record FeePool : Type := mkFeePool {
  f_feeBps : option jsnum;
  f_raw_feeBps : option jsnum;
  f_raw_tradeFeeBps : option jsnum;
  f_raw_fee_bps : option jsnum;
  f_feeRate : option jsnum;
  f_raw_feeRate : option jsnum;
  f_raw_tradeFeeRate : option jsnum
}.

(** The tests [bps !== undefined && bps !== null && bps !== ''] come
    after [??] has skipped the nullish alternatives; they only exclude
    the empty string, which is not a value of [jsnum]. *)
Definition getFeeRate (c : config) (p : FeePool) : result Q :=
  match nullish (f_feeBps p) (nullish (f_raw_feeBps p)
          (nullish (f_raw_tradeFeeBps p) (f_raw_fee_bps p))) with
  | Some bps => b <- newDecimal bps ;; Ok (round_sig c (b / 10000)%Q)
  | None =>
      match nullish (f_feeRate p)
              (nullish (f_raw_feeRate p) (f_raw_tradeFeeRate p)) with
      | Some fee => newDecimal fee
      | None => Ok (3 # 1000)%Q
      end
  end.

(** Pool data with one name per quantity, the rest missing. *)
Definition poolData (x y fee : option jsnum) (xDec yDec : option Z)
  : PoolData :=
  mkPoolData fee None x None None y None None xDec None None yDec None None
             None.

Definition int (z : Z) : option jsnum := Some (Num (inject_Z z)).

(** A reserve that is present, numeric and greater than zero. *)
Definition positive_reserve (r : option jsnum) : bool :=
  match r with
  | Some (Num q) => gt0 q
  | _ => false
  end.

(** A pool record without any fee property. *)
Definition no_fee : FeePool := mkFeePool None None None None None None None.

(** The output amount of a quote, if there is one. *)
Definition quoted_out (r : result Quote) : option Z :=
  match r with
  | Ok q => outAmountRaw q
  | Throw _ => None
  end.

(** Pool data whose input-side reserve is [rin] and output-side reserve
    [rout], for a swap in direction [swapForY]. *)
Definition sided_pool (swapForY : bool) (rin rout bps : Z)
           (xDec yDec : Z) : PoolData :=
  if swapForY
  then poolData (int rin) (int rout) (int bps) (Some xDec) (Some yDec)
  else poolData (int rout) (int rin) (int bps) (Some xDec) (Some yDec).

(** The closed form as the specification words it, over the rationals:
    [dx_eff = dx * (1 - f)], [dy = floor(dx_eff * y / (x + dx_eff))]. *)
Definition spec_dy (x y : Z) (f : Q) (dx : Z) : Z :=
  let dx_eff := (inject_Z dx * (1 - f))%Q in
  Qfloor (dx_eff * inject_Z y / (inject_Z x + dx_eff))%Q.

(** The same in integers, with the fee in basis points. *)
Definition closed_form (x y bps dx : Z) : Z :=
  (dx * (10000 - bps) * y) / (10000 * x + dx * (10000 - bps)).

End Cpmm.

(* ===================================================================== *)
(** ** Triangular route simulator (engine/triArbitrage) *)
(* ===================================================================== *)

Module Route.
Import Triangle.

(** What [simulateLeg] returns, amounts and provenance only. *)
Record Leg : Type := mkLeg {
  l_ok : bool;
  l_reason : option string;
  dyAtomic : option Z;
  isSdkVerified : bool;
  via : option string
}.

(** The object literal passed to [simulateLeg]. *)
Record LegArgs : Type := mkLegArgs {
  la_pool : option Pool;
  inputMint : option mint;
  outputMint : option mint;
  la_dxAtomic : option Z
}.

(** What [simulateTriangularRoute] returns. *)
Record RouteResult : Type := mkRouteResult {
  ok : bool;
  reason : option string;
  legs : list Leg;
  profitAtomic : option Q;
  profitPct : option Q
}.

Definition failure (why : string) : RouteResult :=
  mkRouteResult false (Some why) [] None None.

(** An element of the [pools] array while the function runs: a pool, a
    hole, or the array itself (stored by the first statement). *)
Inductive elem : Type :=
| EPool (p : Pool)
| EHole
| ESelf.

Definition of_input (p : option Pool) : elem :=
  match p with Some x => EPool x | None => EHole end.

Definition as_pool (e : elem) : option Pool :=
  match e with EPool p => Some p | _ => None end.

(** [arr[3] = v] on a JavaScript array: holes fill the gap, and the
    length becomes at least 4. *)
Definition store3 (arr : list elem) (v : elem) : list elem :=
  firstn 3 (arr ++ repeat EHole 3) ++ v :: skipn 4 arr.

(** The [const] bindings [leg1], [leg2], [leg3] of the function scope;
    [None] until the declaration has been evaluated. *)
Record Bindings : Type := mkBindings {
  leg1 : option Leg;
  leg2 : option Leg;
  leg3 : option Leg
}.

(** Reading [name.dyAtomic]: a ReferenceError while [name] is still in
    its temporal dead zone. *)
Definition read_dyAtomic (name : string) (b : option Leg)
  : result (option Z) :=
  match b with
  | None =>
      Throw ("ReferenceError: Cannot access '" ++ name
             ++ "' before initialization")
  | Some l => Ok (dyAtomic l)
  end.

Definition is_some {A} (o : option A) : bool :=
  match o with Some _ => true | None => false end.

Section WithLegSimulator.

(** [simulateLeg] quotes through network adapters; the route
    simulator only sees what it returns. *)
Variable simulateLeg : LegArgs -> result Leg.

(** Lines 373-399: the three [const legN = await simulateLeg({...})]
    declarations and the final [return]. *)
Definition run_legs (pools : list elem) (tokenA tokenB tokenC : option mint)
  : result RouteResult :=
  let env0 := mkBindings None None None in
  a1 <- read_dyAtomic "leg2" (leg2 env0) ;;
  l1 <- simulateLeg (mkLegArgs (as_pool (nth 0 pools EHole))
                               tokenA tokenB a1) ;;
  let env1 := mkBindings (Some l1) None None in
  a2 <- read_dyAtomic "leg2" (leg2 env1) ;;
  l2 <- simulateLeg (mkLegArgs (as_pool (nth 1 pools EHole))
                               tokenB tokenC a2) ;;
  let env2 := mkBindings (Some l1) (Some l2) None in
  a3 <- read_dyAtomic "leg3" (leg3 env2) ;;
  l3 <- simulateLeg (mkLegArgs (as_pool (nth 2 pools EHole))
                               tokenC tokenA a3) ;;
  Ok (failure "need-3-pools").

(** [tokenA], [tokenB], [tokenC] are [None] when not strings;
    [dxAtomic] is [None] when null or undefined; [maxImpactPct] is
    [None] when null or NaN. *)
Definition simulateTriangularRoute
           (pools : list (option Pool))
           (tokenA tokenB tokenC : option mint)
           (dxAtomic : option Dec.jsnum)
           (maxImpactPct : option Q) : result RouteResult :=
  let pools := store3 (map of_input pools) ESelf in
  dxD <- Dec.toDec dxAtomic ;;
  let dxA := Dec.floor dxD in
  triangle <- validateTriangle (map as_pool pools) ;;
  if negb (Nat.eqb (List.length pools) 3) then Ok (failure "need-3-pools")
  else if negb (is_some tokenA && is_some tokenB && is_some tokenC)
  then Ok (failure "missing-mints")
  else if negb (is_some dxAtomic) then Ok (failure "missing-dx")
  else if negb (is_some maxImpactPct) then Ok (failure "missing-max-impact")
  else run_legs pools tokenA tokenB tokenC.

End WithLegSimulator.

(** Lines 404-445 stand after the closing brace of the function, at
    module level: profit, sanity guard and the success object.  They
    are given here as a function of the names they mention, for
    reference; no call of [simulateTriangularRoute] reaches them.
    The value is what the guard of line 420 returns, or else the
    object the lines bind to [result] (431-445); the one
    [return result] (line 474) stands inside the execution block of
    lines 449-475, so without [execute] that object is handed to no
    one. *)
Definition module_level_tail (c : Dec.config) (dxA : Z) (l1 l2 l3 : Leg)
  : RouteResult :=
  let outA := match dyAtomic l3 with Some z => inject_Z z | None => 0%Q end in
  let profitA := Dec.minus c outA (inject_Z dxA) in
  let profitPct :=
    option_map (fun r => Dec.mul c r 100) (Dec.div c profitA (inject_Z dxA)) in
  match profitPct with
  | None => mkRouteResult false (Some "unrealistic-profit") [l1; l2; l3]
                          None None
  | Some pct =>
      if Dec.gt (Qabs pct) 50
      then mkRouteResult false (Some "unrealistic-profit") [l1; l2; l3]
                         None (Some pct)
      else mkRouteResult true None [l1; l2; l3]
                         (Some profitA) (Some pct)
  end.

(** Lines 404-475 as a whole: what they return, if anything.
    [execute], [connection] and [payer] tell whether the names
    [execute], [connection] and [PAYER_KEYPAIR] hold truthy values;
    the [txSignature] or [execError] the execution block adds to the
    object is not part of the record. *)
Definition module_level_return (c : Dec.config)
           (execute connection payer : bool) (dxA : Z) (l1 l2 l3 : Leg)
  : option RouteResult :=
  let r := module_level_tail c dxA l1 l2 l3 in
  if ok r
  then if execute
          && match profitPct r with
             | Some pct => Dec.gt pct 0
             | None => false
             end
          && connection && payer
       then Some r
       else None
  else Some r.

(** A closed triangle SOL/USDC, USDC/MNGO, MNGO/SOL. *)
Definition poolAB : Pool := mkPool "poolAB" SOL USDC.
Definition poolBC : Pool := mkPool "poolBC" USDC MNGO.
Definition poolCA : Pool := mkPool "poolCA" MNGO SOL.
Definition triangle_pools : list (option Pool) :=
  [Some poolAB; Some poolBC; Some poolCA].

(** A successful leg with the given output amount. *)
Definition leg_paying (z : Z) : Leg :=
  mkLeg true None (Some z) true (Some "sdk-cpmm").

(** A leg simulator that chains perfectly: every leg succeeds and pays
    out what it was given plus one. *)
Definition generous_leg (a : LegArgs) : result Leg :=
  Ok (mkLeg true None (option_map (fun z => z + 1) (la_dxAtomic a)) true
            (Some "sdk-cpmm")).

End Route.

(* ===================================================================== *)
(** ** Flashloan planner and route executor (flash/...fixed.js) *)
(* ===================================================================== *)

Module Flash.

(** A route leg ("hop"), with the properties the builders read. *)
Record Hop : Type := mkHop {
  h_poolAddress : option string;
  h_address : option string;
  h_id : option string;
  h_inputMint : option string;
  h_outputMint : option string;
  amountInAtomic : option Z;
  minOutAtomic : option Z;
  h_dexType : option string;
  h_dex : option string;
  binArraysPubkey : option (list string);
  binArrays : option (list string);
  quote_binArrays : option (list string)
}.

(** The argument of the SDK's [inst.swap]. *)
Record SwapArgs : Type := mkSwapArgs {
  inToken : string;
  outToken : string;
  inAmount : Z;
  minOutAmount : Z;
  lbPair : string;
  user : string;
  sa_binArraysPubkey : list string
}.

Record Keypair : Type := mkKeypair { publicKey : string }.

Record ComputeBudget : Type := mkComputeBudget {
  unitLimit : option Z;
  unitPriceMicroLamports : option Z
}.

(** What lies outside the repository: web3.js, the Meteora SDK and the
    cluster.  [dlmm_installed] tells whether [require('@meteora-ag/dlmm')]
    succeeded; [inst_swap] stands for the call of [inst.swap] and the
    normalisation of what it returns to an instruction array; [send]
    stands for fetching a blockhash, compiling, signing, sending and
    confirming. *)
Record Env : Type := mkEnv {
  Ix : Type;
  Inst : Type;
  dlmm_installed : bool;
  valid_pubkey : string -> bool;
  dlmm_create : string -> result Inst;
  inst_swap : Inst -> SwapArgs -> result (list Ix);
  setComputeUnitLimit : Z -> Ix;
  setComputeUnitPrice : Z -> Ix;
  send : list Ix -> result string
}.

(** The argument of the flashloan instruction builder. *)
Record FlashArgs (E : Env) : Type := mkFlashArgs {
  fa_payer : string;
  fa_loanMint : option string;
  fa_loanAmountAtomic : option Z;
  fa_borrowerProgramId : option string;
  callbackIxs : list (Ix E)
}.
Arguments mkFlashArgs {E}.
Arguments fa_payer {E}.
Arguments fa_loanMint {E}.
Arguments fa_loanAmountAtomic {E}.
Arguments fa_borrowerProgramId {E}.
Arguments callbackIxs {E}.

(** [{ tx, signers }]; a transaction is its instruction list. *)
Record Built (E : Env) : Type := mkBuilt {
  tx : list (Ix E);
  signers : list Keypair
}.
Arguments mkBuilt {E}.
Arguments tx {E}.
Arguments signers {E}.

Definition is_some {A} (o : option A) : bool :=
  match o with Some _ => true | None => false end.

(** [a || b] on optional strings and on optional arrays (an array,
    even empty, is truthy). *)
Definition or_str (a b : option string) : option string :=
  if truthy_ostr a then a else b.

Definition or_arr {A} (a b : option (list A)) : option (list A) :=
  match a with Some _ => a | None => b end.

Definition index_text (i : nat) : string :=
  NilEmpty.string_of_uint (Nat.to_uint i).

Section WithEnv.
Variable E : Env.

(** [pubkeyOf(k)] on text: [new PublicKey(String(k))]. *)
Definition pubkeyOf (k : string) : result string :=
  if valid_pubkey E k then Ok k else Throw "Invalid public key input".

Fixpoint pubkeys (ks : list string) : result (list string) :=
  match ks with
  | [] => Ok []
  | k :: rest =>
      pk <- pubkeyOf k ;;
      pks <- pubkeys rest ;;
      Ok (pk :: pks)
  end.

Definition addComputeBudgetIxs (cb : option ComputeBudget) : list (Ix E) :=
  match cb with
  | None => []
  | Some b =>
      (match unitLimit b with
       | Some u => [setComputeUnitLimit E u] | None => [] end)
      ++ (match unitPriceMicroLamports b with
          | Some u => [setComputeUnitPrice E u] | None => [] end)
  end.

Definition buildMeteoraDlmmSwapIxs (hop : Hop) (payer : string)
           (connection : bool) : result (list (Ix E)) :=
  ensure (dlmm_installed E)
         "Meteora DLMM: @meteora-ag/dlmm is not installed" ;;;
  ensure connection "Meteora DLMM: connection required" ;;;
  let poolAddress :=
    or_str (h_poolAddress hop) (or_str (h_address hop) (h_id hop)) in
  ensure (truthy_ostr poolAddress)
         "Meteora DLMM: hop.poolAddress required" ;;;
  ensure (truthy_ostr (h_inputMint hop) && truthy_ostr (h_outputMint hop))
         "Meteora DLMM: hop.inputMint/outputMint required" ;;;
  ensure (is_some (amountInAtomic hop))
         "Meteora DLMM: hop.amountInAtomic required" ;;;
  ensure (is_some (minOutAtomic hop))
         "Meteora DLMM: hop.minOutAtomic required" ;;;
  pool <- pubkeyOf (nullish_or poolAddress "") ;;
  inst <- dlmm_create E pool ;;
  let binArrayList :=
    or_arr (binArraysPubkey hop)
           (or_arr (binArrays hop) (quote_binArrays hop)) in
  ensure (match binArrayList with
          | Some (_ :: _) => true | _ => false end)
         "Meteora DLMM: missing bin arrays (hop.binArrays)" ;;;
  bins <- pubkeys (nullish_or binArrayList []) ;;
  tin <- pubkeyOf (nullish_or (h_inputMint hop) "") ;;
  tout <- pubkeyOf (nullish_or (h_outputMint hop) "") ;;
  lb <- pubkeyOf (nullish_or poolAddress "") ;;
  inst_swap E inst
    (mkSwapArgs tin tout
                (nullish_or (amountInAtomic hop) 0)
                (nullish_or (minOutAtomic hop) 0)
                lb payer bins).

(** A [Hop] is an object, so the first [ensure] of the function
    ([hop && typeof hop === 'object']) holds. *)
Definition buildSwapIxForPool (hop : Hop) (payer : string)
           (connection : bool) : result (list (Ix E)) :=
  ensure (truthy_ostr (h_dexType hop) || truthy_ostr (h_dex hop))
         "buildSwapIxForPool: hop.dexType/hop.dex required" ;;;
  let dex :=
    toUpperCase (nullish_or (or_str (h_dexType hop) (h_dex hop)) "") in
  if includes dex "METEORA" || includes dex "DLMM"
  then buildMeteoraDlmmSwapIxs hop payer connection
  else Throw ("buildSwapIxForPool: unsupported dex for fixed builder: "
              ++ dex).

(** The [for] loop shared by [buildFlashloanTx] and [executeRoute]:
    [who] is the prefix of the error messages, [i] the index of the
    next hop, [acc] the instructions pushed so far. *)
Fixpoint hop_loop (who : string) (payer : string) (connection : bool)
         (i : nat) (legs : list Hop) (acc : list (Ix E))
  : result (list (Ix E)) :=
  match legs with
  | [] => Ok acc
  | hop :: rest =>
      ensure (is_some (amountInAtomic hop))
             (who ++ "routeLegs[" ++ index_text i
                  ++ "].amountInAtomic missing") ;;;
      ensure (is_some (minOutAtomic hop))
             (who ++ "routeLegs[" ++ index_text i
                  ++ "].minOutAtomic missing") ;;;
      ixs <- buildSwapIxForPool hop payer connection ;;
      hop_loop who payer connection (S i) rest (acc ++ ixs)
  end.

(** [k ? pubkeyOf(k) : null] *)
Definition optional_key (k : option string) : result (option string) :=
  match k with
  | Some m => if truthy_str m
              then (pk <- pubkeyOf m ;; Ok (Some pk))
              else Ok None
  | None => Ok None
  end.

(** [opts_connection]: a [connection] property of [opts], which the
    spread [{ connection, ...opts }] lets override the argument. *)
Definition buildFlashloanTx
           (connection : bool) (payerKeypair : option Keypair)
           (loanMint : option string) (loanAmountAtomic : option Z)
           (routeLegs : list Hop)
           (flashloanInstructionBuilder :
              option (FlashArgs E -> result (Ix E)))
           (borrowerProgramId : option string)
           (computeBudget : option ComputeBudget)
           (opts_connection : option bool) : result (Built E) :=
  if negb connection then Throw "connection required"
  else match payerKeypair with
  | None => Throw "payerKeypair required"
  | Some kp =>
  match routeLegs with
  | [] => Throw "routeLegs[] required"
  | _ =>
  match flashloanInstructionBuilder with
  | None => Throw "flashloanInstructionBuilder function required"
  | Some builder =>
      let payer := publicKey kp in
      perHopIxs <- hop_loop "" payer (nullish_or opts_connection connection)
                            0 routeLegs [] ;;
      lm <- optional_key loanMint ;;
      bp <- optional_key borrowerProgramId ;;
      flashIx <- builder (mkFlashArgs payer lm loanAmountAtomic bp
                                      perHopIxs) ;;
      Ok (mkBuilt (addComputeBudgetIxs computeBudget ++ [flashIx]) [kp])
  end end end.

Definition executeRoute
           (connection : bool) (payer : option Keypair)
           (routeLegs : list Hop)
           (computeBudget : option ComputeBudget)
           (opts_connection : option bool) : result string :=
  if negb connection then Throw "executeRoute: connection required"
  else match payer with
  | None => Throw "executeRoute: payer required"
  | Some kp =>
      match routeLegs with
      | [] => Throw "executeRoute: routeLegs required"
      | _ =>
          ixs <- hop_loop "executeRoute: " (publicKey kp)
                          (nullish_or opts_connection connection)
                          0 routeLegs (addComputeBudgetIxs computeBudget) ;;
          send E ixs
      end
  end.

(** A swap request carries the hop's own amounts. *)
Definition own_amounts (hop : Hop) (a : SwapArgs) : Prop :=
  amountInAtomic hop = Some (inAmount a)
  /\ minOutAtomic hop = Some (minOutAmount a).

(** [ixs] is what the SDK built for [hop] from a request carrying the
    hop's own amounts. *)
Definition built_from_own_amounts (payer : string) (hop : Hop)
           (ixs : list (Ix E)) : Prop :=
  exists inst a,
    own_amounts hop a /\ user a = payer /\ inst_swap E inst a = Ok ixs.

(** A leg is well-formed for a payer and a connection when both its
    amounts are present and its instruction builder succeeds. *)
Definition well_formed (payer : string) (connection : bool) (hop : Hop)
  : Prop :=
  is_some (amountInAtomic hop) = true
  /\ is_some (minOutAtomic hop) = true
  /\ isOk (buildSwapIxForPool hop payer connection) = true.

End WithEnv.

(** A test double: every key is valid, the SDK is present, and an
    instruction is the swap request it was built from. *)
Inductive DemoIx : Type :=
| SwapIx (a : SwapArgs)
| LimitIx (units : Z)
| PriceIx (microLamports : Z)
| FlashIx (loanAmount : option Z) (inner : list SwapArgs).

Definition swaps_inside (ixs : list DemoIx) : list SwapArgs :=
  flat_map (fun ix => match ix with SwapIx a => [a] | _ => [] end) ixs.

Definition demo : Env :=
  mkEnv DemoIx string true (fun _ => true) (fun pool => Ok pool)
        (fun _ a => Ok [SwapIx a]) LimitIx PriceIx
        (fun _ => Ok "signature").

Definition demo_flash (a : FlashArgs demo) : result (Ix demo) :=
  Ok (FlashIx (fa_loanAmountAtomic a) (swaps_inside (callbackIxs a))).

Definition demo_hop (pool inM outM : string) (amt minOut : Z) : Hop :=
  mkHop (Some pool) None None (Some inM) (Some outM) (Some amt) (Some minOut)
        (Some "METEORA_DLMM") None None (Some ["bin0"]) None.

Definition demo_payer : Keypair := mkKeypair "payer".

Definition leg_ab : Hop := demo_hop "poolAB" "SOL" "USDC" 1000 495.
Definition leg_bc : Hop := demo_hop "poolBC" "USDC" "MNGO" 500 9000.
Definition leg_ca : Hop := demo_hop "poolCA" "MNGO" "SOL" 9100 1001.
Definition leg_cd : Hop := demo_hop "poolCD" "MNGO" "BONK" 9100 77.

Definition two_legs : list Hop := [leg_ab; leg_bc].
Definition three_legs : list Hop := [leg_ab; leg_bc; leg_ca].
Definition four_legs : list Hop := [leg_ab; leg_bc; leg_cd; leg_ca].

(** The second leg without its input amount. *)
Definition leg_bc_no_amount : Hop :=
  mkHop (Some "poolBC") None None (Some "USDC") (Some "MNGO") None (Some 9000)
        (Some "METEORA_DLMM") None None (Some ["bin0"]) None.

(** A leg on a DEX the fixed builder does not support. *)
Definition leg_raydium : Hop :=
  mkHop (Some "poolBC") None None (Some "USDC") (Some "MNGO") (Some 500)
        (Some 9000) (Some "RAYDIUM_CPMM") None None None None.

End Flash.

(* ===================================================================== *)
(** ** Reserve enrichment: the final marking pass (_reserveEnricher) *)
(* ===================================================================== *)

Module Hydrate.

(** A reserve as stored on the pool object: a number, or a numeric
    string (what [parseSplTokenAmount] writes). *)
Inductive reserve : Type :=
| RNumber (q : Q)
| RString (q : Q).

Record Pool : Type := mkPool {
  type : option string;
  xReserve : option reserve;
  yReserve : option reserve;
  reserveSource : option string;
  hasReserves : option bool;
  isMathReady : option bool
}.

(** Truthiness of [pool.xReserve]: a non-empty string is truthy, a
    number is truthy unless zero. *)
Definition truthy_reserve (r : option reserve) : bool :=
  match r with
  | Some (RNumber q) => negb (Qeq_bool q 0)
  | Some (RString _) => true
  | None => false
  end.

(** [parseFloat(r || 0)], as the real number the double stands for. *)
Definition parseFloat_or0 (r : option reserve) : Q :=
  match r with
  | Some (RNumber q) => q
  | Some (RString q) => q
  | None => 0%Q
  end.

(** The body of the final [for (const pool of pools)] loop of
    [enrichReserves], which every pool goes through whatever the earlier
    phases (cache check, vault reads, SDK hydration) did to it.  A
    reserve of the model is finite, so the two [isFinite] tests hold.  The condition of its [if] is
    [type === 'cpmm' || type === 'dlmm' || 'whirlpool']: the last
    operand is a string literal, not a comparison. *)
Definition markPool (pool : Pool) : Pool :=
  let source :=
    if negb (truthy_ostr (reserveSource pool))
    then Some (if truthy_reserve (xReserve pool)
                  && truthy_reserve (yReserve pool)
               then "partial" else "none")
    else reserveSource pool in
  let x := parseFloat_or0 (xReserve pool) in
  let y := parseFloat_or0 (yReserve pool) in
  let has := Dec.gt0 x && Dec.gt0 y in
  let ty := toLowerCase (nullish_or (type pool) "") in
  let ready :=
    if String.eqb ty "cpmm" || String.eqb ty "dlmm" || truthy_str "whirlpool"
    then has
    else true in
  mkPool (type pool) (xReserve pool) (yReserve pool) source (Some has)
         (Some ready).

Definition finalPass (pools : list Pool) : list Pool := map markPool pools.

(** A clmm pool that reached the final pass without reserves. *)
Definition clmm_unhydrated : Pool :=
  mkPool (Some "clmm") None None None None None.

Definition whirlpool_unhydrated : Pool :=
  mkPool (Some "whirlpool") None None None None None.

End Hydrate.

(* ===================================================================== *)
(** ** Rate limiter of the enricher (_reserveEnricher) *)
(* ===================================================================== *)

Module Limiter.

(** The module-level [rateLimiter] object; times are milliseconds. *)
Record State : Type := mkState {
  lastCall : Z;
  minDelay : Z;
  backoffUntil : Z;
  consecutive429s : Z
}.

Definition initial : State := mkState 0 50 0 0.

(** [Math.min(60000, 250 * Math.pow(2, Math.min(10, n)))] *)
Definition backoff_ms (n : Z) : Z := Z.min 60000 (250 * 2 ^ Z.min 10 n).

(** [handle429()], with [now] the value [Date.now()] returns in it. *)
Definition handle429 (now : Z) (st : State) : State :=
  let n := consecutive429s st + 1 in
  mkState (lastCall st) (minDelay st) (now + backoff_ms n) n.

Definition handleSuccess (st : State) : State :=
  mkState (lastCall st) (minDelay st) (backoffUntil st) 0.

(** The time [waitForRateLimit] asks its timers for: what is left of
    the backoff, then what is missing of [minDelay] since the last
    call, both measured from the one clock reading [now] taken on
    entry. *)
Definition wait_ms (now : Z) (st : State) : Z :=
  let w1 := if now <? backoffUntil st then backoffUntil st - now else 0 in
  let elapsed := now - lastCall st in
  let w2 := if elapsed <? minDelay st then minDelay st - elapsed else 0 in
  w1 + w2.

(** [waitForRateLimit()]: [now] is the clock on entry, [later] the
    clock when the sleeps are over, which is stamped as [lastCall]. *)
Definition waitForRateLimit (now later : Z) (st : State) : State :=
  mkState later (minDelay st) (backoffUntil st) (consecutive429s st).

(** A run of rate-limit responses, one per clock reading. *)
Fixpoint hits (times : list Z) (st : State) : State :=
  match times with
  | [] => st
  | t :: rest => hits rest (handle429 t st)
  end.

End Limiter.

(* ===================================================================== *)
(** ** SPL token account decoding (_reserveEnricher) *)
(* ===================================================================== *)

Module SplToken.

(** Value of a little-endian byte string. *)
Fixpoint le_value (bs : list Byte.byte) : Z :=
  match bs with
  | [] => 0
  | b :: rest => Z.of_N (Byte.to_N b) + 256 * le_value rest
  end.

(** [data.readBigUInt64LE(offset)] on a buffer that holds the eight
    bytes. *)
Definition readBigUInt64LE (data : list Byte.byte) (offset : nat) : Z :=
  le_value (firstn 8 (skipn offset data)).

(** [parseSplTokenAmount(data)]: [None] for [data] stands for a value
    that is missing or not a Buffer.  With 72 bytes or more the read at
    offset 64 cannot throw. *)
Definition parseSplTokenAmount (data : option (list Byte.byte)) : option Z :=
  match data with
  | None => None
  | Some d =>
      if (List.length d <? 72)%nat then None
      else Some (readBigUInt64LE d 64)
  end.

(** The [n] low bytes of [z], least significant first: what a token
    program writes for an amount. *)
Fixpoint le_bytes (n : nat) (z : Z) : list Byte.byte :=
  match n with
  | O => []
  | S k =>
      match Byte.of_N (Z.to_N (z mod 256)) with
      | Some b => b :: le_bytes k (z / 256)
      | None => le_bytes k (z / 256)
      end
  end.

End SplToken.

(* ===================================================================== *)
(** ** Pool validation (_reserveEnricher: validatePools) *)
(* ===================================================================== *)

Module Validate.

(** The properties [validatePools] reads.  Decimals are compared with
    [undefined] only: [None] is a missing property, [Some None] is
    [null].  Type and [hasReserves] flag sit in the record the final
    pass of the enricher marks. *)
Record Pool : Type := mkPool {
  poolAddress : option string;
  baseMint : option string;
  quoteMint : option string;
  baseDecimals : option (option Z);
  quoteDecimals : option (option Z);
  marked : Hydrate.Pool
}.

Record Issues : Type := mkIssues {
  noAddress : nat;
  noMints : nat;
  noDecimals : nat;
  noReserves : nat
}.

Definition no_issues : Issues := mkIssues 0 0 0 0.

Definition is_some {A} (o : option A) : bool :=
  match o with Some _ => true | None => false end.

Definition truthy_flag (b : option bool) : bool :=
  match b with Some true => true | _ => false end.

(** The loop of [validatePools]: [valid] and [issues] are the two
    accumulators. *)
Fixpoint validate_loop (pools valid : list Pool) (issues : Issues)
  : list Pool * Issues :=
  match pools with
  | [] => (valid, issues)
  | pool :: rest =>
      if negb (truthy_ostr (poolAddress pool))
      then validate_loop rest valid
             (mkIssues (S (noAddress issues)) (noMints issues)
                       (noDecimals issues) (noReserves issues))
      else if negb (truthy_ostr (baseMint pool))
              || negb (truthy_ostr (quoteMint pool))
      then validate_loop rest valid
             (mkIssues (noAddress issues) (S (noMints issues))
                       (noDecimals issues) (noReserves issues))
      else if negb (is_some (baseDecimals pool))
              || negb (is_some (quoteDecimals pool))
      then validate_loop rest valid
             (mkIssues (noAddress issues) (noMints issues)
                       (S (noDecimals issues)) (noReserves issues))
      else
        let type := toLowerCase (nullish_or (Hydrate.type (marked pool)) "") in
        if (String.eqb type "cpmm" || String.eqb type "dlmm")
           && negb (truthy_flag (Hydrate.hasReserves (marked pool)))
        then validate_loop rest valid
               (mkIssues (noAddress issues) (noMints issues)
                         (noDecimals issues) (S (noReserves issues)))
        else validate_loop rest (valid ++ [pool]) issues
  end.

Definition validatePools (pools : list Pool) : list Pool * Issues :=
  validate_loop pools [] no_issues.

(** The four checks on one pool, as a predicate. *)
Definition acceptable (pool : Pool) : bool :=
  truthy_ostr (poolAddress pool)
  && (truthy_ostr (baseMint pool) && truthy_ostr (quoteMint pool))
  && (is_some (baseDecimals pool) && is_some (quoteDecimals pool))
  && negb ((String.eqb (toLowerCase (nullish_or (Hydrate.type (marked pool)) ""))
                       "cpmm"
            || String.eqb (toLowerCase
                             (nullish_or (Hydrate.type (marked pool)) ""))
                          "dlmm")
           && negb (truthy_flag (Hydrate.hasReserves (marked pool)))).

Definition total (i : Issues) : nat :=
  (noAddress i + noMints i + noDecimals i + noReserves i)%nat.

(** The final pass of [enrichReserves] on the same objects. *)
Definition mark (pool : Pool) : Pool :=
  mkPool (poolAddress pool) (baseMint pool) (quoteMint pool)
         (baseDecimals pool) (quoteDecimals pool)
         (Hydrate.markPool (marked pool)).

(** Address, both mints and both decimals are there. *)
Definition identified (pool : Pool) : bool :=
  truthy_ostr (poolAddress pool)
  && (truthy_ostr (baseMint pool) && truthy_ostr (quoteMint pool))
  && (is_some (baseDecimals pool) && is_some (quoteDecimals pool)).

(** The type, lower-cased, is exactly "cpmm" or "dlmm". *)
Definition needs_reserves (pool : Pool) : bool :=
  let type := toLowerCase (nullish_or (Hydrate.type (marked pool)) "") in
  String.eqb type "cpmm" || String.eqb type "dlmm".

(** Both reserves are present and greater than zero. *)
Definition reserves_positive (pool : Pool) : bool :=
  Dec.gt0 (Hydrate.parseFloat_or0 (Hydrate.xReserve (marked pool)))
  && Dec.gt0 (Hydrate.parseFloat_or0 (Hydrate.yReserve (marked pool))).

End Validate.

(* ===================================================================== *)
(** ** Decimals and unit conversion (utils/_utils) *)
(* ===================================================================== *)

Module Utils.

Definition SOL : string := "So11111111111111111111111111111111111111112".
Definition WSOL : string := "So11111111111111111111111111111111111111112".
Definition USDC : string := "EPjFWdd5AufqSSqeM2qN1xzybapC8G4wEGGkZwyTDt1v".

(** The properties of a pool the decimals helpers read. *)
Record Pool : Type := mkPool {
  baseMint : option string;
  quoteMint : option string;
  baseDecimals : option Z;
  quoteDecimals : option Z
}.

(** [a === b] on mints that may be missing. *)
Definition same_mint (a b : option string) : bool :=
  match a, b with
  | Some x, Some y => String.eqb x y
  | None, None => true
  | _, _ => false
  end.

Definition getTokenDecimals (mint : option string) (pool : option Pool) : Z :=
  let fallback :=
    if same_mint mint (Some SOL) || same_mint mint (Some WSOL) then 9
    else if same_mint mint (Some USDC) then 6
    else 9 in
  match pool with
  | Some p =>
      if same_mint mint (baseMint p) then nullish_or (baseDecimals p) 0
      else if same_mint mint (quoteMint p) then nullish_or (quoteDecimals p) 0
      else fallback
  | None => fallback
  end.

Record SwapDecimals : Type := mkSwapDecimals {
  inputDecimals : Z;
  outputDecimals : Z;
  swapForY : bool
}.

Definition getSwapDecimals (pool : Pool) (inputMint : option string)
  : SwapDecimals :=
  let baseDec :=
    match baseDecimals pool with
    | Some d => d
    | None => getTokenDecimals (baseMint pool) (Some pool)
    end in
  let quoteDec :=
    match quoteDecimals pool with
    | Some d => d
    | None => getTokenDecimals (quoteMint pool) (Some pool)
    end in
  if same_mint inputMint (baseMint pool)
  then mkSwapDecimals baseDec quoteDec true
  else if same_mint inputMint (quoteMint pool)
  then mkSwapDecimals quoteDec baseDec false
  else mkSwapDecimals baseDec quoteDec true.

(** [D(10).pow(decimals)] for a natural number of decimals. *)
Definition pow10 (c : Dec.config) (decimals : nat) : Q :=
  Dec.round_sig c (inject_Z (10 ^ Z.of_nat decimals)).

(** [atomicToHuman(atomic, decimals)]: [D(atomic).div(D(10).pow(decimals))];
    [None] is a non-finite Decimal. *)
Definition atomicToHuman (c : Dec.config) (atomic : Q) (decimals : nat)
  : option Q :=
  Dec.div c atomic (pow10 c decimals).

(** [humanToAtomic(human, decimals)]: the product, rounded down to an
    integer by [toDecimalPlaces(0, ROUND_FLOOR)]. *)
Definition humanToAtomic (c : Dec.config) (human : Q) (decimals : nat) : Z :=
  Dec.floor (Dec.mul c human (pow10 c decimals)).

(** The properties [hasReserves] reads. *)
Record ReservePool : Type := mkReservePool {
  xReserve : option Dec.jsnum;
  yReserve : option Dec.jsnum
}.

(** [hasReserves(pool)]; [D] throws on text that is not numeric. *)
Definition hasReserves (pool : option ReservePool) : result bool :=
  match pool with
  | None => Ok false
  | Some p =>
      match xReserve p, yReserve p with
      | None, _ => Ok false
      | _, None => Ok false
      | Some xr, Some yr =>
          x <- Dec.newDecimal xr ;;
          y <- Dec.newDecimal yr ;;
          Ok (Dec.gt0 x && Dec.gt0 y)
      end
  end.

End Utils.

(* ===================================================================== *)
(** ** Execution hook (engine/triArbitrage: executeFlashloan) *)
(* ===================================================================== *)

Module Exec.
Import Flash.

(** A simulated leg as the execution hook hands it over: the
    properties [resolveDexType] and the two branches of
    [executeFlashloan] read. *)
Record Leg : Type := mkLeg {
  l_type : option string;
  l_via : option string;
  l_dex : option string;
  l_inputMint : option string;
  l_outputMint : option string;
  l_poolAddress : option string;
  l_dxAtomic : option Z;
  l_dyAtomic : option Z;
  l_binArrays : option (list string)
}.

(** [s || ''] *)
Definition text (s : option string) : string :=
  if truthy_ostr s then nullish_or s "" else "".

Definition resolveDexType (leg : Leg) : string :=
  let type := text (l_type leg) in
  let via := text (l_via leg) in
  let dex := text (l_dex leg) in
  if String.eqb type "dlmm" || includes via "dlmm" then "METEORA_DLMM"
  else if String.eqb type "whirlpool" || includes via "whirlpool"
  then "ORCA_WHIRLPOOL"
  else if String.eqb type "clmm" || includes via "clmm" then "RAYDIUM_CLMM"
  else if String.eqb type "cpmm" || includes via "cpmm" || includes via "amm"
  then (if String.eqb dex "raydium" then "RAYDIUM_CPMM" else "RAYDIUM_CPMM")
  else "UNKNOWN".

(** The object [legs.map] builds for the instruction builder. *)
Definition route_leg (leg : Leg) : Hop :=
  mkHop (l_poolAddress leg) None None (l_inputMint leg) (l_outputMint leg)
        (l_dxAtomic leg) (l_dyAtomic leg) (Some (resolveDexType leg)) None
        None (l_binArrays leg) None.

(** The leg itself, under the names the executor reads: it has no
    [amountInAtomic], [minOutAtomic] or [dexType]. *)
Definition own_hop (leg : Leg) : Hop :=
  mkHop (l_poolAddress leg) None None (l_inputMint leg) (l_outputMint leg)
        None None None (l_dex leg) None (l_binArrays leg) None.

Section WithEnv.
Variable E : Env.

(** The placeholder builder of the second branch. *)
Definition flashloanBuilder (a : FlashArgs E) : result (Ix E) :=
  Throw "Flashloan provider not configured in triArbitrage.js".

(** [legs] is [None] when null or undefined.  [SOME_PROGRAM_ID] is a
    free identifier of the module: [global_program_id] is [None] when
    no global of that name exists, in which case reading it throws a
    ReferenceError.

    First branch: the object handed to [executeRoute] names the
    keypair [payerKeypair], so the executor's own [payer] is undefined;
    its [opts] carry no connection.  Second branch: the object handed to
    [buildFlashloanTx] names the legs [route] and the amount
    [loanAmount], so the planner's [routeLegs] and [loanAmountAtomic]
    are undefined. *)
Definition executeFlashloan
           (global_program_id : option (option string))
           (connection : bool) (payer : option Keypair)
           (legs : option (list Leg))
           (loanAmount : option Z) (loanMint : option string)
  : result string :=
  if negb connection || negb (is_some payer) || negb (is_some legs)
     || negb (Nat.eqb (List.length (nullish_or legs [])) 3)
  then executeRoute E connection None (map own_hop (nullish_or legs []))
                    None None
  else
    let routeLegs := map route_leg (nullish_or legs []) in
    match global_program_id with
    | None => Throw "ReferenceError: SOME_PROGRAM_ID is not defined"
    | Some programId =>
        built <- buildFlashloanTx E connection payer loanMint None []
                                  (Some flashloanBuilder) programId None
                                  None ;;
        send E (tx built)
    end.

End WithEnv.

End Exec.

(* ===================================================================== *)
(** ** clmm quote adapter (engine/Q_clmm.fixed) *)
(* ===================================================================== *)

Module Clmm.
Import Dec.

(** [poolData.raw] and [poolData]: the mint properties [init] reads.
    The decimals and the fee are read under the names the cpmm
    adapter uses, from the same record. *)
Record RawMints : Type := mkRawMints {
  raw_mintA : option string;
  raw_mint_a : option string;
  raw_mint_x : option string;
  raw_mintB : option string;
  raw_mint_b : option string;
  raw_mint_y : option string
}.

Record Mints : Type := mkMints {
  baseMint : option string;
  mintA : option string;
  mint_x : option string;
  quoteMint : option string;
  mintB : option string;
  mint_y : option string;
  m_raw : option RawMints
}.

Record Adapter : Type := mkAdapter {
  tokenXDecimals : option Z;
  tokenYDecimals : option Z;
  a_feeBps : jsnum
}.

(** [new CLMMAdapter(connection, addr, pd)]; the decimals stay null
    until [init].  The constructor also builds
    [new PublicKey(poolAddress)]; addresses are not part of this
    record. *)
Definition constructor (pd : Cpmm.PoolData) : Adapter :=
  mkAdapter None None
            (nullish_or (nullish (Cpmm.feeBps pd)
                           (nullish (Cpmm.fee_bps pd)
                                    (Cpmm.rawq pd Cpmm.raw_feeBps)))
                        (Num 0)).

Definition rawm (m : Mints) (f : RawMints -> option string) : option string :=
  match m_raw m with Some r => f r | None => None end.

(** [init()]: [valid_pubkey] stands for [new PublicKey] not throwing. *)
Definition init (valid_pubkey : string -> bool) (m : Mints)
           (pd : Cpmm.PoolData) (a : Adapter) : result Adapter :=
  let base :=
    Flash.or_str (baseMint m) (Flash.or_str (mintA m)
      (Flash.or_str (rawm m raw_mintA) (Flash.or_str (rawm m raw_mint_a)
        (Flash.or_str (mint_x m) (rawm m raw_mint_x))))) in
  let quote :=
    Flash.or_str (quoteMint m) (Flash.or_str (mintB m)
      (Flash.or_str (rawm m raw_mintB) (Flash.or_str (rawm m raw_mint_b)
        (Flash.or_str (mint_y m) (rawm m raw_mint_y))))) in
  let baseDec :=
    nullish (Cpmm.baseDecimals pd) (nullish (Cpmm.decimalsA pd)
      (nullish (Cpmm.rawq pd Cpmm.raw_baseDecimals)
        (nullish (Cpmm.rawq pd Cpmm.raw_decimalsA) (Cpmm.decA pd)))) in
  let quoteDec :=
    nullish (Cpmm.quoteDecimals pd) (nullish (Cpmm.decimalsB pd)
      (nullish (Cpmm.rawq pd Cpmm.raw_quoteDecimals)
        (nullish (Cpmm.rawq pd Cpmm.raw_decimalsB) (Cpmm.decB pd)))) in
  (if truthy_ostr base && truthy_ostr quote
   then ensure (valid_pubkey (nullish_or base "")) "Invalid public key input" ;;;
        ensure (valid_pubkey (nullish_or quote "")) "Invalid public key input"
   else Ok tt) ;;;
  Ok (mkAdapter baseDec quoteDec (a_feeBps a)).

(** A Decimal: a finite value, NaN, or one of the infinities. *)
Inductive decimal : Type :=
| Value (q : Q)
| NaN
| Infinity (negative : bool).

(** The text [String(v)] of an amount, as [new Decimal] reads it: the
    text of a Decimal (the constructor accepts the literals NaN,
    Infinity and -Infinity as it accepts digits), or text it rejects. *)
Inductive text : Type :=
| Numeric (d : decimal)
| Malformed.

(** [new Decimal(s)] *)
Definition newDecimal (s : text) : result decimal :=
  match s with
  | Numeric d => Ok d
  | Malformed => Throw "[DecimalError] Invalid argument"
  end.

(** [toDec(v)], line 565. *)
Definition toDec (v : option text) : result decimal :=
  match v with
  | None => Ok (Value 0)
  | Some s => newDecimal s
  end.

(** The standard quote, amounts only.  [inAmountRaw] is the text
    [String(inAmountAtomic)]; the other two amounts are texts a Decimal
    was built from, or the text of zero, and are given by their
    values. *)
Record Quote : Type := mkQuote {
  inAmountRaw : text;
  outAmountRaw : decimal;
  minOutAmountRaw : decimal;
  q_swapForY : bool;
  success : bool;
  error : option string
}.

(** The object returned from both [catch] blocks. *)
Definition failure_quote (inAmountAtomic : text) (swapForY : bool)
           (why : string) : Quote :=
  mkQuote inAmountAtomic (Value 0) (Value 0) swapForY false (Some why).

(** [_normalizeQuote]: [toHuman] builds a Decimal from each amount,
    which throws on malformed text only; dividing by a power of ten
    and [toNumber] do not throw, whatever the Decimal. *)
Definition normalizeQuote (a : Adapter) (inAmt out minOut : text)
           (swapForY : bool) : result Quote :=
  let inDecimals := if swapForY then tokenXDecimals a else tokenYDecimals a in
  let outDecimals := if swapForY then tokenYDecimals a else tokenXDecimals a in
  ensure (Cpmm.is_some inDecimals && Cpmm.is_some outDecimals)
         "CLMMAdapter missing token decimals (enrich poolData or set decimals)" ;;;
  _ <- newDecimal inAmt ;;
  o <- newDecimal out ;;
  m <- newDecimal minOut ;;
  Ok (mkQuote inAmt o m swapForY true None).

(** What an injected [quoteProvider] is called with, and the two
    properties of its answer the adapter insists on.  The other
    properties of the answer (fee rate, price impact, execution price,
    remaining accounts) are numbers and arrays of keys, as the
    provider's signature has them (lines 557-559). *)
Record ProviderArgs : Type := mkProviderArgs {
  pa_inAmountAtomic : text;
  pa_swapForY : bool;
  pa_slippageBps : Q
}.

Record ProviderQuote : Type := mkProviderQuote {
  p_outAmountRaw : option text;
  p_minOutAmountRaw : option text
}.

(** The Raydium SDK: [fetch] stands for everything the SDK path does
    before it reads the amount (client, pool, compute info, tick
    arrays, with their [ensure]s), [compute] for
    [computeAmountOutFormat], called with the amount and the slippage
    (given here in basis points) and nothing else, and the reading of
    its out and min-out fields. *)
Record Raydium : Type := mkRaydium {
  Fetched : Type;
  fetch : result Fetched;
  compute : Fetched -> decimal -> Q -> result ProviderQuote
}.

(** [e.message || String(e)] for an Error with message [e]: an Error
    without message prints as its name. *)
Definition message_of (e : string) : string :=
  if truthy_str e then e else "Error".

(** [{ ok }] of a [try] block: a thrown error becomes a failure quote. *)
Definition caught (inAmt : text) (swapForY : bool) (prefix : string)
           (body : result Quote) : Quote :=
  match body with
  | Ok q => q
  | Throw e => failure_quote inAmt swapForY (prefix ++ message_of e)
  end.

(** [quoteProvider] is [None] when [opts.quoteProvider] is not a
    function; a provider answers [None] for a falsy quote.  An amount
    that is an object prints as text no Decimal can be built from. *)
Definition quoteExactIn (R : Raydium) (a : Adapter)
           (inAmountAtomic : option text) (swapForY : bool)
           (slippageBps : Q)
           (quoteProvider :
              option (ProviderArgs -> result (option ProviderQuote)))
  : result Quote :=
  ensure (Cpmm.is_some inAmountAtomic) "inAmountAtomic required" ;;;
  let inAmt := nullish_or inAmountAtomic Malformed in
  match quoteProvider with
  | Some provider =>
      Ok (caught inAmt swapForY "quoteProvider failed: "
            (q <- provider (mkProviderArgs inAmt swapForY slippageBps) ;;
             match q with
             | Some (mkProviderQuote (Some out) (Some minOut)) =>
                 normalizeQuote a inAmt out minOut swapForY
             | _ =>
                 Throw "quoteProvider must return outAmountRaw and minOutAmountRaw"
             end))
  | None =>
      Ok (caught inAmt swapForY ""
            (pre <- fetch R ;;
             amountIn <- toDec inAmountAtomic ;;
             quote <- compute R pre amountIn slippageBps ;;
             match quote with
             | mkProviderQuote (Some out) (Some minOut) =>
                 normalizeQuote a inAmt out minOut swapForY
             | _ =>
                 Throw "Raydium computeAmountOutFormat returned no out/minOut"
             end))
  end.

(** An adapter whose two decimals are known, and a provider that
    answers every request with the text NaN. *)
Definition ready : Adapter := mkAdapter (Some 9) (Some 6) (Num 0).

Definition nan_provider (_ : ProviderArgs) : result (option ProviderQuote) :=
  Ok (Some (mkProviderQuote (Some (Numeric NaN)) (Some (Numeric NaN)))).

(** No SDK installed. *)
Definition no_sdk : Raydium :=
  mkRaydium unit (Throw "Raydium SDK v2 not available")
            (fun _ _ _ => Throw "unreachable").

End Clmm.

(* ===================================================================== *)
(** ** Leg simulator (engine/triArbitrage: sdk.quote, simulateLeg) *)
(* ===================================================================== *)

Module Sim.
Import Dec.

(** The pool object, through the properties its readers use: the
    classifier, the cpmm and clmm adapters, and the two addresses. *)
Record Pool : Type := mkPool {
  classified : Classifier.Pool;
  data : Cpmm.PoolData;
  mints : Clmm.Mints;
  poolAddress : option string;
  address : option string
}.

(** The text of an amount as [D] reads it back: a finite value, or one
    of NaN and the infinities. *)
Inductive Amount : Type :=
| Finite (q : Q)
| NonFinite.

(** The text [dxA.toString()] of a positive whole Decimal: its digits,
    or exponent notation (as in 1e+21). *)
Inductive AmountText : Type :=
| Digits (z : Z)
| Exponential (z : Z).

(** What [sdk.quote] returns when it does not return null (prices are
    doubles and are left out). *)
Record SdkQuote : Type := mkSdkQuote {
  q_dyAtomic : Amount;
  q_binArrays : list string
}.

(** What lies outside the repository.  The first argument of the
    oracles counts the calls of [sdk.quote] made so far: the cluster
    may answer each call differently.
    [dlmm_create] is [DLMM.create]; [dlmm_swapQuote] is the refresh,
    [getBinArrayForSwap], [new BN] of the amount text, [swapQuote] and
    the reading of the out amount and bin-array keys; [raydium] is the
    Raydium SDK.
    [toExpPos] is the decimal.js setting of that name in force when the
    amount is printed (21 unless changed; utils/decimals sets 40): a
    whole number prints in exponent notation from ten to that power
    on.
    [infinite] tells whether a non-finite amount an adapter printed is
    [Infinity], the one non-finite text greater than zero; a quote
    record here does not tell it from [NaN] and [-Infinity]. *)
Record Env : Type := mkEnv {
  valid_pubkey : string -> bool;
  dlmm_create : nat -> string -> result unit;
  dlmm_swapQuote :
    nat -> string -> AmountText -> bool -> result (Z * list string);
  raydium : nat -> Clmm.Raydium;
  infinite : nat -> bool;
  toExpPos : Z
}.

Record Stats : Type := mkStats {
  sdkCalls : Z;
  sdkSuccess : Z;
  mathCalls : Z;
  mathSuccess : Z;
  failures : Z
}.

(** The module's [stats], and the number of [sdk.quote] calls so far. *)
Record State : Type := mkState {
  stats : Stats;
  quoteCalls : nat
}.

(** [resetStats()] *)
Definition resetStats (st : State) : State :=
  mkState (mkStats 0 0 0 0 0) (quoteCalls st).

(** What [simulateLeg] returns; a property an object lacks is [None]
    ([false] for [isSdkVerified]). *)
Record Leg : Type := mkLeg {
  ok : bool;
  reason : option string;
  via : option string;
  l_poolAddress : option string;
  l_type : option Classifier.Variant;
  l_dex : option string;
  dxAtomic : option Z;
  dyAtomic : option Amount;
  inDecimals : option Z;
  outDecimals : option Z;
  isSdkVerified : bool;
  l_binArrays : option (list string)
}.

Definition failed (why : string) (addr : option string) : Leg :=
  mkLeg false (Some why) None addr None None None None None None false None.

(** [n || d] on an optional number. *)
Definition or_num (n : option Z) (d : Z) : Z :=
  if truthy_num n then nullish_or n d else d.

Section WithEnv.
Variable E : Env.
Variable c : config.

(** The DLMM adapter, for call [n], on a pool record: constructor,
    [init] (which builds keys from [poolData.baseMint] and
    [poolData.quoteMint]) and [quoteExactIn], whose [catch] turns an
    error into a quote without [success]. *)
Definition dlmm_quote (n : nat) (addr : string) (p : Pool)
           (amount : AmountText) (swapForY : bool)
  : result (option SdkQuote) :=
  dlmm_create E n addr ;;;
  ensure (match Clmm.baseMint (mints p) with
          | Some m => valid_pubkey E m | None => false end)
         "DLMM init failed" ;;;
  ensure (match Clmm.quoteMint (mints p) with
          | Some m => valid_pubkey E m | None => false end)
         "DLMM init failed" ;;;
  match dlmm_swapQuote E n addr amount swapForY with
  | Ok (out, bins) => Ok (Some (mkSdkQuote (Finite (inject_Z out)) bins))
  | Throw _ => Ok None
  end.

(** The clmm adapter as [sdk.quote] drives it: one argument, the
    options object, lands in the amount parameter; direction,
    slippage and [opts] take their defaults. *)
Definition clmm_quote (n : nat) (p : Pool) : result (option SdkQuote) :=
  a <- Clmm.init (valid_pubkey E) (mints p) (data p)
                 (Clmm.constructor (data p)) ;;
  q <- Clmm.quoteExactIn (raydium E n) a (Some Clmm.Malformed) true 50
                         None ;;
  Ok (if Clmm.success q
      then Some (mkSdkQuote
                   (match Clmm.outAmountRaw q with
                    | Clmm.Value v => Finite v
                    | _ => NonFinite
                    end) [])
      else None).

(** The cpmm adapter, driven the same way. *)
Definition cpmm_quote (p : Pool) : result (option SdkQuote) :=
  q <- Cpmm.quoteExactIn c (Cpmm.constructor (data p)) (Some NotNumeric)
                         true 50 ;;
  Ok (if Cpmm.success q
      then Some (mkSdkQuote
                   (match Cpmm.outAmountRaw q with
                    | Some z => Finite (inject_Z z)
                    | None => NonFinite
                    end) [])
      else None).

(** [sdk.quote(pool, inputMint, amountInAtomic)], the [n]-th call: null
    ([None]) whenever anything throws. *)
Definition sdk_quote (n : nat) (pool : option Pool)
           (inputMint : option string) (amountInAtomic : AmountText)
  : option SdkQuote :=
  match pool with
  | None => None
  | Some p =>
      let type := Classifier.normalizeType (Some (classified p)) in
      let swapForY := Utils.same_mint inputMint (Clmm.baseMint (mints p)) in
      match Flash.or_str (poolAddress p) (address p) with
      | None => None
      | Some addr =>
          if negb (valid_pubkey E addr) then None
          else
            let quote :=
              match type with
              | Classifier.dlmm => dlmm_quote n addr p amountInAtomic swapForY
              | Classifier.clmm => clmm_quote n p
              | _ => cpmm_quote p
              end in
            match quote with
            | Ok q => q
            | Throw _ => None
            end
      end
  end.

Definition count_quote (st : State) : State :=
  mkState (stats st) (S (quoteCalls st)).

Definition count_sdkCall (st : State) : State :=
  mkState (mkStats (sdkCalls (stats st) + 1) (sdkSuccess (stats st))
                   (mathCalls (stats st)) (mathSuccess (stats st))
                   (failures (stats st)))
          (quoteCalls st).

Definition count_sdkSuccess (st : State) : State :=
  mkState (mkStats (sdkCalls (stats st)) (sdkSuccess (stats st) + 1)
                   (mathCalls (stats st)) (mathSuccess (stats st))
                   (failures (stats st)))
          (quoteCalls st).

Definition count_failure (st : State) : State :=
  mkState (mkStats (sdkCalls (stats st)) (sdkSuccess (stats st))
                   (mathCalls (stats st)) (mathSuccess (stats st))
                   (failures (stats st) + 1))
          (quoteCalls st).

(** [quote?.dyAtomic && D(quote.dyAtomic).gt(0)] for the quote of
    call [n]. *)
Definition pays (n : nat) (quote : option SdkQuote) : bool :=
  match quote with
  | None => false
  | Some q =>
      match q_dyAtomic q with
      | Finite v => gt0 v
      | NonFinite => infinite E n
      end
  end.

(** [dxA.toString()] for a whole [dxA] greater than zero. *)
Definition toString (dxA : Z) : AmountText :=
  if dxA <? 10 ^ toExpPos E then Digits dxA else Exponential dxA.

(** Reading [pool.poolAddress] in a returned object. *)
Definition address_of (pool : option Pool) : result (option string) :=
  match pool with
  | Some p => Ok (poolAddress p)
  | None => Throw "TypeError: Cannot read properties of undefined"
  end.

(** The end of the function, [mathAvailable] being the constant
    [false]: one more failure, and the no-simulation-method object. *)
Definition no_method (st : State) (pool : option Pool)
           (type : Classifier.Variant) (sdkAvailable : option SdkQuote)
  : result Leg * State :=
  let st := count_failure st in
  (addr <- address_of pool ;;
   Ok (failed ("no-simulation-method: type=" ++ Classifier.variant_name type
               ++ ", sdk="
               ++ (if Cpmm.is_some sdkAvailable then "[object Object]"
                   else "null")
               ++ ", math=false") addr),
   st).

(** [simulateLeg({ pool, inputMint, outputMint, dxAtomic, preferSdk })]
    from state [st]: the outcome and the state it leaves. *)
Definition simulateLeg (st : State) (pool : option Pool)
           (inputMint outputMint : option string)
           (dxAtomic : option jsnum) (preferSdk : bool)
  : result Leg * State :=
  let type := Classifier.normalizeType (option_map classified pool) in
  let dex := Classifier.normalizeDex (option_map classified pool) in
  match toDec dxAtomic with
  | Throw e => (Throw e, st)
  | Ok d =>
      let dxA := floor d in
      if dxA <=? 0 then (Ok (failed "dxAtomic <= 0" None), st)
      else
        let sdkAvailable :=
          sdk_quote (quoteCalls st) pool inputMint (toString dxA) in
        let st := count_quote st in
        if preferSdk && Cpmm.is_some sdkAvailable
        then
          let st := count_sdkCall st in
          let n := quoteCalls st in
          let quote := sdk_quote n pool inputMint (toString dxA) in
          let st := count_quote st in
          if pays n quote
          then
            let st := count_sdkSuccess st in
            match pool, quote with
            | Some p, Some q =>
                (Ok (mkLeg true None
                           (Some ("sdk-" ++ Classifier.variant_name type))
                           (poolAddress p) (Some type) (Some dex)
                           (Some dxA) (Some (q_dyAtomic q))
                           (Some (or_num (Cpmm.baseDecimals (data p)) 9))
                           (Some (or_num (Cpmm.quoteDecimals (data p)) 6))
                           true (Some (q_binArrays q))),
                 st)
            | _, _ =>
                (Throw "TypeError: Cannot read properties of undefined", st)
            end
          else
            match type with
            | Classifier.whirlpool | Classifier.clmm =>
                let st := count_failure st in
                (addr <- address_of pool ;;
                 Ok (failed (Classifier.variant_name type ++ "-sdk-failed")
                            addr),
                 st)
            | _ => no_method st pool type sdkAvailable
            end
        else no_method st pool type sdkAvailable
  end.

(** A run of calls, each from the state the previous one left. *)
Record Call : Type := mkCall {
  c_pool : option Pool;
  c_inputMint : option string;
  c_outputMint : option string;
  c_dxAtomic : option jsnum;
  c_preferSdk : bool
}.

Fixpoint run (st : State) (calls : list Call) : list (result Leg) * State :=
  match calls with
  | [] => ([], st)
  | k :: rest =>
      let '(r, st1) := simulateLeg st (c_pool k) (c_inputMint k)
                                   (c_outputMint k) (c_dxAtomic k)
                                   (c_preferSdk k) in
      let '(rs, st2) := run st1 rest in
      (r :: rs, st2)
  end.

End WithEnv.

(** The number of legs of a run that came back [ok]. *)
Definition ok_count (rs : list (result Leg)) : Z :=
  Z.of_nat (List.length
              (filter (fun r => match r with
                                | Ok leg => ok leg
                                | Throw _ => false
                                end) rs)).

(** A test double: every key is valid, the Meteora SDK pays out one
    less than it is given and rejects exponent notation, the Raydium
    SDK is not installed, decimal.js has its default setting. *)
Definition quiet : Env :=
  mkEnv (fun _ => true) (fun _ _ => Ok tt)
        (fun _ _ amount _ =>
           match amount with
           | Digits z => Ok (z - 1, ["bin0"])
           | Exponential _ => Throw "Invalid character"
           end)
        (fun _ => Clmm.no_sdk)
        (fun _ => false)
        21.

Definition fresh : State := mkState (mkStats 0 0 0 0 0) 0.

Definition sol_usdc : Clmm.Mints :=
  Clmm.mkMints (Some "SOL") None None (Some "USDC") None None None.

(** A cpmm pool with reserves, and a dlmm pool. *)
Definition cpmm_pool : Pool :=
  mkPool (Classifier.mkPool (Some "raydium") (Some "cpmm") None None None None)
         (Cpmm.poolData (Cpmm.int 1000000) (Cpmm.int 1000000)
                        (Cpmm.int 25) (Some 9) (Some 6))
         sol_usdc (Some "poolAB") None.

Definition dlmm_pool : Pool :=
  mkPool (Classifier.mkPool (Some "meteora") (Some "dlmm") None None None None)
         (Cpmm.poolData None None None (Some 9) (Some 6))
         sol_usdc (Some "poolAB") None.

End Sim.

(* ===================================================================== *)
(** ** Batched account fetch (_reserveEnricher: fetchAccountsBatched) *)
(* ===================================================================== *)

Module Fetch.

Section WithCluster.

(** What [getMultipleAccountsInfo] gives for one key; [None] in a list
    of them is [null], an account that does not exist. *)
Variable Account : Type.

(** The outcome of one [getMultipleAccountsInfo] call: the accounts,
    or a thrown error with its [message], if it has one. *)
Inductive Reply : Type :=
| Accounts (accounts : list (option Account))
| Error (message : option string).

(** The cluster and the clock.  [rpc n keys] answers the [n]-th call
    made; [clock n] is what the [n]-th reading of [Date.now()]
    returns. *)
Record Env : Type := mkEnv {
  rpc : nat -> list string -> Reply;
  clock : nat -> Z
}.

(** [results], the module's rate limiter, and the calls and clock
    readings made so far. *)
Record State : Type := mkState {
  results : list (option Account);
  limiter : Limiter.State;
  rpcCalls : nat;
  clockReads : nat
}.

(** [arr[i] = v]: past the end the array grows, holes in between. *)
Fixpoint assign (i : nat) (v : option Account) (arr : list (option Account))
  : list (option Account) :=
  match i, arr with
  | O, [] => [v]
  | O, _ :: rest => v :: rest
  | S k, [] => None :: assign k v []
  | S k, x :: rest => x :: assign k v rest
  end.

(** [for (j < accounts.length) results[validIndices[j]] = accounts[j]];
    an account without an index is stored under no element. *)
Fixpoint store (validIndices : list nat) (accounts : list (option Account))
         (arr : list (option Account)) : list (option Account) :=
  match validIndices, accounts with
  | i :: is', a :: as' => store is' as' (assign i a arr)
  | _, _ => arr
  end.

(** The two arrays the inner [for] fills from a batch starting at
    index [i]: the keys that are truthy, and where they sit. *)
Fixpoint validBatch (batch : list (option string)) : list string :=
  match batch with
  | [] => []
  | k :: rest =>
      if truthy_ostr k then nullish_or k "" :: validBatch rest
      else validBatch rest
  end.

Fixpoint validIndices (i : nat) (batch : list (option string)) : list nat :=
  match batch with
  | [] => []
  | k :: rest =>
      if truthy_ostr k then i :: validIndices (S i) rest
      else validIndices (S i) rest
  end.

Variable E : Env.

(** [e.message?.includes('429')] *)
Definition is429 (message : option string) : bool :=
  match message with Some m => includes m "429" | None => false end.

(** The [while (!success && retries < maxRetries)] loop, [left] being
    [maxRetries - retries]. *)
Fixpoint attempts (left : nat) (keys : list string) (indices : list nat)
         (st : State) : State :=
  match left with
  | O => st
  | S left' =>
      let now := clock E (clockReads st) in
      let later := clock E (S (clockReads st)) in
      let lim := Limiter.waitForRateLimit now later (limiter st) in
      match rpc E (rpcCalls st) keys with
      | Accounts accounts =>
          mkState (store indices accounts (results st))
                  (Limiter.handleSuccess lim)
                  (S (rpcCalls st)) (2 + clockReads st)
      | Error message =>
          if is429 message
          then attempts left' keys indices
                 (mkState (results st)
                          (Limiter.handle429 (clock E (2 + clockReads st)) lim)
                          (S (rpcCalls st)) (3 + clockReads st))
          else mkState (results st) lim (S (rpcCalls st)) (2 + clockReads st)
      end
  end.

(** The outer [for (let i = 0; i < pubkeys.length; i += batchSize)],
    from index [i]; [fuel] bounds the number of iterations and [None]
    means it ran out.  [batchSize] is a non-negative integer. *)
Fixpoint batches (fuel : nat) (pubkeys : list (option string))
         (batchSize : nat) (i : nat) (st : State) : option State :=
  match fuel with
  | O => None
  | S fuel' =>
      if (List.length pubkeys <=? i)%nat then Some st
      else
        let batch := firstn batchSize (skipn i pubkeys) in
        match validBatch batch with
        | [] => batches fuel' pubkeys batchSize (i + batchSize)%nat st
        | keys =>
            batches fuel' pubkeys batchSize (i + batchSize)%nat
                    (attempts 3 keys (validIndices i batch) st)
        end
  end.

(** [fetchAccountsBatched(connection, pubkeys, batchSize)], started
    with the limiter and the counters of [st]; the returned state holds
    the [results] array. *)
Definition fetchAccountsBatched (fuel : nat) (pubkeys : list (option string))
           (batchSize : nat) (st : State) : option State :=
  batches fuel pubkeys batchSize 0
          (mkState (repeat None (List.length pubkeys)) (limiter st)
                   (rpcCalls st) (clockReads st)).

End WithCluster.

Arguments Accounts {Account}.
Arguments Error {Account}.
Arguments mkEnv {Account}.
Arguments rpc {Account}.
Arguments clock {Account}.
Arguments mkState {Account}.
Arguments results {Account}.
Arguments limiter {Account}.
Arguments rpcCalls {Account}.
Arguments clockReads {Account}.
Arguments assign {Account}.
Arguments store {Account}.
Arguments attempts {Account}.
Arguments batches {Account}.
Arguments fetchAccountsBatched {Account}.

(** What the cluster holds under a key slot: nothing for a null or
    empty key. *)
Definition held {Account} (chain : string -> option Account)
           (k : option string) : option Account :=
  if truthy_ostr k then chain (nullish_or k "") else None.

(** A cluster that serves every call from [chain], and a clock that
    advances a second per reading. *)
Definition serving {Account} (chain : string -> option Account) : Env Account :=
  mkEnv (fun _ keys => Accounts (map chain keys))
        (fun n => 1000 * Z.of_nat n).

(** A cluster that is rate limiting every call. *)
Definition limiting : Env Z :=
  mkEnv (fun _ _ => Error (Some "429 Too Many Requests"))
        (fun n => 1000 * Z.of_nat n).

Definition start {Account} : State Account :=
  mkState [] Limiter.initial 0 0.

End Fetch.

(* ===================================================================== *)
(** ** Amounts the cpmm quoter handles without rounding *)
(* ===================================================================== *)

Module Precision.

(** Reserves, fee and input for which no intermediate Decimal of
    [quoteExactIn] exceeds the working precision. *)
Definition within_precision (c : Dec.config) (rin rout bps dx : Z) : Prop :=
  0 < rin /\ 0 < rout /\ 0 < dx /\ 0 <= bps < 10000
  /\ 10 * (dx * (10000 - bps) * rout) < 10 ^ Dec.precision c
  /\ 10000 * rin + dx * (10000 - bps) < 10 ^ Dec.precision c.

End Precision.

(* ===================================================================== *)
(** ** Reserve enrichment: the cache shortcut (_reserveEnricher) *)
(* ===================================================================== *)

Module Cache.

(** [hasValidReserves(pool)] on a pool object: the two [isFinite] tests
    hold for the reserves of the model, and nothing in the [try] block
    throws. *)
Definition hasValidReserves (pool : Hydrate.Pool) : bool :=
  Dec.gt0 (Hydrate.parseFloat_or0 (Hydrate.xReserve pool))
  && Dec.gt0 (Hydrate.parseFloat_or0 (Hydrate.yReserve pool)).

(** What the first loop of [enrichReserves] writes on a pool it
    skips. *)
Definition mark_cached (pool : Hydrate.Pool) : Hydrate.Pool :=
  Hydrate.mkPool (Hydrate.type pool) (Hydrate.xReserve pool)
                 (Hydrate.yReserve pool) (Some "cache") (Some true)
                 (Some true).

End Cache.

(* ===================================================================== *)
(** ** Pool metadata normaliser (poolfetch_meta: normalizePool) *)
(* ===================================================================== *)

Module Meta.

Definition SOL_MINT : string := "So11111111111111111111111111111111111111112".
Definition USDC_MINT : string := "EPjFWdd5AufqSSqeM2qN1xzybapC8G4wEGGkZwyTDt1v".

(** White space and line terminators, on the ASCII range. *)
Definition is_space (a : ascii) : bool :=
  let n := nat_of_ascii a in
  (Nat.eqb n 9 || Nat.eqb n 10 || Nat.eqb n 11 || Nat.eqb n 12
   || Nat.eqb n 13 || Nat.eqb n 32)%bool.

Fixpoint trim_start (s : list ascii) : list ascii :=
  match s with
  | [] => []
  | a :: rest => if is_space a then trim_start rest else s
  end.

(** [String.prototype.trim] *)
Definition trim (s : string) : string :=
  string_of_list_ascii
    (rev (trim_start (rev (trim_start (list_ascii_of_string s))))).

(** [(m || '').toString().trim()] *)
Definition normMint (m : option string) : string :=
  trim (if truthy_ostr m then nullish_or m "" else "").

Definition isSolUsdcPair (mintA mintB : option string) : bool :=
  let a := normMint mintA in
  let b := normMint mintB in
  (String.eqb a SOL_MINT && String.eqb b USDC_MINT)
  || (String.eqb a USDC_MINT && String.eqb b SOL_MINT).

(** A property that should hold a number: a finite number, or some
    other value, of which only the truthiness matters ([undefined],
    [null] and [NaN] are falsy; [Infinity] and text are truthy). *)
Inductive Value : Type :=
| Finite (q : Q)
| OtherTruthy
| OtherFalsy.

(** [Number.isFinite(v)] and, for a finite number, [v <= 0]. *)
Definition positive (v : Value) : bool :=
  match v with
  | Finite q => negb (Qle_bool q 0)
  | _ => false
  end.

(** [v || 0] *)
Definition or_zero (v : Value) : Value :=
  match v with
  | Finite q => if Qeq_bool q 0 then Finite 0 else v
  | OtherTruthy => v
  | OtherFalsy => Finite 0
  end.

(** The properties of a pool record [normalizePool] reads; the others
    are copied along. *)
Record Pool : Type := mkPool {
  baseMint : option string;
  quoteMint : option string;
  baseDecimals : Value;
  quoteDecimals : Value;
  type : option string;
  binStep : Value;
  tickSpacing : Value
}.

Definition is_type (p : Pool) (name : string) : bool :=
  match type p with Some t => String.eqb t name | None => false end.

Definition normalizePool (p : option Pool) : option Pool :=
  match p with
  | None => None
  | Some p =>
      let base := normMint (baseMint p) in
      let quote := normMint (quoteMint p) in
      if negb (truthy_str base) || negb (truthy_str quote) then None
      else if negb (isSolUsdcPair (Some base) (Some quote)) then None
      else
        let out :=
          if negb (String.eqb base SOL_MINT)
          then mkPool (Some quote) (Some base) (quoteDecimals p)
                      (baseDecimals p) (type p) (binStep p) (tickSpacing p)
          else p in
        if negb (positive (baseDecimals out))
           || negb (positive (quoteDecimals out)) then None
        else if is_type out "dlmm" && negb (positive (binStep out))
        then None
        else if (is_type out "whirlpool" || is_type out "clmm")
                && negb (positive (tickSpacing out))
        then Some (mkPool (baseMint out) (quoteMint out) (baseDecimals out)
                          (quoteDecimals out) (type out) (binStep out)
                          (or_zero (tickSpacing out)))
        else Some out
  end.


(** The same record with its two sides exchanged. *)
Definition flip (p : Pool) : Pool :=
  mkPool (quoteMint p) (baseMint p) (quoteDecimals p) (baseDecimals p)
         (type p) (binStep p) (tickSpacing p).

(** A record as the Raydium adapter builds it for a USDC/SOL pool. *)
Definition usdc_sol : Pool :=
  mkPool (Some USDC_MINT) (Some SOL_MINT) (Finite 6) (Finite 9)
         (Some "clmm") OtherFalsy OtherFalsy.

End Meta.

(* ===================================================================== *)
(** ** Relabelling the sides of a pool *)
(* ===================================================================== *)

Module Sides.

(** The pool with the names of its two sides exchanged. *)
Definition flip (p : Triangle.Pool) : Triangle.Pool :=
  Triangle.mkPool (Triangle.poolAddress p) (Triangle.quoteMint p)
                  (Triangle.baseMint p).

Definition side (exchanged : bool) (p : Triangle.Pool) : Triangle.Pool :=
  if exchanged then flip p else p.

End Sides.

(* ===================================================================== *)
(** * Properties *)
(* ===================================================================== *)

Section TriangleFacts.
Import Triangle.

Lemma hop_other_side curr p :
  hop curr p = option_map (fun n => (curr, n)) (other_side curr p).
Proof.
  unfold hop, other_side.
  destruct (String.eqb_spec curr (baseMint p)) as [->|_]; [reflexivity|].
  destruct (String.eqb_spec curr (quoteMint p)) as [->|_]; reflexivity.
Qed.

Lemma tryStart_closes p1 p2 p3 start :
  tryStart p1 p2 p3 start = closes start [p1; p2; p3].
Proof.
  unfold tryStart, closes; cbn [walk].
  rewrite !hop_other_side.
  destruct (other_side start p1) as [c1|]; cbn; [|reflexivity].
  rewrite hop_other_side.
  destruct (other_side c1 p2) as [c2|]; cbn; [|reflexivity].
  rewrite hop_other_side.
  destruct (other_side c2 p3) as [c3|]; cbn; [|reflexivity].
  destruct (String.eqb c3 start); reflexivity.
Qed.

Lemma solve_unfold p1 p2 p3 :
  solveTriangleOrientation [Some p1; Some p2; Some p3]
  = Ok (or_else (tryStart p1 p2 p3 (baseMint p1))
                (tryStart p1 p2 p3 (quoteMint p1))).
Proof.
  unfold solveTriangleOrientation, tryStart; cbn [nth].
  destruct (hop (baseMint p1) p1) as [[i0 c1]|]; cbn.
  2:{ destruct (hop (quoteMint p1) p1) as [[j0 d1]|]; [|reflexivity].
      destruct (hop d1 p2) as [[j1 d2]|]; [|reflexivity].
      destruct (hop d2 p3) as [[j2 d3]|]; [|reflexivity].
      destruct (String.eqb d3 (quoteMint p1)); reflexivity. }
  destruct (hop c1 p2) as [[i1 c2]|]; cbn.
  2:{ destruct (hop (quoteMint p1) p1) as [[j0 d1]|]; [|reflexivity].
      destruct (hop d1 p2) as [[j1 d2]|]; [|reflexivity].
      destruct (hop d2 p3) as [[j2 d3]|]; [|reflexivity].
      destruct (String.eqb d3 (quoteMint p1)); reflexivity. }
  destruct (hop c2 p3) as [[i2 c3]|]; cbn.
  2:{ destruct (hop (quoteMint p1) p1) as [[j0 d1]|]; [|reflexivity].
      destruct (hop d1 p2) as [[j1 d2]|]; [|reflexivity].
      destruct (hop d2 p3) as [[j2 d3]|]; [|reflexivity].
      destruct (String.eqb d3 (quoteMint p1)); reflexivity. }
  destruct (String.eqb c3 (baseMint p1)); cbn; [reflexivity|].
  destruct (hop (quoteMint p1) p1) as [[j0 d1]|]; [|reflexivity].
  destruct (hop d1 p2) as [[j1 d2]|]; [|reflexivity].
  destruct (hop d2 p3) as [[j2 d3]|]; [|reflexivity].
  destruct (String.eqb d3 (quoteMint p1)); reflexivity.
Qed.

End TriangleFacts.

(* --------------------------------------------------------------------- *)
(** ** The orientation solver *)
(* --------------------------------------------------------------------- *)

Section SolverFacts.
Import Triangle.

Lemma walk3_shape start p1 p2 p3 ins final :
  walk start [p1; p2; p3] = Some (ins, final) ->
  List.length ins = 3%nat /\ nth 0 ins "" = start.
Proof.
  cbn [walk].
  destruct (other_side start p1) as [c1|]; [|discriminate].
  destruct (other_side c1 p2) as [c2|]; [|discriminate].
  destruct (other_side c2 p3) as [c3|]; [|discriminate].
  intros [= <- <-]. split; reflexivity.
Qed.

Lemma closes_sound start ps t :
  closes start ps = Some t ->
  startMint t = start /\ walk start ps = Some (inMints t, start).
Proof.
  unfold closes.
  destruct (walk start ps) as [[ins final]|]; [|discriminate].
  destruct (String.eqb_spec final start) as [->|]; [|discriminate].
  intros [= <-]. split; reflexivity.
Qed.

(** C7.  On every triple of pools the solver returns (without throwing)
    the first closing walk, trying pool1.baseMint before
    pool1.quoteMint, where a walk crosses pool1, pool2, pool3 in this
    order, at each step from the side equal to the current mint to the
    other side, and closes when it is back on its start mint after the
    third hop; it returns null exactly when neither start closes.  A
    returned triangle records three input mints, the first being its
    start mint.  The result is a function of the three pools alone. *)
Theorem C7_solver_first_closing_walk (p1 p2 p3 : Pool) :
  let pools := [p1; p2; p3] in
  let r := solveTriangleOrientation [Some p1; Some p2; Some p3] in
  r = Ok (spec_solve p1 p2 p3)
  /\ match closes (baseMint p1) pools with
     | Some t => r = Ok (Some t)
     | None => r = Ok (closes (quoteMint p1) pools)
     end
  /\ match spec_solve p1 p2 p3 with
     | Some t =>
         (startMint t = baseMint p1 \/ startMint t = quoteMint p1)
         /\ walk (startMint t) pools = Some (inMints t, startMint t)
         /\ List.length (inMints t) = 3%nat
         /\ nth 0 (inMints t) "" = startMint t
     | None =>
         closes (baseMint p1) pools = None
         /\ closes (quoteMint p1) pools = None
     end.
Proof.
  cbv zeta.
  rewrite solve_unfold, !tryStart_closes.
  assert (E : or_else (closes (baseMint p1) [p1; p2; p3])
                      (closes (quoteMint p1) [p1; p2; p3])
              = spec_solve p1 p2 p3).
  { unfold spec_solve, or_else.
    destruct (closes (baseMint p1) [p1; p2; p3]); reflexivity. }
  rewrite E. split; [reflexivity|]. split.
  - unfold spec_solve.
    destruct (closes (baseMint p1) [p1; p2; p3]); reflexivity.
  - unfold spec_solve.
    destruct (closes (baseMint p1) [p1; p2; p3]) as [t|] eqn:Hb.
    + destruct (closes_sound _ _ _ Hb) as [Hs Hw].
      destruct (walk3_shape _ _ _ _ _ _ Hw) as [Hl Hn].
      rewrite Hs. repeat split; auto.
    + destruct (closes (quoteMint p1) [p1; p2; p3]) as [t|] eqn:Hq.
      * destruct (closes_sound _ _ _ Hq) as [Hs Hw].
        destruct (walk3_shape _ _ _ _ _ _ Hw) as [Hl Hn].
        rewrite Hs. repeat split; auto.
      * split; reflexivity.
Qed.

Example solve_sol_usdc_mngo :
  solveTriangleOrientation
    [Some (mkPool "ab" SOL USDC); Some (mkPool "bc" USDC MNGO);
     Some (mkPool "ca" MNGO SOL)]
  = Ok (Some (mkTri SOL [SOL; USDC; MNGO])).
Proof. reflexivity. Qed.

Example solve_quote_side_start :
  solveTriangleOrientation
    [Some (mkPool "ab" USDC SOL); Some (mkPool "bc" USDC MNGO);
     Some (mkPool "ca" MNGO SOL)]
  = Ok (Some (mkTri SOL [SOL; USDC; MNGO])).
Proof. reflexivity. Qed.

Example solve_open_chain :
  solveTriangleOrientation
    [Some (mkPool "ab" SOL USDC); Some (mkPool "bc" USDC MNGO);
     Some (mkPool "cd" MNGO USDC)]
  = Ok None.
Proof. reflexivity. Qed.

End SolverFacts.

(* --------------------------------------------------------------------- *)
(** ** The classifier *)
(* --------------------------------------------------------------------- *)

Section ClassifierFacts.
Import Classifier.

(** C8, as stated, fails: a record whose DEX is Orca and whose explicit
    type is cpmm is classified whirlpool, where the explicit type field
    was to win; and a Meteora record without type is classified cpmm,
    where the DEX name was to give dlmm. *)
Lemma C8_explicit_type_does_not_come_first :
  normalizeType (Some orca_tagged_cpmm) = whirlpool
  /\ spec_classify (Some orca_tagged_cpmm) = cpmm
  /\ normalizeType (Some meteora_untyped) = cpmm
  /\ spec_classify (Some meteora_untyped) = dlmm
  /\ ~ (forall p, normalizeType p = spec_classify p).
Proof.
  repeat split; try reflexivity.
  intros H. specialize (H (Some orca_tagged_cpmm)). discriminate H.
Qed.

End ClassifierFacts.

Section ClassifierOrder.
Import Classifier.

(** C8, amended.  [normalizeType] is total and resolves the variant in
    this order: a DEX name that normalises to "orca" forces whirlpool
    before anything else; then the lower-cased explicit type text
    (type, poolType, raw.type, raw.poolType, raw._original.type; first
    non-nullish) is searched for "dlmm", then "whirlpool" or "orca",
    then "clmm", then "cpmm", "amm" or "constant"; then a truthy
    binStep gives dlmm and a truthy tickSpacing gives whirlpool; the
    default is cpmm.  The DEX name is consulted for Orca only: a record
    with nothing but a Meteora DEX name, a missing record and an empty
    record are all cpmm. *)
Theorem C8_resolution_order (p : option Pool) :
  normalizeType p = first_rule (resolution_rules p) cpmm
  /\ normalizeType (Some orca_tagged_cpmm) = whirlpool
  /\ normalizeType (Some meteora_untyped) = cpmm
  /\ normalizeType None = cpmm
  /\ normalizeType (Some bare) = cpmm.
Proof.
  split; [|repeat split; reflexivity].
  unfold normalizeType, resolution_rules; cbn [first_rule].
  destruct (String.eqb (normalizeDex p) "orca"); [reflexivity|].
  destruct (includes (type_text p) "dlmm"); [reflexivity|].
  destruct (includes (type_text p) "whirlpool" || includes (type_text p) "orca");
    [reflexivity|].
  destruct (includes (type_text p) "clmm"); [reflexivity|].
  destruct (includes (type_text p) "cpmm" || includes (type_text p) "amm"
            || includes (type_text p) "constant"); [reflexivity|].
  destruct (truthy_num (opt p binStep)
            || truthy_num (opt (opt p raw) r_bin_step)); [reflexivity|].
  destruct (truthy_num (opt p tickSpacing)
            || truthy_num (opt (opt p raw) r_tickSpacing)); reflexivity.
Qed.

(** Apart from forcing whirlpool for Orca, the DEX name has no say. *)
Lemma dex_matters_for_orca_only (p : Pool) (d : option string) :
  raw p = None ->
  normalizeDex (Some p) <> "orca" ->
  normalizeDex (Some (with_dex d p)) <> "orca" ->
  normalizeType (Some (with_dex d p)) = normalizeType (Some p).
Proof.
  intros Hraw H1 H2. unfold normalizeType.
  destruct (String.eqb_spec (normalizeDex (Some p)) "orca") as [|_];
    [contradiction|].
  destruct (String.eqb_spec (normalizeDex (Some (with_dex d p))) "orca")
    as [|_]; [contradiction|].
  unfold type_text, with_dex, opt; cbn [type poolType raw binStep tickSpacing].
  rewrite Hraw. reflexivity.
Qed.

Example classify_samples :
  normalizeType (Some (mkPool None (Some "DLMM") None None None None)) = dlmm
  /\ normalizeType (Some (mkPool None None (Some "Whirlpool") None None None))
     = whirlpool
  /\ normalizeType (Some (mkPool (Some "raydium") (Some "clmm") None None
                                 (Some 64) None)) = clmm
  /\ normalizeType (Some (mkPool None (Some "Standard AMM") None None None
                                 None)) = cpmm
  /\ normalizeType (Some (mkPool None None None (Some 80) None None)) = dlmm
  /\ normalizeType (Some (mkPool None None None None (Some 64) None))
     = whirlpool
  /\ normalizeType (Some (mkPool None None None (Some 0) None None)) = cpmm
  /\ normalizeType (Some (mkPool (Some "Orca") (Some "dlmm") None None None
                                 None)) = whirlpool.
Proof. repeat split; reflexivity. Qed.

End ClassifierOrder.

(* --------------------------------------------------------------------- *)
(** ** The final marking pass of the enricher *)
(* --------------------------------------------------------------------- *)

Section HydrateFacts.
Import Hydrate.

Lemma markPool_ready_is_has (pool : Pool) :
  isMathReady (markPool pool) = hasReserves (markPool pool).
Proof.
  unfold markPool; cbn [isMathReady hasReserves].
  rewrite orb_true_r. reflexivity.
Qed.

(** C9 against the code.  The final pass gives every pool, whatever its
    type, [isMathReady = hasReserves]; a clmm pool (and a whirlpool
    pool) that reaches it without reserves is therefore marked not
    math-ready, where the specification (and the comment in the code) want it
    math-ready by policy. *)
Theorem C9_clmm_without_reserves_not_ready :
  isMathReady (markPool clmm_unhydrated) = Some false
  /\ isMathReady (markPool whirlpool_unhydrated) = Some false
  /\ reserveSource (markPool clmm_unhydrated) = Some "none"
  /\ forall pool, isMathReady (markPool pool) = hasReserves (markPool pool).
Proof.
  repeat split; try reflexivity. apply markPool_ready_is_has.
Qed.

End HydrateFacts.

(* --------------------------------------------------------------------- *)
(** ** The route simulator *)
(* --------------------------------------------------------------------- *)

Section RouteFacts.
Import Triangle Route.

Lemma store3_length arr v : (4 <= List.length (store3 arr v))%nat.
Proof.
  unfold store3. rewrite length_app, length_firstn, length_app, repeat_length.
  cbn [List.length]. lia.
Qed.

Lemma run_legs_throws sim pools tA tB tC :
  run_legs sim pools tA tB tC
  = Throw "ReferenceError: Cannot access 'leg2' before initialization".
Proof. reflexivity. Qed.

(** Whatever it is given, the function throws or reports
    'need-3-pools'. *)
Lemma route_outcome sim pools tA tB tC dx imp :
  match simulateTriangularRoute sim pools tA tB tC dx imp with
  | Ok r => r = failure "need-3-pools"
  | Throw _ => True
  end.
Proof.
  unfold simulateTriangularRoute.
  destruct (Dec.toDec dx) as [d|e]; cbn [bind]; [|exact I].
  destruct (validateTriangle _) as [t|e]; cbn [bind]; [|exact I].
  pose proof (store3_length (map of_input pools) ESelf) as L.
  destruct (Nat.eqb_spec (List.length (store3 (map of_input pools) ESelf)) 3)
    as [E|_]; [lia|].
  reflexivity.
Qed.

(** C1 against the code.  On a closed triangle with a valid amount the
    function reports 'need-3-pools' whatever the leg simulator is: no
    leg is simulated, so no amount is chained.  The three declarations
    themselves (lines 373-398) cannot run either: the first reads
    [leg2.dyAtomic] before [leg2] is initialised. *)
Theorem C1_no_leg_receives_an_amount (sim : LegArgs -> result Leg) :
  simulateTriangularRoute sim triangle_pools
    (Some SOL) (Some USDC) (Some MNGO)
    (Some (Dec.Num 10000000000)) (Some 5%Q)
  = Ok (failure "need-3-pools")
  /\ forall pools tA tB tC,
       run_legs sim pools tA tB tC
       = Throw "ReferenceError: Cannot access 'leg2' before initialization".
Proof. split; [reflexivity|]. intros; apply run_legs_throws. Qed.

(** C2 against the code.  With every precondition met and every leg
    able to succeed, the function still returns the failure
    'need-3-pools'; no input makes it return [ok = true].  The profit
    arithmetic the specification describes is in the file, after the end of the
    function: on 10_000_000000 in and 10_050_000000 out it yields
    profit 50_000000 and exactly 0.5 percent. *)
Theorem C2_success_is_never_returned :
  simulateTriangularRoute generous_leg triangle_pools
    (Some SOL) (Some USDC) (Some MNGO)
    (Some (Dec.Num 10000000000)) (Some 5%Q)
  = Ok (failure "need-3-pools")
  /\ (forall sim pools tA tB tC dx imp,
        match simulateTriangularRoute sim pools tA tB tC dx imp with
        | Ok r => ok r = false
        | Throw _ => True
        end)
  /\ (let r := module_level_tail Dec.default_config 10000000000
                 (leg_paying 1) (leg_paying 2) (leg_paying 10050000000) in
      ok r = true /\ profitAtomic r = Some (inject_Z 50000000)
      /\ profitPct r = Some (1 # 2)%Q).
Proof.
  split; [reflexivity|]. split.
  - intros. pose proof (route_outcome sim pools tA tB tC dx imp) as H.
    destruct (simulateTriangularRoute sim pools tA tB tC dx imp);
      [subst; reflexivity|exact I].
  - vm_compute. repeat split; reflexivity.
Qed.

(** C3 against the code.  A route whose legs would return 75 percent
    more than was put in is reported as 'need-3-pools' without legs;
    no input makes the function return 'unrealistic-profit'.  The guard
    the specification describes is in the file, after the end of the function:
    there, 75 percent and a zero input amount (a non-finite
    percentage) both give 'unrealistic-profit' with the three legs. *)
Theorem C3_guard_is_never_reached :
  simulateTriangularRoute
    (fun a => Ok (leg_paying 17500000000)) triangle_pools
    (Some SOL) (Some USDC) (Some MNGO)
    (Some (Dec.Num 10000000000)) (Some 5%Q)
  = Ok (failure "need-3-pools")
  /\ (forall sim pools tA tB tC dx imp,
        match simulateTriangularRoute sim pools tA tB tC dx imp with
        | Ok r => reason r = Some "need-3-pools" /\ legs r = []
        | Throw _ => True
        end)
  /\ (let l3 := leg_paying 17500000000 in
      let r := module_level_tail Dec.default_config 10000000000
                 (leg_paying 1) (leg_paying 2) l3 in
      ok r = false /\ reason r = Some "unrealistic-profit"
      /\ legs r = [leg_paying 1; leg_paying 2; l3]
      /\ profitPct r = Some (inject_Z 75))
  /\ (let r := module_level_tail Dec.default_config 0
                 (leg_paying 1) (leg_paying 2) (leg_paying 5) in
      ok r = false /\ reason r = Some "unrealistic-profit"
      /\ List.length (legs r) = 3%nat).
Proof.
  split; [reflexivity|]. split; [|split].
  - intros. pose proof (route_outcome sim pools tA tB tC dx imp) as H.
    destruct (simulateTriangularRoute sim pools tA tB tC dx imp);
      [subst; split; reflexivity|exact I].
  - vm_compute. repeat split; reflexivity.
  - vm_compute. repeat split; reflexivity.
Qed.

(** Past the guard, the lines return their success object only from
    inside the execution block: without [execute] they return
    nothing. *)
Lemma module_level_return_needs_execute
      (c : Dec.config) (connection payer : bool) (dxA : Z) (l1 l2 l3 : Leg) :
  module_level_return c false connection payer dxA l1 l2 l3 = None
  <-> ok (module_level_tail c dxA l1 l2 l3) = true.
Proof.
  unfold module_level_return.
  destruct (ok (module_level_tail c dxA l1 l2 l3)); cbn; split;
    congruence.
Qed.

End RouteFacts.

(* --------------------------------------------------------------------- *)
(** ** The flashloan planner and the executor *)
(* --------------------------------------------------------------------- *)

Section FlashFacts.
Import Flash.
Variable E : Env.

Lemma ensure_inv (cond : bool) (msg : string) {A} (k : result A) (r : A) :
  (ensure cond msg ;;; k) = Ok r -> cond = true /\ k = Ok r.
Proof. destruct cond; cbn; [auto|discriminate]. Qed.

Lemma bind_inv {A B} (m : result A) (k : A -> result B) (r : B) :
  (x <- m ;; k x) = Ok r -> exists a, m = Ok a /\ k a = Ok r.
Proof. destruct m; cbn; [eauto|discriminate]. Qed.

Lemma is_some_inv {A} (o : option A) :
  is_some o = true -> exists a, o = Some a.
Proof. destruct o; [eauto|discriminate]. Qed.

Lemma dlmm_uses_own_amounts hop payer conn ixs :
  buildMeteoraDlmmSwapIxs E hop payer conn = Ok ixs ->
  built_from_own_amounts E payer hop ixs.
Proof.
  unfold buildMeteoraDlmmSwapIxs. intros H.
  do 4 (apply ensure_inv in H; destruct H as [_ H]).
  apply ensure_inv in H; destruct H as [Ha H].
  apply ensure_inv in H; destruct H as [Hm H].
  apply bind_inv in H; destruct H as [pool [_ H]].
  apply bind_inv in H; destruct H as [inst [_ H]].
  apply ensure_inv in H; destruct H as [_ H].
  apply bind_inv in H; destruct H as [bins [_ H]].
  apply bind_inv in H; destruct H as [tin [_ H]].
  apply bind_inv in H; destruct H as [tout [_ H]].
  apply bind_inv in H; destruct H as [lb [_ H]].
  apply is_some_inv in Ha; destruct Ha as [a Ha].
  apply is_some_inv in Hm; destruct Hm as [m Hm].
  rewrite Ha, Hm in H; cbn [nullish_or] in H.
  exists inst. eexists. split; [|split; [|exact H]].
  - split; cbn; assumption.
  - reflexivity.
Qed.

Lemma builder_uses_own_amounts hop payer conn ixs :
  buildSwapIxForPool E hop payer conn = Ok ixs ->
  built_from_own_amounts E payer hop ixs.
Proof.
  unfold buildSwapIxForPool. intros H.
  apply ensure_inv in H; destruct H as [_ H].
  destruct (includes _ "METEORA" || includes _ "DLMM"); [|discriminate].
  eapply dlmm_uses_own_amounts; eassumption.
Qed.

(** The loop succeeds exactly when every hop has both amounts and its
    builder succeeds; it then appends the hops' instructions in order. *)
Lemma hop_loop_ok who payer conn legs : forall i acc out,
  hop_loop E who payer conn i legs acc = Ok out <->
  exists ixss,
    Forall2 (fun hop ixs =>
               is_some (amountInAtomic hop) = true
               /\ is_some (minOutAtomic hop) = true
               /\ buildSwapIxForPool E hop payer conn = Ok ixs) legs ixss
    /\ out = (acc ++ List.concat ixss)%list.
Proof.
  induction legs as [|hop rest IH]; intros i acc out; cbn [hop_loop].
  - split.
    + intros [= <-]. exists []. split; [constructor|].
      cbn. now rewrite app_nil_r.
    + intros [ixss [F ->]]. inversion F; subst. cbn. now rewrite app_nil_r.
  - split.
    + intros H.
      apply ensure_inv in H; destruct H as [Ha H].
      apply ensure_inv in H; destruct H as [Hm H].
      apply bind_inv in H; destruct H as [ixs [Hb H]].
      apply IH in H. destruct H as [ixss [F ->]].
      exists (ixs :: ixss). split; [constructor; auto|].
      cbn. now rewrite app_assoc.
    + intros [ixss [F ->]]. inversion F as [|h ixs r t [Ha [Hm Hb]] F']; subst.
      rewrite Ha, Hm, Hb; cbn.
      apply IH. exists t. split; [assumption|]. now rewrite app_assoc.
Qed.

Lemma hop_loop_fails_on who payer conn legs hop : forall i acc,
  In hop legs ->
  (amountInAtomic hop = None \/ minOutAtomic hop = None
   \/ isOk (buildSwapIxForPool E hop payer conn) = false) ->
  isOk (hop_loop E who payer conn i legs acc) = false.
Proof.
  intros i acc Hin Hbad.
  destruct (hop_loop E who payer conn i legs acc) as [out|e] eqn:L;
    [|reflexivity].
  exfalso. apply hop_loop_ok in L. destruct L as [ixss [F _]].
  clear - F Hin Hbad.
  induction F as [|h ixs r t [Ha [Hm Hb]] F IH]; [contradiction|].
  destruct Hin as [->|Hin]; [|auto].
  destruct Hbad as [B|[B|B]].
  - rewrite B in Ha; discriminate.
  - rewrite B in Hm; discriminate.
  - rewrite Hb in B; discriminate.
Qed.

Lemma hop_loop_well_formed who payer conn legs : forall i acc,
  Forall (well_formed E payer conn) legs ->
  isOk (hop_loop E who payer conn i legs acc) = true.
Proof.
  induction legs as [|hop rest IH]; intros i acc F; cbn [hop_loop];
    [reflexivity|].
  inversion F as [|h r [Ha [Hm Hb]] F']; subst.
  rewrite Ha, Hm; cbn.
  destruct (buildSwapIxForPool E hop payer conn); [|discriminate].
  cbn. apply IH; assumption.
Qed.

End FlashFacts.

Section PlannerClaims.
Import Flash.

Lemma bind_not_ok {A B} (m : result A) (k : A -> result B) :
  isOk m = false -> isOk (x <- m ;; k x) = false.
Proof. destruct m; cbn; [discriminate|reflexivity]. Qed.

(** C6.  [buildFlashloanTx] throws, and so returns no transaction,
    whenever some leg lacks [amountInAtomic] or [minOutAtomic], whenever
    some leg's instruction builder throws, and whenever the flashloan
    instruction builder is not a function.  When it does return, the
    callback handed to the flashloan builder is the concatenation, in
    leg order, of the instructions the SDK built for each leg from a
    swap request carrying that leg's own [amountInAtomic] and
    [minOutAtomic]; the loan amount only reaches the flashloan builder.
    [executeRoute] rejects a leg without amounts in the same way. *)
Theorem C6_planner_fails_fast_and_uses_leg_amounts
        (E : Env) (connection : bool) (payerKeypair : option Keypair)
        (loanMint : option string) (loanAmountAtomic : option Z)
        (routeLegs : list Hop)
        (builder : option (FlashArgs E -> result (Ix E)))
        (borrowerProgramId : option string)
        (computeBudget : option ComputeBudget)
        (opts_connection : option bool) :
  let call := buildFlashloanTx E connection payerKeypair loanMint
                loanAmountAtomic routeLegs builder borrowerProgramId
                computeBudget opts_connection in
  let conn := nullish_or opts_connection connection in
  ((exists hop, In hop routeLegs
                /\ (amountInAtomic hop = None \/ minOutAtomic hop = None))
   -> isOk call = false
      /\ isOk (executeRoute E connection payerKeypair routeLegs
                            computeBudget opts_connection) = false)
  /\ ((exists hop kp, In hop routeLegs /\ payerKeypair = Some kp
                      /\ isOk (buildSwapIxForPool E hop (publicKey kp) conn)
                         = false)
      -> isOk call = false)
  /\ (builder = None -> isOk call = false)
  /\ (forall built, call = Ok built ->
        exists kp b ixss flashIx lm bp,
          payerKeypair = Some kp /\ builder = Some b
          /\ optional_key E loanMint = Ok lm
          /\ optional_key E borrowerProgramId = Ok bp
          /\ Forall2 (built_from_own_amounts E (publicKey kp)) routeLegs ixss
          /\ b (mkFlashArgs (publicKey kp) lm loanAmountAtomic bp
                            (List.concat ixss)) = Ok flashIx
          /\ tx built = (addComputeBudgetIxs E computeBudget ++ [flashIx])%list
          /\ signers built = [kp]).
Proof.
  cbv zeta. unfold buildFlashloanTx, executeRoute.
  split; [|split; [|split]].
  - intros [hop [Hin Hbad]]. split.
    + destruct connection; [|reflexivity]. cbn [negb].
      destruct payerKeypair as [kp|]; [|reflexivity].
      destruct routeLegs as [|h0 rest] eqn:EL; [contradiction|].
      destruct builder as [b|]; [|reflexivity].
      rewrite <- EL in *. apply bind_not_ok.
      apply hop_loop_fails_on with (hop := hop); [assumption|tauto].
    + destruct connection; [|reflexivity]. cbn [negb].
      destruct payerKeypair as [kp|]; [|reflexivity].
      destruct routeLegs as [|h0 rest] eqn:EL; [contradiction|].
      rewrite <- EL in *. apply bind_not_ok.
      apply hop_loop_fails_on with (hop := hop); [assumption|tauto].
  - intros [hop [kp [Hin [-> Hbad]]]].
    destruct connection; [|reflexivity]. cbn [negb].
    destruct routeLegs as [|h0 rest] eqn:EL; [contradiction|].
    destruct builder as [b|]; [|reflexivity].
    rewrite <- EL in *. apply bind_not_ok.
    apply hop_loop_fails_on with (hop := hop); [assumption|tauto].
  - intros ->.
    destruct connection; [|reflexivity]. cbn [negb].
    destruct payerKeypair as [kp|]; [|reflexivity].
    destruct routeLegs; reflexivity.
  - intros built H.
    destruct connection; [|discriminate]. cbn [negb] in H.
    destruct payerKeypair as [kp|]; [|discriminate].
    destruct routeLegs as [|h0 rest] eqn:EL; [discriminate|].
    destruct builder as [b|]; [|discriminate].
    rewrite <- EL in *.
    apply bind_inv in H; destruct H as [perHop [HL H]].
    apply bind_inv in H; destruct H as [lm [Hlm H]].
    apply bind_inv in H; destruct H as [bp [Hbp H]].
    apply bind_inv in H; destruct H as [flashIx [Hb H]].
    injection H as <-.
    apply hop_loop_ok in HL. destruct HL as [ixss [F ->]].
    exists kp, b, ixss, flashIx, lm, bp. cbn [app] in Hb.
    repeat split; try assumption.
    eapply Forall2_impl; [|exact F].
    intros hop ixs [_ [_ Hs]].
    eapply builder_uses_own_amounts; eassumption.
Qed.

(** C6 at concrete routes: a three-leg route whose second leg lacks its
    input amount, one whose second leg is on an unsupported DEX, one
    without a flashloan builder; and a well-formed one, whose
    transaction wraps the three swaps with their own amounts. *)
Lemma C6_planner_witness :
  (isOk (buildFlashloanTx demo true (Some demo_payer) (Some "SOL") (Some 1000)
           [leg_ab; leg_bc_no_amount; leg_ca] (Some demo_flash)
           None None None) = false)
  /\ (isOk (buildFlashloanTx demo true (Some demo_payer) (Some "SOL")
              (Some 1000) [leg_ab; leg_raydium; leg_ca] (Some demo_flash)
              None None None) = false)
  /\ (isOk (buildFlashloanTx demo true (Some demo_payer) (Some "SOL")
              (Some 1000) three_legs None None None None) = false)
  /\ (exists ixss flashIx,
        Forall2 (built_from_own_amounts demo "payer") three_legs ixss
        /\ demo_flash (mkFlashArgs "payer" (Some "SOL") (Some 1000) None
                                   (List.concat ixss)) = Ok flashIx).
Proof.
  split; [|split; [|split]].
  - destruct (C6_planner_fails_fast_and_uses_leg_amounts demo true
                (Some demo_payer) (Some "SOL") (Some 1000)
                [leg_ab; leg_bc_no_amount; leg_ca] (Some demo_flash)
                None None None) as [H _].
    apply H.
    exists leg_bc_no_amount. split; [right; left; reflexivity|].
    left; reflexivity.
  - destruct (C6_planner_fails_fast_and_uses_leg_amounts demo true
                (Some demo_payer) (Some "SOL") (Some 1000)
                [leg_ab; leg_raydium; leg_ca] (Some demo_flash)
                None None None) as [_ [H _]].
    apply H.
    exists leg_raydium, demo_payer.
    split; [right; left; reflexivity|]. split; reflexivity.
  - destruct (C6_planner_fails_fast_and_uses_leg_amounts demo true
                (Some demo_payer) (Some "SOL") (Some 1000)
                three_legs None None None None) as [_ [_ [H _]]].
    apply H. reflexivity.
  - destruct (C6_planner_fails_fast_and_uses_leg_amounts demo true
                (Some demo_payer) (Some "SOL") (Some 1000)
                three_legs (Some demo_flash) None None None)
      as [_ [_ [_ H]]].
    destruct (H _ eq_refl) as [kp [b [ixss [flashIx [lm [bp P]]]]]].
    destruct P as [Hkp [Hb [Hlm [Hbp [F [Hf _]]]]]].
    injection Hkp as <-. injection Hb as <-.
    injection Hlm as <-. injection Hbp as <-.
    exists ixss, flashIx. split; [exact F|].
    exact Hf.
Defined.

End PlannerClaims.

Section LegCount.
Import Flash.

Lemma optional_key_ok (E : Env) (k : option string) :
  (forall m, k = Some m -> valid_pubkey E m = true) ->
  isOk (optional_key E k) = true.
Proof.
  intros H. destruct k as [m|]; [|reflexivity]. cbn.
  destruct (truthy_str m); [|reflexivity].
  unfold pubkeyOf. rewrite (H m eq_refl). reflexivity.
Qed.

Lemma well_formed_built (E : Env) (payer : string) (conn : bool)
      (legs : list Hop) :
  Forall (well_formed E payer conn) legs ->
  exists ixss,
    Forall2 (fun hop ixs =>
               is_some (amountInAtomic hop) = true
               /\ is_some (minOutAtomic hop) = true
               /\ buildSwapIxForPool E hop payer conn = Ok ixs) legs ixss.
Proof.
  induction 1 as [|hop rest [Ha [Hm Hb]] _ [ixss IH]].
  - exists []. constructor.
  - destruct (buildSwapIxForPool E hop payer conn) as [ixs|] eqn:B;
      [|discriminate].
    exists (ixs :: ixss). constructor; auto.
Qed.

(** C10.  Neither [buildFlashloanTx] nor [executeRoute] looks at the
    number of legs beyond its being positive.  On any non-empty list of
    well-formed legs (both amounts present, instruction builder
    succeeding), with usable keys, a flashloan builder and a cluster
    that accept what they are given, the route is built and executed:
    there is one instruction list per leg, each built by the SDK from a
    request carrying that leg's own amounts; [buildFlashloanTx] returns
    the transaction that holds the compute-budget instructions and the
    flashloan instruction built around the legs' instructions, all of
    them, in leg order, signed by the payer; [executeRoute] sends the
    compute-budget instructions followed by the same instructions and
    returns the signature the cluster gave for them. *)
Theorem C10_any_positive_leg_count_is_accepted
        (E : Env) (kp : Keypair)
        (loanMint : option string) (loanAmountAtomic : option Z)
        (routeLegs : list Hop)
        (builder : FlashArgs E -> result (Ix E))
        (borrowerProgramId : option string)
        (computeBudget : option ComputeBudget)
        (opts_connection : option bool) :
  routeLegs <> [] ->
  Forall (well_formed E (publicKey kp) (nullish_or opts_connection true))
         routeLegs ->
  (forall m, loanMint = Some m -> valid_pubkey E m = true) ->
  (forall m, borrowerProgramId = Some m -> valid_pubkey E m = true) ->
  (forall args, isOk (builder args) = true) ->
  (forall ixs, isOk (send E ixs) = true) ->
  exists ixss lm bp flashIx sig,
    Forall2 (fun hop ixs =>
               buildSwapIxForPool E hop (publicKey kp)
                                  (nullish_or opts_connection true) = Ok ixs)
            routeLegs ixss
    /\ Forall2 (built_from_own_amounts E (publicKey kp)) routeLegs ixss
    /\ optional_key E loanMint = Ok lm
    /\ optional_key E borrowerProgramId = Ok bp
    /\ builder (mkFlashArgs (publicKey kp) lm loanAmountAtomic bp
                            (List.concat ixss)) = Ok flashIx
    /\ buildFlashloanTx E true (Some kp) loanMint loanAmountAtomic
         routeLegs (Some builder) borrowerProgramId computeBudget
         opts_connection
       = Ok (mkBuilt (addComputeBudgetIxs E computeBudget ++ [flashIx])%list
                     [kp])
    /\ send E (addComputeBudgetIxs E computeBudget ++ List.concat ixss)%list
       = Ok sig
    /\ executeRoute E true (Some kp) routeLegs computeBudget opts_connection
       = Ok sig.
Proof.
  intros Hne Hwf Hlm Hbp Hb Hsend.
  destruct (well_formed_built E _ _ _ Hwf) as [ixss F].
  pose proof (optional_key_ok E loanMint Hlm) as K1.
  destruct (optional_key E loanMint) as [lm|] eqn:L1; [|discriminate].
  pose proof (optional_key_ok E borrowerProgramId Hbp) as K2.
  destruct (optional_key E borrowerProgramId) as [bp|] eqn:L2;
    [|discriminate].
  pose proof (Hb (mkFlashArgs (publicKey kp) lm loanAmountAtomic bp
                              (List.concat ixss))) as B.
  destruct (builder _) as [flashIx|] eqn:FB; [|discriminate].
  pose proof (Hsend (addComputeBudgetIxs E computeBudget
                     ++ List.concat ixss)%list) as S.
  destruct (send E _) as [sig|] eqn:SD; [|discriminate].
  exists ixss, lm, bp, flashIx, sig.
  assert (L : forall who acc,
             hop_loop E who (publicKey kp) (nullish_or opts_connection true)
                      0 routeLegs acc = Ok (acc ++ List.concat ixss)%list).
  { intros who acc. apply hop_loop_ok. exists ixss. split; [exact F|].
    reflexivity. }
  split; [|split; [|split; [|split; [|split; [|split; [|split]]]]]];
    try reflexivity; try assumption.
  - eapply Forall2_impl; [|exact F]. intros hop ixs [_ [_ H]]. exact H.
  - eapply Forall2_impl; [|exact F]. intros hop ixs [_ [_ H]].
    eapply builder_uses_own_amounts; exact H.
  - unfold buildFlashloanTx; cbn [negb].
    destruct routeLegs as [|h0 rest] eqn:EL; [congruence|].
    rewrite <- EL in *. rewrite L. cbn [bind app].
    rewrite L1. cbn [bind]. rewrite L2. cbn [bind]. rewrite FB.
    reflexivity.
  - unfold executeRoute; cbn [negb].
    destruct routeLegs as [|h0 rest] eqn:EL; [congruence|].
    rewrite <- EL in *. rewrite L. cbn [bind]. exact SD.
Qed.

Lemma demo_legs_well_formed :
  Forall (well_formed demo "payer" true) four_legs
  /\ Forall (well_formed demo "payer" true) two_legs.
Proof.
  split; repeat constructor.
Defined.

(** C10 on a two-leg and on a four-leg route: the flashloan instruction
    wraps two, respectively four, swaps, each with its own amounts, and
    the executor's transaction is sent. *)
Lemma C10_two_and_four_legs_witness :
  (buildFlashloanTx demo true (Some demo_payer) (Some "SOL")
     (Some 1000) two_legs (Some demo_flash) None None None
   = Ok (@mkBuilt demo
           [FlashIx (Some 1000)
              [mkSwapArgs "SOL" "USDC" 1000 495 "poolAB" "payer" ["bin0"];
               mkSwapArgs "USDC" "MNGO" 500 9000 "poolBC" "payer" ["bin0"]]]
           [demo_payer])
   /\ executeRoute demo true (Some demo_payer) two_legs None None
      = Ok "signature")
  /\ (buildFlashloanTx demo true (Some demo_payer) (Some "SOL")
        (Some 1000) four_legs (Some demo_flash) None None None
      = Ok (@mkBuilt demo
              [FlashIx (Some 1000)
                 [mkSwapArgs "SOL" "USDC" 1000 495 "poolAB" "payer" ["bin0"];
                  mkSwapArgs "USDC" "MNGO" 500 9000 "poolBC" "payer" ["bin0"];
                  mkSwapArgs "MNGO" "BONK" 9100 77 "poolCD" "payer" ["bin0"];
                  mkSwapArgs "MNGO" "SOL" 9100 1001 "poolCA" "payer" ["bin0"]]]
              [demo_payer])
      /\ executeRoute demo true (Some demo_payer) four_legs None None
         = Ok "signature").
Proof.
  split.
  - destruct (C10_any_positive_leg_count_is_accepted demo demo_payer
                (Some "SOL") (Some 1000) two_legs demo_flash None None None)
      as [ixss [lm [bp [flashIx [sig [F [_ [Hlm [Hbp [Hf [HB [HS HE]]]]]]]]]]]].
    + discriminate.
    + apply demo_legs_well_formed.
    + reflexivity.
    + discriminate.
    + reflexivity.
    + reflexivity.
    + rewrite HB, HE. clear HB HE.
      cbv in Hlm, Hbp. cbn [send demo] in HS.
      injection Hlm as <-. injection Hbp as <-. injection HS as <-.
      inversion F as [|h1 x1 r1 t1 B1 F1]; subst.
      inversion F1 as [|h2 x2 r2 t2 B2 F2]; subst.
      inversion F2; subst.
      vm_compute in B1, B2. injection B1 as <-. injection B2 as <-.
      cbn in Hf. injection Hf as <-. split; reflexivity.
  - destruct (C10_any_positive_leg_count_is_accepted demo demo_payer
                (Some "SOL") (Some 1000) four_legs demo_flash None None None)
      as [ixss [lm [bp [flashIx [sig [F [_ [Hlm [Hbp [Hf [HB [HS HE]]]]]]]]]]]].
    + discriminate.
    + apply demo_legs_well_formed.
    + reflexivity.
    + discriminate.
    + reflexivity.
    + reflexivity.
    + rewrite HB, HE. clear HB HE.
      cbv in Hlm, Hbp. cbn [send demo] in HS.
      injection Hlm as <-. injection Hbp as <-. injection HS as <-.
      inversion F as [|h1 x1 r1 t1 B1 F1]; subst.
      inversion F1 as [|h2 x2 r2 t2 B2 F2]; subst.
      inversion F2 as [|h3 x3 r3 t3 B3 F3]; subst.
      inversion F3 as [|h4 x4 r4 t4 B4 F4]; subst.
      inversion F4; subst.
      vm_compute in B1, B2, B3, B4.
      injection B1 as <-. injection B2 as <-.
      injection B3 as <-. injection B4 as <-.
      cbn in Hf. injection Hf as <-. split; reflexivity.
Defined.

End LegCount.

(* --------------------------------------------------------------------- *)
(** ** The cpmm adapter: failing fast *)
(* --------------------------------------------------------------------- *)

Section CpmmGuards.
Import Dec Cpmm.

(** C5, as stated, fails on the fee: a pool without any fee property is
    quoted with the substituted default of 25 basis points
    ([getFeeRate]: 0.003), and a pool whose fee is zero is quoted as
    well. *)
Lemma C5_missing_fee_is_defaulted :
  a_feeBps (constructor (poolData (int 1000) (int 1000) None
                                  (Some 6) (Some 6))) = Num 25
  /\ quoteExactIn default_config
       (constructor (poolData (int 1000) (int 1000) None (Some 6) (Some 6)))
       (int 100) true 50
     = Ok (mkQuote 100 (Some 90) (Some 90) true "RAYDIUM_CPMM" true)
  /\ quoteExactIn default_config
       (constructor (poolData (int 1000) (int 1000) (int 0) (Some 6) (Some 6)))
       (int 100) true 50
     = Ok (mkQuote 100 (Some 90) (Some 90) true "RAYDIUM_CPMM" true)
  /\ getFeeRate default_config no_fee = Ok (3 # 1000)%Q
  /\ ~ (forall pd amt dir slip,
          feeBps pd = None ->
          isOk (quoteExactIn default_config (constructor pd) amt dir slip)
          = false).
Proof.
  split; [reflexivity|]. split; [vm_compute; reflexivity|].
  split; [vm_compute; reflexivity|]. split; [reflexivity|].
  intros H.
  specialize (H (poolData (int 1000) (int 1000) None (Some 6) (Some 6))
                (int 100) true 50%Q eq_refl).
  vm_compute in H. discriminate H.
Qed.

Lemma gt0_false_of_le (q : Q) : (q <= 0)%Q -> gt0 q = false.
Proof.
  intros H. unfold gt0, gt. apply Qle_bool_iff in H. now rewrite H.
Qed.

Lemma quote_needs_positive_reserves c a amt dir slip :
  positive_reserve (xReserveRaw a) && positive_reserve (yReserveRaw a)
  = false ->
  isOk (quoteExactIn c a amt dir slip) = false.
Proof.
  intros H. unfold quoteExactIn.
  destruct amt as [v|]; [|reflexivity]. cbn [is_some ensure bind].
  destruct (xReserveRaw a) as [[x|]|]; destruct (yReserveRaw a) as [[y|]|];
    cbn [is_some ensure bind andb toDec newDecimal positive_reserve isOk]
      in H |- *;
    try reflexivity.
  rewrite H. reflexivity.
Qed.

(** C5, amended.  A quote request on a pool whose reserves are missing,
    not numeric or not positive throws and returns no quote: with an
    input amount given, a missing reserve gives 'CPMM reserves missing'
    and a reserve that is zero or negative gives 'CPMM reserves are
    zero'.  The fee is not guarded: when the pool has no fee property
    the adapter substitutes 25 basis points, and [getFeeRate]
    substitutes 0.003; a pool whose fee is zero is quoted. *)
Theorem C5_reserves_fail_fast_fee_defaults
        (c : config) (pd : PoolData) (amt : jsnum) (dir : bool) (slip : Q) :
  let a := constructor pd in
  (forall anyAmt,
      positive_reserve (xReserveRaw a) && positive_reserve (yReserveRaw a)
      = false ->
      isOk (quoteExactIn c a anyAmt dir slip) = false)
  /\ (xReserveRaw a = None \/ yReserveRaw a = None ->
      quoteExactIn c a (Some amt) dir slip
      = Throw "CPMM reserves missing (run enrich reserves first)")
  /\ (forall x y,
         xReserveRaw a = Some (Num x) -> yReserveRaw a = Some (Num y) ->
         (x <= 0 \/ y <= 0)%Q ->
         quoteExactIn c a (Some amt) dir slip
         = Throw "CPMM reserves are zero (cannot quote)")
  /\ (feeBps pd = None -> fee_bps pd = None -> rawq pd raw_feeBps = None ->
      a_feeBps a = Num 25)
  /\ getFeeRate c no_fee = Ok (3 # 1000)%Q
  /\ isOk (quoteExactIn default_config
             (constructor (poolData (int 1000) (int 1000) (int 0)
                                    (Some 6) (Some 6)))
             (int 100) true 50) = true.
Proof.
  cbv zeta. split; [|split; [|split; [|split; [|split]]]].
  - intros anyAmt H. apply quote_needs_positive_reserves; assumption.
  - intros H. unfold quoteExactIn. cbn [is_some ensure bind].
    destruct H as [-> | ->]; [reflexivity|].
    destruct (xReserveRaw (constructor pd)); reflexivity.
  - intros x y Hx Hy H. unfold quoteExactIn. rewrite Hx, Hy.
    cbn [is_some ensure bind andb toDec newDecimal].
    destruct H as [H|H]; apply gt0_false_of_le in H; rewrite H.
    + reflexivity.
    + rewrite andb_false_r. reflexivity.
  - intros H1 H2 H3. unfold constructor; cbn [a_feeBps].
    rewrite H1, H2, H3. reflexivity.
  - reflexivity.
  - vm_compute. reflexivity.
Qed.

(** C5 amended, at concrete pools: one without its x reserve, one whose
    y reserve is zero, one without fee. *)
Lemma C5_reserves_witness :
  quoteExactIn default_config
    (constructor (poolData None (int 1000) (int 25) (Some 6) (Some 6)))
    (int 100) true 50
  = Throw "CPMM reserves missing (run enrich reserves first)"
  /\ quoteExactIn default_config
       (constructor (poolData (int 1000) (int 0) (int 25) (Some 6) (Some 6)))
       (int 100) true 50
     = Throw "CPMM reserves are zero (cannot quote)"
  /\ isOk (quoteExactIn default_config
             (constructor (poolData (int 1000) (Some NotNumeric) (int 25)
                                    (Some 6) (Some 6)))
             (int 100) true 50) = false
  /\ a_feeBps (constructor (poolData (int 1000) (int 1000) None
                                     (Some 6) (Some 6))) = Num 25.
Proof.
  split; [|split; [|split]].
  - destruct (C5_reserves_fail_fast_fee_defaults default_config
                (poolData None (int 1000) (int 25) (Some 6) (Some 6))
                (Num 100) true 50) as [_ [H _]].
    apply H. left; reflexivity.
  - destruct (C5_reserves_fail_fast_fee_defaults default_config
                (poolData (int 1000) (int 0) (int 25) (Some 6) (Some 6))
                (Num 100) true 50) as [_ [_ [H _]]].
    apply (H (inject_Z 1000) (inject_Z 0)); [reflexivity|reflexivity|].
    right. unfold Qle; cbn. lia.
  - destruct (C5_reserves_fail_fast_fee_defaults default_config
                (poolData (int 1000) (Some NotNumeric) (int 25)
                          (Some 6) (Some 6))
                (Num 100) true 50) as [H _].
    apply H. reflexivity.
  - destruct (C5_reserves_fail_fast_fee_defaults default_config
                (poolData (int 1000) (int 1000) None (Some 6) (Some 6))
                (Num 100) true 50) as [_ [_ [_ [H _]]]].
    apply H; reflexivity.
Defined.

End CpmmGuards.

(* --------------------------------------------------------------------- *)
(** ** Decimal rounding: when it is exact *)
(* --------------------------------------------------------------------- *)

Import Dec.

Section DecimalDigits.

Lemma ndigits_fuel_spec (f : nat) : forall n,
  0 < n < 2 ^ (Z.of_nat f + 1) ->
  1 <= ndigits_fuel f n /\ 10 ^ (ndigits_fuel f n - 1) <= n < 10 ^ ndigits_fuel f n.
Proof.
  induction f as [|f IH]; intros n Hn; cbn [ndigits_fuel].
  - change (2 ^ (Z.of_nat 0 + 1)) with 2 in Hn. cbn. lia.
  - destruct (Z.ltb_spec n 10) as [Hs|Hb].
    + cbn. lia.
    + assert (Hq : 0 < n / 10 < 2 ^ (Z.of_nat f + 1)).
      { split.
        - apply Z.div_str_pos; lia.
        - apply Z.div_lt_upper_bound; [lia|].
          replace (Z.of_nat (S f) + 1) with (Z.succ (Z.of_nat f + 1)) in Hn by lia.
          rewrite Z.pow_succ_r in Hn by lia. lia. }
      destruct (IH _ Hq) as [H1 [H2 H3]].
      set (r := ndigits_fuel f (n / 10)) in *.
      split; [lia|].
      replace (1 + r - 1) with (Z.succ (r - 1)) by lia.
      replace (1 + r) with (Z.succ r) by lia.
      rewrite !Z.pow_succ_r by lia.
      pose proof (Z.div_mod n 10 ltac:(lia)) as E.
      pose proof (Z.mod_pos_bound n 10 ltac:(lia)) as B.
      lia.
Qed.

Lemma ndigits_spec (n : Z) :
  0 < n -> 1 <= ndigits n /\ 10 ^ (ndigits n - 1) <= n < 10 ^ ndigits n.
Proof.
  intros Hn. unfold ndigits. apply ndigits_fuel_spec.
  split; [assumption|].
  rewrite Z2Nat.id by apply Z.log2_nonneg.
  pose proof (Z.log2_spec n Hn) as [_ H]. 
  replace (Z.log2 n + 1) with (Z.succ (Z.log2 n)) by lia. exact H.
Qed.

Lemma dexp_lower (n d : Z) :
  0 < n -> 0 < d -> ge_pow10 (dexp n d) n d = true.
Proof.
  intros Hn Hd. unfold dexp.
  destruct (ge_pow10 (ndigits n - ndigits d) n d) eqn:G; [exact G|].
  destruct (ndigits_spec n Hn) as [N1 [N2 _]].
  destruct (ndigits_spec d Hd) as [D1 [_ D3]].
  set (a := ndigits n) in *. set (b := ndigits d) in *.
  unfold ge_pow10.
  destruct (Z.leb_spec 0 (a - b - 1)) as [Hp|Hm].
  - apply Z.leb_le.
    assert (E : 10 ^ (a - 1) = 10 ^ (a - b - 1) * 10 ^ b).
    { rewrite <- Z.pow_add_r by lia. f_equal; lia. }
    assert (0 < 10 ^ (a - b - 1)) by (apply Z.pow_pos_nonneg; lia).
    nia.
  - apply Z.leb_le.
    assert (E : 10 ^ b = 10 ^ (a - 1) * 10 ^ (- (a - b - 1))).
    { rewrite <- Z.pow_add_r by lia. f_equal; lia. }
    assert (0 < 10 ^ (- (a - b - 1))) by (apply Z.pow_pos_nonneg; lia).
    nia.
Qed.

(** [dexp] is the decimal exponent: [10^e <= n/d < 10^(e+1)]. *)
Lemma dexp_upper (n d : Z) :
  0 < n -> 0 < d -> ge_pow10 (dexp n d + 1) n d = false.
Proof.
  intros Hn Hd. unfold dexp.
  destruct (ge_pow10 (ndigits n - ndigits d) n d) eqn:G.
  - destruct (ndigits_spec n Hn) as [N1 [_ N3]].
    destruct (ndigits_spec d Hd) as [D1 [D2 _]].
    set (a := ndigits n) in *. set (b := ndigits d) in *.
    unfold ge_pow10.
    destruct (Z.leb_spec 0 (a - b + 1)) as [Hp|Hm].
    + apply Z.leb_gt.
      assert (E : 10 ^ a = 10 ^ (a - b + 1) * 10 ^ (b - 1)).
      { rewrite <- Z.pow_add_r by lia. f_equal; lia. }
      assert (0 < 10 ^ (a - b + 1)) by (apply Z.pow_pos_nonneg; lia).
      nia.
    + apply Z.leb_gt.
      assert (E : 10 ^ (b - 1) = 10 ^ a * 10 ^ (- (a - b + 1))).
      { rewrite <- Z.pow_add_r by lia. f_equal; lia. }
      assert (0 < 10 ^ (- (a - b + 1))) by (apply Z.pow_pos_nonneg; lia).
      nia.
  - replace (ndigits n - ndigits d - 1 + 1) with (ndigits n - ndigits d)
      by lia.
    exact G.
Qed.

Example third_to_20_digits :
  round_sig default_config (1 # 3) = (33333333333333333333 # 100000000000000000000)%Q
  /\ round_sig default_config (2 # 3)
     = (66666666666666666667 # 100000000000000000000)%Q
  /\ round_sig (mkConfig 20 ROUND_DOWN) (2 # 3)
     = (33333333333333333333 # 50000000000000000000)%Q
  /\ round_sig default_config (inject_Z 12345678901234567890123)
     = inject_Z 12345678901234567890000.
Proof. repeat split; vm_compute; reflexivity. Qed.

End DecimalDigits.

Section Rounding.

Lemma pow10_pos (k : Z) : 0 <= k -> 0 < 10 ^ k.
Proof. intros. apply Z.pow_pos_nonneg; lia. Qed.

Lemma pow10_split (a b : Z) : 0 <= a -> 0 <= b -> 10 ^ (a + b) = 10 ^ a * 10 ^ b.
Proof. intros. apply Z.pow_add_r; assumption. Qed.

Lemma pow10_lt_inv (a b : Z) : 0 <= b -> 10 ^ a < 10 ^ b -> a < b.
Proof. intros Hb L. apply (Z.pow_lt_mono_r_iff 10 a b); [lia|assumption|assumption]. Qed.

(** With a numerator below [10^(P-1)], the scale is positive and exceeds
    the denominator. *)
Lemma scale_exceeds_den (P n d e : Z) :
  0 < n -> 0 < d -> n < 10 ^ (P - 1) -> 1 <= P ->
  ge_pow10 e n d = true ->
  0 < P - 1 - e /\ d < 10 ^ (P - 1 - e).
Proof.
  intros Hn Hd Hb HP G. unfold ge_pow10 in G.
  destruct (Z.leb_spec 0 e) as [He|He]; apply Z.leb_le in G.
  - pose proof (pow10_pos e He) as Pe.
    assert (L : 10 ^ e < 10 ^ (P - 1)) by nia.
    apply pow10_lt_inv in L; [|lia].
    split; [lia|].
    assert (E : 10 ^ (P - 1) = 10 ^ e * 10 ^ (P - 1 - e)).
    { rewrite <- pow10_split by lia. f_equal; lia. }
    nia.
  - split; [lia|].
    pose proof (pow10_pos (- e) ltac:(lia)) as Pe.
    assert (E : 10 ^ (P - 1 - e) = 10 ^ (P - 1) * 10 ^ (- e)).
    { rewrite <- pow10_split by lia. f_equal; lia. }
    nia.
Qed.

(** A value with at most [P] significant digits, [M / 10^j], is scaled by
    at least [10^j]. *)
Lemma scale_covers_digits (P n d e M j : Z) :
  0 < n -> 0 < d -> 0 <= j -> 0 < M < 10 ^ P ->
  n * 10 ^ j = M * d ->
  ge_pow10 e n d = true ->
  j <= P - 1 - e.
Proof.
  intros Hn Hd Hj HM Hq G. unfold ge_pow10 in G.
  pose proof (pow10_pos j Hj) as Pj.
  assert (HP : 0 < P).
  { destruct (Z.ltb_spec 0 P) as [|HP]; [assumption|].
    destruct (Z.eq_dec P 0) as [->|]; [cbn in HM; lia|].
    rewrite Z.pow_neg_r in HM by lia. lia. }
  destruct (Z.leb_spec 0 e) as [He|He]; apply Z.leb_le in G.
  - pose proof (pow10_pos e He) as Pe.
    assert (L : 10 ^ (e + j) < 10 ^ P).
    { rewrite pow10_split by lia. nia. }
    apply pow10_lt_inv in L; lia.
  - pose proof (pow10_pos (- e) ltac:(lia)) as Pe.
    assert (L : 10 ^ j < 10 ^ (P + - e)).
    { rewrite pow10_split by lia. nia. }
    apply pow10_lt_inv in L; lia.
Qed.

Lemma round_int_exact (rm : rounding) (t d : Z) :
  0 < d -> round_int rm (t * d) d = t.
Proof.
  intros Hd. destruct rm; cbn [round_int].
  - apply Z.div_mul; lia.
  - symmetry. apply Z.div_unique with (r := d); lia.
Qed.

Lemma round_pos_exact (P : Z) (rm : rounding) (n d M j : Z) :
  0 < n -> 0 < d -> 0 <= j -> 0 < M < 10 ^ P ->
  n * 10 ^ j = M * d ->
  (round_pos P rm n d == n # Z.to_pos d)%Q.
Proof.
  intros Hn Hd Hj HM Hq. unfold round_pos.
  pose proof (scale_covers_digits P n d (dexp n d) M j Hn Hd Hj HM Hq
                (dexp_lower n d Hn Hd)) as Hk.
  set (k := P - 1 - dexp n d) in *.
  destruct (Z.leb_spec 0 k) as [_|]; [|lia].
  assert (E : n * 10 ^ k = (M * 10 ^ (k - j)) * d).
  { replace k with (j + (k - j)) at 1 by lia.
    rewrite pow10_split by lia. nia. }
  rewrite E, round_int_exact by assumption.
  unfold Qeq; cbn [Qnum Qden].
  rewrite !Z2Pos.id by (try apply pow10_pos; lia).
  lia.
Qed.

Lemma floor_round_pos (P : Z) (rm : rounding) (n d : Z) :
  0 < n -> 0 < d -> 1 <= P -> n < 10 ^ (P - 1) ->
  Qfloor (round_pos P rm n d) = n / d.
Proof.
  intros Hn Hd HP Hb. unfold round_pos.
  destruct (scale_exceeds_den P n d (dexp n d) Hn Hd Hb HP
              (dexp_lower n d Hn Hd)) as [Hk Hdk].
  set (k := P - 1 - dexp n d) in *.
  destruct (Z.leb_spec 0 k) as [_|]; [|lia].
  pose proof (pow10_pos k ltac:(lia)) as Pk.
  unfold Qfloor. rewrite Z2Pos.id by assumption.
  destruct rm; cbn [round_int].
  - rewrite Z.div_div by lia.
    apply Z.div_mul_cancel_r; lia.
  - rewrite Z.div_div by lia.
    symmetry.
    pose proof (Z.div_mod n d ltac:(lia)) as Ed.
    pose proof (Z.mod_pos_bound n d Hd) as Bd.
    apply Z.div_unique with (r := 2 * (n mod d) * 10 ^ k + d); nia.
Qed.

End Rounding.

Section RoundSig.
Variable c : config.

Lemma round_sig_proper (q q' : Q) : (q == q')%Q -> round_sig c q = round_sig c q'.
Proof. intros H. unfold round_sig. now rewrite (Qred_complete _ _ H). Qed.

Lemma round_sig_zero (q : Q) : (q == 0)%Q -> round_sig c q = 0%Q.
Proof. intros H. rewrite (round_sig_proper _ _ H). reflexivity. Qed.

Lemma round_sig_exact (q : Q) (M j : Z) :
  0 <= j -> 0 < M < 10 ^ precision c ->
  (q == M # Z.to_pos (10 ^ j))%Q ->
  (round_sig c q == q)%Q.
Proof.
  intros Hj HM Hq. unfold round_sig.
  pose proof (Qred_correct q) as Hr.
  set (r := Qred q) in *.
  assert (E : Qnum r * 10 ^ j = M * Zpos (Qden r)).
  { rewrite Hq in Hr. unfold Qeq in Hr; cbn [Qnum Qden] in Hr.
    rewrite Z2Pos.id in Hr by (apply pow10_pos; assumption). exact Hr. }
  pose proof (pow10_pos j Hj) as Pj.
  destruct r as [rn rd]; cbn [Qnum Qden] in *.
  destruct rn as [|p|p]; try nia.
  rewrite Qred_correct.
  rewrite (round_pos_exact _ _ (Zpos p) (Zpos rd) M j) by (assumption || lia).
  cbn [Z.to_pos]. exact Hr.
Qed.

Lemma Qred_parts (n : Z) (d : positive) :
  0 < n ->
  exists g rn rd,
    0 < g /\ 0 < rn /\ n = g * rn /\ Zpos d = g * Zpos rd
    /\ Qred (n # d) = rn # rd.
Proof.
  intros Hn. unfold Qred.
  pose proof (Z.ggcd_correct_divisors n (Zpos d)) as H.
  pose proof (Z.ggcd_gcd n (Zpos d)) as G.
  destruct (Z.ggcd n (Zpos d)) as [g [aa bb]]; cbn [fst snd] in *.
  destruct H as [H1 H2].
  pose proof (Z.gcd_nonneg n (Zpos d)) as Gp. rewrite <- G in Gp.
  assert (Hg : 0 < g).
  { destruct (Z.eq_dec g 0) as [Z0|]; [|lia]. rewrite Z0 in H1. lia. }
  assert (Hbb : 0 < bb) by nia.
  exists g, aa, (Z.to_pos bb).
  rewrite Z2Pos.id by assumption.
  repeat split; try assumption. nia.
Qed.

Lemma floor_round_sig (q : Q) (N D : Z) :
  0 < N -> 0 < D -> 1 <= precision c -> N < 10 ^ (precision c - 1) ->
  (q == N # Z.to_pos D)%Q ->
  Qfloor (round_sig c q) = N / D.
Proof.
  intros HN HD HP Hb Hq. unfold round_sig.
  rewrite (Qred_complete _ _ Hq).
  destruct (Qred_parts N (Z.to_pos D) HN) as [g [rn [rd [Hg [Hrn [E1 [E2 ->]]]]]]].
  rewrite Z2Pos.id in E2 by assumption.
  cbn [Qnum Qden].
  destruct rn as [|p|p]; try lia.
  rewrite (Qfloor_comp _ _ (Qred_correct _)).
  rewrite floor_round_pos by (try assumption; try lia; nia).
  rewrite E1, E2. symmetry. apply Z.div_mul_cancel_l; lia.
Qed.

End RoundSig.


(* --------------------------------------------------------------------- *)
(** ** The cpmm quote against its closed form *)
(* --------------------------------------------------------------------- *)

Import Cpmm.

Ltac qeq_arith :=
  unfold Qeq, Qdiv, Qminus, Qplus, Qopp, Qmult, Qinv, inject_Z;
  cbn [Qnum Qden]; rewrite ?Pos2Z.inj_mul; lia.

Section ClosedForm.
Variable c : config.
Variables rin rout bps dx : Z.
Hypothesis Hrin : 0 < rin.
Hypothesis Hrout : 0 < rout.
Hypothesis Hdx : 0 < dx.
Hypothesis Hbps : 0 <= bps < 10000.
Hypothesis Hnum : 10 * (dx * (10000 - bps) * rout) < 10 ^ precision c.
Hypothesis Hden : 10000 * rin + dx * (10000 - bps) < 10 ^ precision c.

Let P := precision c.

Lemma precision_at_least_5 : 5 <= P.
Proof.
  destruct (Z.ltb_spec P 0) as [Hneg|Hnn].
  - unfold P in Hneg. rewrite Z.pow_neg_r in Hden by assumption. nia.
  - assert (L : 10 ^ 4 < 10 ^ P) by (change (10 ^ 4) with 10000; fold P in Hden; nia).
    apply pow10_lt_inv in L; lia.
Qed.

Lemma pow_P_split : 10 ^ P = 10 * 10 ^ (P - 1).
Proof.
  pose proof precision_at_least_5.
  replace P with (Z.succ (P - 1)) at 1 by lia.
  apply Z.pow_succ_r. lia.
Qed.

Let feeRate := round_sig c (inject_Z bps / 10000)%Q.
Let oneMinusFee := minus c 1 feeRate.
Let inAfterFee := mul c (inject_Z dx) oneMinusFee.

Lemma feeRate_exact : (feeRate == bps # 10000)%Q.
Proof.
  assert (E : (inject_Z bps / 10000 == bps # 10000)%Q).
  { qeq_arith. }
  unfold feeRate.
  destruct (Z.eq_dec bps 0) as [Z0|NZ].
  - rewrite round_sig_zero; [subst; reflexivity|].
    rewrite E. subst. reflexivity.
  - rewrite (round_sig_exact c _ bps 4); [exact E|lia| |exact E].
    pose proof precision_at_least_5. fold P.
    assert (10 ^ 4 <= 10 ^ P) by (apply Z.pow_le_mono_r; lia).
    change (10 ^ 4) with 10000 in *. lia.
Qed.

Lemma oneMinusFee_exact : (oneMinusFee == (10000 - bps) # 10000)%Q.
Proof.
  assert (E : (1 - feeRate == (10000 - bps) # 10000)%Q).
  { rewrite feeRate_exact. qeq_arith. }
  unfold oneMinusFee, minus.
  rewrite (round_sig_exact c _ (10000 - bps) 4); [exact E|lia| |exact E].
  nia.
Qed.

Lemma inAfterFee_exact : (inAfterFee == (dx * (10000 - bps)) # 10000)%Q.
Proof.
  assert (E : (inject_Z dx * oneMinusFee == (dx * (10000 - bps)) # 10000)%Q).
  { rewrite oneMinusFee_exact. qeq_arith. }
  unfold inAfterFee, mul.
  rewrite (round_sig_exact c _ (dx * (10000 - bps)) 4); [exact E|lia| |exact E].
  nia.
Qed.

Lemma numerator_exact :
  (mul c inAfterFee (inject_Z rout) == (dx * (10000 - bps) * rout) # 10000)%Q.
Proof.
  assert (E : (inAfterFee * inject_Z rout
               == (dx * (10000 - bps) * rout) # 10000)%Q).
  { rewrite inAfterFee_exact. qeq_arith. }
  unfold mul.
  rewrite (round_sig_exact c _ (dx * (10000 - bps) * rout) 4);
    [exact E|lia| |exact E].
  nia.
Qed.

Lemma denominator_exact :
  (plus c (inject_Z rin) inAfterFee
   == (10000 * rin + dx * (10000 - bps)) # 10000)%Q.
Proof.
  assert (E : (inject_Z rin + inAfterFee
               == (10000 * rin + dx * (10000 - bps)) # 10000)%Q).
  { rewrite inAfterFee_exact. qeq_arith. }
  unfold plus.
  rewrite (round_sig_exact c _ (10000 * rin + dx * (10000 - bps)) 4);
    [exact E|lia| |exact E].
  nia.
Qed.

Lemma out_exact :
  option_map floor
    (div c (mul c inAfterFee (inject_Z rout)) (plus c (inject_Z rin) inAfterFee))
  = Some (closed_form rin rout bps dx).
Proof.
  set (N := dx * (10000 - bps) * rout).
  set (D := 10000 * rin + dx * (10000 - bps)).
  assert (HN : 0 < N) by (unfold N; nia).
  assert (HD : 0 < D) by (unfold D; nia).
  unfold div.
  destruct (Qeq_bool (plus c (inject_Z rin) inAfterFee) 0) eqn:Z0.
  - apply Qeq_bool_eq in Z0. rewrite denominator_exact in Z0.
    unfold Qeq in Z0; cbn [Qnum Qden] in Z0. fold D in Z0. lia.
  - cbn [option_map]. f_equal. unfold floor, closed_form. fold N D.
    apply floor_round_sig; try assumption.
    + pose proof precision_at_least_5. unfold P in *. lia.
    + pose proof pow_P_split. unfold P in *. fold N in Hnum. lia.
    + rewrite numerator_exact, denominator_exact. fold N D.
      unfold Qeq, Qdiv, Qmult, Qinv; cbn [Qnum Qden].
      destruct D as [|pd|pd] eqn:ED; try lia.
      cbn [Qnum Qden Z.to_pos]. rewrite Pos2Z.inj_mul. lia.
Qed.

Lemma closed_form_is_spec_dy :
  closed_form rin rout bps dx = spec_dy rin rout (bps # 10000) dx.
Proof.
  set (N := dx * (10000 - bps) * rout).
  set (D := 10000 * rin + dx * (10000 - bps)).
  assert (HD : 0 < D) by (unfold D; nia).
  unfold spec_dy, closed_form. fold N D.
  assert (E : (inject_Z dx * (1 - (bps # 10000)) * inject_Z rout
               / (inject_Z rin + inject_Z dx * (1 - (bps # 10000)))
               == N # Z.to_pos D)%Q).
  { assert (E1 : (inject_Z dx * (1 - (bps # 10000))
                  == (dx * (10000 - bps)) # 10000)%Q) by qeq_arith.
    rewrite E1.
    assert (E2 : (((dx * (10000 - bps)) # 10000) * inject_Z rout
                  == N # 10000)%Q) by (unfold N; qeq_arith).
    assert (E3 : (inject_Z rin + ((dx * (10000 - bps)) # 10000)
                  == D # 10000)%Q) by (unfold D; qeq_arith).
    rewrite E2, E3.
    unfold Qeq, Qdiv, Qmult, Qinv; cbn [Qnum Qden].
    destruct D as [|pd|pd] eqn:ED; try lia.
    cbn [Qnum Qden Z.to_pos]. rewrite Pos2Z.inj_mul. lia. }
  rewrite (Qfloor_comp _ _ E).
  unfold Qfloor. rewrite Z2Pos.id by assumption. reflexivity.
Qed.

Lemma closed_form_bounds : 0 <= closed_form rin rout bps dx < rout.
Proof.
  unfold closed_form. split.
  - apply Z.div_pos; nia.
  - apply Z.div_lt_upper_bound; nia.
Qed.

End ClosedForm.

Section CpmmQuote.

Lemma gt0_inject_Z (z : Z) : 0 < z -> gt0 (inject_Z z) = true.
Proof.
  intros H. unfold gt0, gt.
  destruct (Qle_bool (inject_Z z) 0) eqn:L; [|reflexivity].
  apply Qle_bool_iff in L. unfold Qle in L; cbn in L. lia.
Qed.

(** C4, as stated, fails: decimal.js rounds every product, sum and
    quotient to [precision] significant digits.  Under the library
    defaults (20 digits, half-up) a pool with reserves 50449577684455 and
    151705464548268, fee 25 bps and input 119208519600 is quoted
    356731494902 where the closed form gives 356731494903; with x = y = 1
    and input 10^21 the quote is 1, which is not below y; and the
    40-digit round-down configuration of utils/decimals has
    counterexamples of its own. *)
Lemma C4_quote_differs_from_closed_form :
  quoted_out (quoteExactIn default_config
                (constructor (poolData (int 50449577684455)
                                       (int 151705464548268) (int 25)
                                       (Some 9) (Some 6)))
                (int 119208519600) true 50) = Some 356731494902
  /\ spec_dy 50449577684455 151705464548268 (25 # 10000) 119208519600
     = 356731494903
  /\ quoted_out (quoteExactIn default_config
                   (constructor (poolData (int 1) (int 1) (int 25)
                                          (Some 9) (Some 6)))
                   (int (10 ^ 21)) true 50) = Some 1
  /\ quoted_out (quoteExactIn repo_config
                   (constructor
                      (poolData (int 225094201164684)
                         (int 213459744692586093123602176813112052474)
                         (int 25) (Some 9) (Some 6)))
                   (int 303705208800) true 50)
     = Some 286901431852348174933844923996866005
  /\ spec_dy 225094201164684 213459744692586093123602176813112052474
             (25 # 10000) 303705208800
     = 286901431852348174933844923996866006
  /\ ~ (forall c x y bps dx,
          0 < x -> 0 < y -> 0 < dx -> 0 <= bps < 10000 ->
          quoted_out (quoteExactIn c
                        (constructor (poolData (int x) (int y) (int bps)
                                               (Some 9) (Some 6)))
                        (int dx) true 50)
          = Some (spec_dy x y (bps # 10000) dx)).
Proof.
  split; [vm_compute; reflexivity|]. split; [vm_compute; reflexivity|].
  split; [vm_compute; reflexivity|]. split; [vm_compute; reflexivity|].
  split; [vm_compute; reflexivity|].
  intros H.
  specialize (H default_config 50449577684455 151705464548268 25 119208519600
                ltac:(lia) ltac:(lia) ltac:(lia) ltac:(lia)).
  vm_compute in H. discriminate H.
Qed.

(** C4, amended.  For integer reserves [rin] (input side) and [rout]
    (output side), an integer fee of [bps] basis points in [0, 10000) and
    an integer input [dx], all positive, such that
    [10 * dx * (10000 - bps) * rout] and [10000 * rin + dx * (10000 - bps)]
    are below [10 ^ precision], the quote succeeds in either direction
    and its output is exactly
    [dy = floor(dx(1-f)rout / (rin + dx(1-f)))] with [f = bps/10000],
    computed over the rationals, and [0 <= dy < rout].  The worked
    example of the specification (1_000_000_000000, 500_000_000000,
    f = 0.003, dx = 1_000_000000) is quoted 498003490, the exact value of
    the closed form, under the 20-digit default and under the 40-digit
    configuration alike. *)
Theorem C4_quote_is_closed_form_within_precision
        (c : config) (dir : bool) (rin rout bps dx xDec yDec : Z) (slip : Q) :
  0 < rin -> 0 < rout -> 0 < dx -> 0 <= bps < 10000 ->
  10 * (dx * (10000 - bps) * rout) < 10 ^ precision c ->
  10000 * rin + dx * (10000 - bps) < 10 ^ precision c ->
  quoted_out (quoteExactIn c
                (constructor (sided_pool dir rin rout bps xDec yDec))
                (int dx) dir slip)
  = Some (spec_dy rin rout (bps # 10000) dx)
  /\ spec_dy rin rout (bps # 10000) dx = closed_form rin rout bps dx
  /\ 0 <= spec_dy rin rout (bps # 10000) dx < rout
  /\ quoted_out (quoteExactIn default_config
                   (constructor (poolData (int 1000000000000)
                                          (int 500000000000) (int 30)
                                          (Some 6) (Some 6)))
                   (int 1000000000) true 50) = Some 498003490
  /\ quoted_out (quoteExactIn repo_config
                   (constructor (poolData (int 1000000000000)
                                          (int 500000000000) (int 30)
                                          (Some 6) (Some 6)))
                   (int 1000000000) true 50) = Some 498003490
  /\ spec_dy 1000000000000 500000000000 (3 # 1000) 1000000000 = 498003490
  /\ 997000000 * 500000000000 / (1000000000000 + 997000000) = 498003490.
Proof.
  intros Hrin Hrout Hdx Hbps Hnum Hden.
  assert (Hspec : closed_form rin rout bps dx
                  = spec_dy rin rout (bps # 10000) dx)
    by (eapply closed_form_is_spec_dy; eassumption).
  rewrite <- Hspec.
  split; [|split; [reflexivity|split;
                   [|repeat split; vm_compute; reflexivity]]].
  - pose proof (out_exact c rin rout bps dx Hrin Hrout Hdx Hbps Hnum Hden)
      as Hout.
    pose proof (gt0_inject_Z rin Hrin) as Gin.
    pose proof (gt0_inject_Z rout Hrout) as Gout.
    pose proof (gt0_inject_Z dx Hdx) as Gdx.
    destruct dir; unfold sided_pool, quoteExactIn, constructor, poolData, int;
      cbn [tokenXDecimals tokenYDecimals a_feeBps xReserveRaw yReserveRaw
           feeBps fee_bps xReserve baseReserve reserve_x yReserve
           quoteReserve reserve_y baseDecimals decimalsA decA quoteDecimals
           decimalsB decB raw rawq nullish nullish_or Cpmm.is_some
           andb ensure bind toDec newDecimal];
      rewrite Gin, Gout, Gdx;
      cbn [andb ensure bind];
      unfold normalizeQuote;
      cbn [tokenXDecimals tokenYDecimals Cpmm.is_some andb ensure bind
           quoted_out outAmountRaw];
      exact Hout.
  - eapply closed_form_bounds; eassumption.
Qed.

(** C4 amended, at a pool within the 20-digit precision: reserves
    2_000_000 and 1_000_000, 25 bps, input 1_000, in both directions. *)
Lemma C4_within_precision_witness :
  (quoted_out (quoteExactIn default_config
                 (constructor (poolData (int 2000000) (int 1000000) (int 25)
                                        (Some 6) (Some 6)))
                 (int 1000) true 50) = Some 498
   /\ 0 <= 498 < 1000000)
  /\ quoted_out (quoteExactIn default_config
                   (constructor (poolData (int 1000000) (int 2000000) (int 25)
                                          (Some 6) (Some 6)))
                   (int 1000) false 50) = Some 498.
Proof.
  split.
  - destruct (C4_quote_is_closed_form_within_precision default_config true
                2000000 1000000 25 1000 6 6 50)
      as [H1 [_ [H2 _]]]; try (cbn; lia).
    split; [exact H1|exact H2].
  - destruct (C4_quote_is_closed_form_within_precision default_config false
                2000000 1000000 25 1000 6 6 50)
      as [H1 _]; try (cbn; lia).
    exact H1.
Defined.

End CpmmQuote.

(* --------------------------------------------------------------------- *)
(** ** The rate limiter *)
(* --------------------------------------------------------------------- *)

Section LimiterFacts.
Import Limiter.

(** The inner clamp at 10 never decides: from the eighth hit on the cap
    of one minute is reached. *)
Lemma backoff_ms_unclamped (n : Z) :
  0 <= n -> backoff_ms n = Z.min 60000 (250 * 2 ^ n).
Proof.
  intros Hn. unfold backoff_ms.
  destruct (Z.le_gt_cases n 10) as [Hs|Hb].
  - rewrite (Z.min_r 10 n) by lia. reflexivity.
  - rewrite (Z.min_l 10 n) by lia.
    assert (L : 2 ^ 10 <= 2 ^ n) by (apply Z.pow_le_mono_r; lia).
    change (2 ^ 10) with 1024 in *. lia.
Qed.

Lemma hits_counter (times : list Z) : forall st,
  consecutive429s (hits times st)
  = consecutive429s st + Z.of_nat (List.length times).
Proof.
  induction times as [|t rest IH]; intros st; cbn [hits List.length].
  - lia.
  - rewrite IH. cbn [handle429 consecutive429s]. lia.
Qed.

Lemma hits_last (times : list Z) (now : Z) : forall st,
  backoffUntil (hits (times ++ [now]) st)
  = now + backoff_ms (consecutive429s st + Z.of_nat (List.length times) + 1).
Proof.
  induction times as [|t rest IH]; intros st; cbn [hits List.length app].
  - cbn. f_equal. f_equal. lia.
  - rewrite IH. cbn [handle429 consecutive429s]. f_equal. f_equal. lia.
Qed.

(** After a success, a run of [k] rate-limit responses (the last one at
    time [now]) leaves the counter at [k] and the backoff at
    [now + min(60000, 250 * 2^k)]: between half a second and a minute,
    and a full minute from the eighth response on. *)
Theorem backoff_after_consecutive_hits
        (earlier : list Z) (now : Z) (st : State) :
  let k := Z.of_nat (List.length earlier) + 1 in
  let st' := hits (earlier ++ [now]) (handleSuccess st) in
  consecutive429s st' = k
  /\ backoffUntil st' = now + Z.min 60000 (250 * 2 ^ k)
  /\ now + 500 <= backoffUntil st' <= now + 60000
  /\ (if 8 <=? k then backoffUntil st' = now + 60000
      else backoffUntil st' = now + 250 * 2 ^ k)
  /\ consecutive429s (handleSuccess st') = 0.
Proof.
  cbv zeta.
  set (k := Z.of_nat (List.length earlier) + 1).
  assert (Hk : 1 <= k) by (unfold k; lia).
  assert (E : backoffUntil (hits (earlier ++ [now]) (handleSuccess st))
              = now + Z.min 60000 (250 * 2 ^ k)).
  { rewrite hits_last. cbn [handleSuccess consecutive429s].
    rewrite backoff_ms_unclamped by lia. reflexivity. }
  assert (L1 : 2 ^ 1 <= 2 ^ k) by (apply Z.pow_le_mono_r; lia).
  change (2 ^ 1) with 2 in L1.
  split; [|split; [exact E|split; [|split; [|reflexivity]]]].
  - rewrite hits_counter, length_app. cbn. unfold k. lia.
  - rewrite E. lia.
  - rewrite E. destruct (Z.leb_spec 8 k) as [H8|H8].
    + assert (L8 : 2 ^ 8 <= 2 ^ k) by (apply Z.pow_le_mono_r; lia).
      change (2 ^ 8) with 256 in L8. lia.
    + assert (L7 : 2 ^ k <= 2 ^ 7) by (apply Z.pow_le_mono_r; lia).
      change (2 ^ 7) with 128 in L7. lia.
Qed.

(** [waitForRateLimit] asks for what is left of the backoff plus what
    is missing of [minDelay] since the last call.  As timers do not fire
    early, the call it lets through is stamped at least [minDelay]
    after the previous one and not before the end of the backoff; the
    backoff and the counter are left alone. *)
Theorem wait_spaces_calls (now later : Z) (st : State) :
  now + wait_ms now st <= later ->
  let st' := waitForRateLimit now later st in
  wait_ms now st = Z.max 0 (backoffUntil st - now)
                   + Z.max 0 (minDelay st - (now - lastCall st))
  /\ lastCall st + minDelay st <= lastCall st'
  /\ backoffUntil st <= lastCall st'
  /\ now <= lastCall st'
  /\ backoffUntil st' = backoffUntil st
  /\ consecutive429s st' = consecutive429s st.
Proof.
  cbv zeta. unfold waitForRateLimit, wait_ms;
    cbn [lastCall backoffUntil consecutive429s].
  destruct (Z.ltb_spec now (backoffUntil st));
    destruct (Z.ltb_spec (now - lastCall st) (minDelay st));
    repeat split; lia.
Qed.

(** A call 20 ms after the last one, during a backoff that ends 480 ms
    later, waits 510 ms. *)
Lemma wait_spaces_calls_witness :
  wait_ms 1020 (mkState 1000 50 1500 1) = 510
  /\ lastCall (mkState 1000 50 1500 1) + 50
     <= lastCall (waitForRateLimit 1020 1530 (mkState 1000 50 1500 1)).
Proof.
  destruct (wait_spaces_calls 1020 1530 (mkState 1000 50 1500 1))
    as [H1 [H2 _]]; [vm_compute; discriminate|].
  split; [reflexivity|exact H2].
Defined.

End LimiterFacts.

(* --------------------------------------------------------------------- *)
(** ** Token account decoding *)
(* --------------------------------------------------------------------- *)

Section SplTokenFacts.
Import SplToken.

Lemma byte_value_range (b : Byte.byte) : 0 <= Z.of_N (Byte.to_N b) < 256.
Proof. pose proof (Byte.to_N_bounded b). lia. Qed.

Lemma le_value_range (bs : list Byte.byte) :
  0 <= le_value bs < 256 ^ Z.of_nat (List.length bs).
Proof.
  induction bs as [|b rest IH]; cbn [le_value List.length].
  - cbn. lia.
  - pose proof (byte_value_range b).
    rewrite Nat2Z.inj_succ, Z.pow_succ_r by lia. lia.
Qed.

Lemma le_bytes_length (n : nat) : forall z, List.length (le_bytes n z) = n.
Proof.
  induction n as [|k IH]; intros z; cbn [le_bytes]; [reflexivity|].
  destruct (Byte.of_N (Z.to_N (z mod 256))) as [b|] eqn:E.
  - cbn. now rewrite IH.
  - exfalso. apply Byte.of_N_None_iff in E.
    pose proof (Z.mod_pos_bound z 256 ltac:(lia)). lia.
Qed.

Lemma le_value_le_bytes (n : nat) : forall z,
  le_value (le_bytes n z) = z mod 256 ^ Z.of_nat n.
Proof.
  induction n as [|k IH]; intros z; cbn [le_bytes].
  - cbn. now rewrite Z.mod_1_r.
  - destruct (Byte.of_N (Z.to_N (z mod 256))) as [b|] eqn:E.
    + apply Byte.to_of_N in E. cbn [le_value]. rewrite E, IH.
      pose proof (Z.mod_pos_bound z 256 ltac:(lia)).
      rewrite Z2N.id by lia.
      rewrite Nat2Z.inj_succ, Z.pow_succ_r by lia.
      rewrite Z.rem_mul_r by (try apply Z.pow_nonzero; lia).
      reflexivity.
    + exfalso. apply Byte.of_N_None_iff in E.
      pose proof (Z.mod_pos_bound z 256 ltac:(lia)). lia.
Qed.

Lemma read_at_64 (pre mid post : list Byte.byte) :
  List.length pre = 64%nat -> List.length mid = 8%nat ->
  readBigUInt64LE (pre ++ mid ++ post) 64 = le_value mid.
Proof.
  intros Hp Hm. unfold readBigUInt64LE.
  rewrite <- Hp, skipn_app, skipn_all, Nat.sub_diag. cbn [skipn app].
  rewrite <- Hm, firstn_app, firstn_all, Nat.sub_diag. cbn [firstn].
  now rewrite app_nil_r.
Qed.

(** The amount a token account holds is read back exactly: whatever the
    first 64 bytes and whatever follows, an amount below 2^64 stored
    little-endian at offset 64 is what [parseSplTokenAmount] returns. *)
Theorem parse_reads_back_stored_amount
        (pre post : list Byte.byte) (amount : Z) :
  List.length pre = 64%nat ->
  0 <= amount < 2 ^ 64 ->
  parseSplTokenAmount (Some (pre ++ le_bytes 8 amount ++ post)%list)
  = Some amount.
Proof.
  intros Hp Ha. unfold parseSplTokenAmount.
  rewrite !length_app, le_bytes_length, Hp.
  destruct (Nat.ltb_spec (64 + (8 + List.length post)) 72) as [L|_]; [lia|].
  rewrite read_at_64 by (try apply le_bytes_length; assumption).
  rewrite le_value_le_bytes.
  change (256 ^ Z.of_nat 8) with (2 ^ 64).
  now rewrite Z.mod_small.
Qed.

Lemma parse_reads_back_witness :
  parseSplTokenAmount
    (Some (repeat Byte.x00 64 ++ le_bytes 8 1500000000 ++ [Byte.x01])%list)
  = Some 1500000000.
Proof.
  apply (parse_reads_back_stored_amount (repeat Byte.x00 64) [Byte.x01]
                                        1500000000).
  - reflexivity.
  - vm_compute. split; [discriminate|reflexivity].
Defined.

(** [parseSplTokenAmount] returns null exactly on a missing value or a
    buffer shorter than 72 bytes; anything it returns is an unsigned
    64-bit value. *)
Theorem parse_is_null_or_u64 (data : option (list Byte.byte)) :
  match parseSplTokenAmount data with
  | Some amount =>
      0 <= amount < 2 ^ 64
      /\ exists d, data = Some d /\ (72 <= List.length d)%nat
  | None =>
      data = None \/ exists d, data = Some d /\ (List.length d < 72)%nat
  end.
Proof.
  destruct data as [d|]; cbn [parseSplTokenAmount]; [|left; reflexivity].
  destruct (Nat.ltb_spec (List.length d) 72) as [L|L].
  - right. exists d. split; [reflexivity|assumption].
  - split; [|exists d; split; [reflexivity|assumption]].
    unfold readBigUInt64LE.
    pose proof (le_value_range (firstn 8 (skipn 64 d))) as R.
    rewrite length_firstn, length_skipn in R.
    replace (Nat.min 8 (List.length d - 64)) with 8%nat in R by lia.
    exact R.
Qed.

End SplTokenFacts.

(* --------------------------------------------------------------------- *)
(** ** Pool validation *)
(* --------------------------------------------------------------------- *)

Section ValidateFacts.
Import Validate.

Lemma validate_loop_spec (pools : list Pool) : forall valid issues,
  fst (validate_loop pools valid issues) = (valid ++ filter acceptable pools)%list
  /\ (List.length (filter acceptable pools)
      + total (snd (validate_loop pools valid issues))
      = total issues + List.length pools)%nat.
Proof.
  induction pools as [|pool rest IH]; intros valid issues;
    cbn [validate_loop filter List.length].
  - cbn [fst snd]. rewrite app_nil_r. split; [reflexivity|lia].
  - remember (acceptable pool) as acc eqn:Hacc. unfold acceptable in Hacc.
    cbv zeta.
    destruct (truthy_ostr (poolAddress pool)); cbn [negb andb orb] in *.
    2:{ subst acc. edestruct IH as [E1 E2]. split; [exact E1|].
        rewrite E2. unfold total; cbn. lia. }
    destruct (truthy_ostr (baseMint pool)); cbn [negb andb orb] in *.
    2:{ subst acc. edestruct IH as [E1 E2]. split; [exact E1|].
        rewrite E2. unfold total; cbn. lia. }
    destruct (truthy_ostr (quoteMint pool)); cbn [negb andb orb] in *.
    2:{ subst acc. edestruct IH as [E1 E2]. split; [exact E1|].
        rewrite E2. unfold total; cbn. lia. }
    destruct (is_some (baseDecimals pool)); cbn [negb andb orb] in *.
    2:{ subst acc. edestruct IH as [E1 E2]. split; [exact E1|].
        rewrite E2. unfold total; cbn. lia. }
    destruct (is_some (quoteDecimals pool)); cbn [negb andb orb] in *.
    2:{ subst acc. edestruct IH as [E1 E2]. split; [exact E1|].
        rewrite E2. unfold total; cbn. lia. }
    destruct ((String.eqb _ "cpmm" || String.eqb _ "dlmm")
              && negb (truthy_flag (Hydrate.hasReserves (marked pool))));
      cbn [negb] in Hacc; subst acc.
    + edestruct IH as [E1 E2]. split; [exact E1|].
      rewrite E2. unfold total; cbn. lia.
    + destruct (IH (valid ++ [pool])%list issues) as [E1 E2].
      split.
      * rewrite E1, <- app_assoc. reflexivity.
      * cbn [List.length]. lia.
Qed.

Lemma filter_idem {A} (f : A -> bool) (l : list A) :
  filter f (filter f l) = filter f l.
Proof.
  induction l as [|a l IH]; [reflexivity|]. cbn [filter].
  destruct (f a) eqn:E; [|exact IH]. cbn [filter]. rewrite E, IH. reflexivity.
Qed.

(** [validatePools] keeps, in their order, exactly the pools that pass
    its four checks, counts every other pool under one issue, and finds
    nothing more to drop in its own output. *)
Theorem validate_keeps_acceptable_and_accounts_for_rest (pools : list Pool) :
  fst (validatePools pools) = filter acceptable pools
  /\ (List.length (fst (validatePools pools))
      + total (snd (validatePools pools)) = List.length pools)%nat
  /\ validatePools (fst (validatePools pools))
     = (fst (validatePools pools), no_issues).
Proof.
  unfold validatePools.
  destruct (validate_loop_spec pools [] no_issues) as [E1 E2].
  cbn [app] in E1. split; [exact E1|]. split.
  - rewrite E1. exact E2.
  - rewrite E1.
    destruct (validate_loop_spec (filter acceptable pools) [] no_issues)
      as [F1 F2].
    cbn [app] in F1. rewrite filter_idem in F1, F2.
    destruct (validate_loop (filter acceptable pools) [] no_issues)
      as [v i]; cbn [fst snd] in *.
    subst v. f_equal.
    destruct i as [a b c d]; unfold total, no_issues in *; cbn in F2.
    f_equal; lia.
Qed.

Lemma acceptable_mark (pool : Pool) :
  acceptable (mark pool)
  = identified pool && (negb (needs_reserves pool) || reserves_positive pool).
Proof.
  unfold acceptable, identified, needs_reserves, reserves_positive, mark;
    cbn [poolAddress baseMint quoteMint baseDecimals quoteDecimals marked].
  unfold Hydrate.markPool; cbn [Hydrate.type Hydrate.hasReserves truthy_flag].
  f_equal.
  destruct (String.eqb _ "cpmm" || String.eqb _ "dlmm"); cbn [andb negb orb];
    [|reflexivity].
  destruct (gt0 _ && gt0 _); reflexivity.
Qed.

(** Validation after the final pass of the enricher: a pool survives
    exactly when it has its address, mints and decimals and, if its type
    is cpmm or dlmm, both reserves greater than zero; pools of any other
    type survive without reserves. *)
Theorem validation_after_marking (pools : list Pool) :
  fst (validatePools (map mark pools))
  = map mark
        (filter (fun p => identified p
                          && (negb (needs_reserves p) || reserves_positive p))
                pools).
Proof.
  unfold validatePools.
  destruct (validate_loop_spec (map mark pools) [] no_issues) as [E _].
  rewrite E. clear E. cbn [app].
  induction pools as [|p rest IH]; [reflexivity|].
  cbn [map filter]. rewrite acceptable_mark.
  destruct (identified p && (negb (needs_reserves p) || reserves_positive p));
    cbn [map]; now rewrite IH.
Qed.

End ValidateFacts.

(* --------------------------------------------------------------------- *)
(** ** Decimals helpers and unit conversion *)
(* --------------------------------------------------------------------- *)

Section UtilsFacts.
Import Utils.

Lemma same_mint_refl (m : option string) : same_mint m m = true.
Proof. destruct m; cbn; [apply String.eqb_refl|reflexivity]. Qed.

(** On a pool whose two mints differ, [getSwapDecimals] reads a missing
    decimals value as 0 (the built-in 9 and 6 of SOL and USDC are never
    used); the quote side as input exchanges the two values and clears
    [swapForY]; a mint the pool does not hold is treated like the base
    mint. *)
Theorem swap_decimals_of_distinct_mints
        (pool : Pool) (other : option string) :
  same_mint (quoteMint pool) (baseMint pool) = false ->
  same_mint other (baseMint pool) = false ->
  same_mint other (quoteMint pool) = false ->
  let b := nullish_or (baseDecimals pool) 0 in
  let q := nullish_or (quoteDecimals pool) 0 in
  getSwapDecimals pool (baseMint pool) = mkSwapDecimals b q true
  /\ getSwapDecimals pool (quoteMint pool) = mkSwapDecimals q b false
  /\ getSwapDecimals pool other = mkSwapDecimals b q true.
Proof.
  intros Hd Ho1 Ho2. cbv zeta. unfold getSwapDecimals, getTokenDecimals.
  rewrite !same_mint_refl, Hd, Ho1, Ho2.
  destruct (baseDecimals pool), (quoteDecimals pool); cbn [nullish_or];
    repeat split; reflexivity.
Qed.

Lemma swap_decimals_witness :
  getSwapDecimals (mkPool (Some SOL) (Some USDC) (Some 9) None) (Some USDC)
  = mkSwapDecimals 0 9 false.
Proof.
  destruct (swap_decimals_of_distinct_mints
              (mkPool (Some SOL) (Some USDC) (Some 9) None) (Some "other")
              eq_refl eq_refl eq_refl) as [_ [H _]].
  exact H.
Defined.

Lemma pow10_exact (c : config) (d : nat) :
  Z.of_nat d < precision c ->
  (pow10 c d == inject_Z (10 ^ Z.of_nat d))%Q.
Proof.
  intros Hd. unfold pow10.
  apply (round_sig_exact c _ (10 ^ Z.of_nat d) 0); [lia| |reflexivity].
  split; [apply pow10_pos; lia|].
  apply Z.pow_lt_mono_r; lia.
Qed.

(** Converting an atomic amount to human units and back gives the amount
    again, as long as the amount has no more digits than the working
    precision and the decimals are fewer than the precision. *)
Theorem atomic_human_round_trip (c : config) (atomic : Z) (decimals : nat) :
  0 <= atomic < 10 ^ precision c ->
  Z.of_nat decimals < precision c ->
  option_map (fun human => humanToAtomic c human decimals)
             (atomicToHuman c (inject_Z atomic) decimals)
  = Some atomic.
Proof.
  intros Ha Hd.
  pose proof (pow10_exact c decimals Hd) as Hp.
  pose proof (pow10_pos (Z.of_nat decimals) ltac:(lia)) as Pd.
  unfold atomicToHuman, div.
  destruct (Qeq_bool (pow10 c decimals) 0) eqn:Z0.
  { apply Qeq_bool_eq in Z0. rewrite Hp in Z0.
    unfold Qeq in Z0; cbn [Qnum Qden inject_Z] in Z0. lia. }
  cbn [option_map]. f_equal. unfold humanToAtomic, floor, mul.
  destruct (Z.eq_dec atomic 0) as [->|NZ].
  - rewrite (round_sig_zero c (inject_Z 0 / pow10 c decimals));
      [|rewrite Hp; unfold Qeq, Qdiv, Qmult; cbn [Qnum Qden inject_Z]; lia].
    rewrite (round_sig_zero c (0 * pow10 c decimals));
      [reflexivity|]. ring.
  - assert (E1 : (inject_Z atomic / pow10 c decimals
                  == atomic # Z.to_pos (10 ^ Z.of_nat decimals))%Q).
    { rewrite Hp. unfold Qeq, Qdiv, Qmult, Qinv; cbn [Qnum Qden inject_Z].
      destruct (10 ^ Z.of_nat decimals) as [|p|p] eqn:E; try lia.
      cbn [Qnum Qden Z.to_pos]. lia. }
    assert (R1 : (round_sig c (inject_Z atomic / pow10 c decimals)
                  == atomic # Z.to_pos (10 ^ Z.of_nat decimals))%Q).
    { rewrite (round_sig_exact c _ atomic (Z.of_nat decimals));
        [exact E1|lia|lia|exact E1]. }
    assert (E2 : (round_sig c (inject_Z atomic / pow10 c decimals)
                  * pow10 c decimals == inject_Z atomic)%Q).
    { rewrite R1, Hp. unfold Qeq, Qmult; cbn [Qnum Qden inject_Z].
      rewrite Pos.mul_1_r, Z2Pos.id by assumption. lia. }
    assert (R2 : (round_sig c (round_sig c (inject_Z atomic / pow10 c decimals)
                               * pow10 c decimals) == inject_Z atomic)%Q).
    { rewrite (round_sig_exact c _ atomic 0); [exact E2|lia|lia|].
      rewrite E2. reflexivity. }
    rewrite (Qfloor_comp _ _ R2). apply Qfloor_Z.
Qed.

Lemma atomic_human_round_trip_witness :
  option_map (fun human => humanToAtomic default_config human 9)
             (atomicToHuman default_config (inject_Z 1500000000) 9)
  = Some 1500000000.
Proof.
  apply (atomic_human_round_trip default_config 1500000000 9);
    repeat split; vm_compute; try reflexivity; discriminate.
Defined.

(** Past the precision the round trip loses the low digits. *)
Example round_trip_loses_digits_past_precision :
  option_map (fun human => humanToAtomic default_config human 6)
             (atomicToHuman default_config
                            (inject_Z 100000000000000000001) 6)
  = Some 100000000000000000000.
Proof. vm_compute. reflexivity. Qed.

(** The cpmm adapter quotes only where [hasReserves] says yes: if a quote
    is returned for pool data, [hasReserves] on the reserves the adapter
    picked returns true. *)
Theorem quoted_pool_has_reserves
        (c : config) (pd : PoolData) (amt : option jsnum) (dir : bool)
        (slip : Q) :
  isOk (quoteExactIn c (constructor pd) amt dir slip) = true ->
  hasReserves (Some (mkReservePool (xReserveRaw (constructor pd))
                                   (yReserveRaw (constructor pd))))
  = Ok true.
Proof.
  intros H.
  destruct (positive_reserve (xReserveRaw (constructor pd))
            && positive_reserve (yReserveRaw (constructor pd))) eqn:E.
  - unfold hasReserves; cbn [xReserve yReserve].
    destruct (xReserveRaw (constructor pd)) as [[x|]|];
      destruct (yReserveRaw (constructor pd)) as [[y|]|];
      cbn [positive_reserve andb] in E; try discriminate;
      try (rewrite andb_false_r in E; discriminate).
    cbn [newDecimal bind]. rewrite E. reflexivity.
  - rewrite (quote_needs_positive_reserves c _ amt dir slip E) in H.
    discriminate.
Qed.

Lemma quoted_pool_has_reserves_witness :
  hasReserves (Some (mkReservePool (int 1000) (int 1000))) = Ok true.
Proof.
  apply (quoted_pool_has_reserves default_config
           (poolData (int 1000) (int 1000) None (Some 6) (Some 6))
           (int 100) true 50).
  vm_compute. reflexivity.
Defined.

End UtilsFacts.

(* --------------------------------------------------------------------- *)
(** ** DEX names *)
(* --------------------------------------------------------------------- *)

Section DexFacts.
Import Classifier.

Lemma lower_ascii_idem (a : ascii) : lower_ascii (lower_ascii a) = lower_ascii a.
Proof.
  destruct a as [[] [] [] [] [] [] [] []]; reflexivity.
Qed.

Lemma toLowerCase_idem (s : string) : toLowerCase (toLowerCase s) = toLowerCase s.
Proof.
  induction s as [|a s IH]; [reflexivity|].
  cbn [toLowerCase]. now rewrite lower_ascii_idem, IH.
Qed.

(** [normalizeDex] is a normal form: a record that carries the name it
    returned gets that name again. *)
Theorem normalizeDex_is_idempotent (p : option Pool) (q : Pool) :
  normalizeDex (Some (with_dex (Some (normalizeDex p)) q)) = normalizeDex p.
Proof.
  unfold normalizeDex at 1. unfold dex_text, with_dex, opt;
    cbn [dex nullish nullish_or].
  unfold normalizeDex.
  set (d := dex_text p).
  assert (Hd : toLowerCase d = d)
    by (unfold d, dex_text; apply toLowerCase_idem).
  destruct (truthy_str d) eqn:T; cbn [negb]; [|reflexivity].
  destruct (includes d "meteora") eqn:M; [reflexivity|].
  destruct (includes d "orca") eqn:O; [reflexivity|].
  destruct (includes d "raydium") eqn:R; [reflexivity|].
  rewrite Hd, T, M, O, R. reflexivity.
Qed.

End DexFacts.

(* --------------------------------------------------------------------- *)
(** ** Route executor and instruction builder *)
(* --------------------------------------------------------------------- *)

Section ExecutorFacts.
Import Flash.
Variable E : Env.

(** [executeRoute] returns a signature exactly when it has a
    connection, a payer and at least one leg, every leg has both
    amounts and builds, and the cluster accepts the transaction; what
    it sends is the compute-budget instructions followed by the legs'
    instructions in leg order, each built from the leg's own amounts. *)
Theorem executeRoute_sends_budget_then_legs
        (connection : bool) (payer : option Keypair) (routeLegs : list Hop)
        (computeBudget : option ComputeBudget) (opts_connection : option bool)
        (sig : string) :
  executeRoute E connection payer routeLegs computeBudget opts_connection
  = Ok sig
  <->
  connection = true /\ routeLegs <> []
  /\ exists kp ixss,
       payer = Some kp
       /\ Forall2 (fun hop ixs =>
                     is_some (amountInAtomic hop) = true
                     /\ is_some (minOutAtomic hop) = true
                     /\ buildSwapIxForPool E hop (publicKey kp)
                          (nullish_or opts_connection connection) = Ok ixs
                     /\ built_from_own_amounts E (publicKey kp) hop ixs)
                  routeLegs ixss
       /\ send E (addComputeBudgetIxs E computeBudget ++ List.concat ixss)%list
          = Ok sig.
Proof.
  unfold executeRoute. split.
  - intros H.
    destruct connection; [|discriminate]. cbn [negb] in H.
    destruct payer as [kp|]; [|discriminate].
    destruct routeLegs as [|h0 rest] eqn:EL; [discriminate|].
    rewrite <- EL in *.
    apply bind_inv in H; destruct H as [ixs [HL HS]].
    apply hop_loop_ok in HL. destruct HL as [ixss [F ->]].
    split; [reflexivity|]. split; [rewrite EL; discriminate|].
    exists kp, ixss. split; [reflexivity|]. split; [|exact HS].
    eapply Forall2_impl; [|exact F].
    intros hop ixs [Ha [Hm Hb]]. repeat split; try assumption.
    eapply builder_uses_own_amounts; eassumption.
  - intros [-> [NE [kp [ixss [-> [F HS]]]]]]. cbn [negb].
    destruct routeLegs as [|h0 rest] eqn:EL; [contradiction|].
    rewrite <- EL in *.
    assert (HL : hop_loop E "executeRoute: " (publicKey kp)
                   (nullish_or opts_connection true) 0 routeLegs
                   (addComputeBudgetIxs E computeBudget)
                 = Ok (addComputeBudgetIxs E computeBudget
                       ++ List.concat ixss)%list).
    { apply hop_loop_ok. exists ixss. split; [|reflexivity].
      eapply Forall2_impl; [|exact F].
      intros hop ixs [Ha [Hm [Hb _]]]. auto. }
    rewrite HL. cbn [bind]. exact HS.
Qed.

(** The bin arrays of a hop are taken from the first of
    [binArraysPubkey], [binArrays], [quote.binArrays] that is present,
    even when it is empty: a hop whose first present list is empty, or
    that has none, is refused, whatever the later lists hold. *)
Theorem hop_without_bin_arrays_is_refused
        (hop : Hop) (payer : string) (connection : bool) :
  or_arr (binArraysPubkey hop) (or_arr (binArrays hop) (quote_binArrays hop))
  = None
  \/ or_arr (binArraysPubkey hop)
            (or_arr (binArrays hop) (quote_binArrays hop)) = Some [] ->
  isOk (buildSwapIxForPool E hop payer connection) = false.
Proof.
  intros Hb.
  destruct (buildSwapIxForPool E hop payer connection) as [ixs|e] eqn:B;
    [exfalso|reflexivity].
  unfold buildSwapIxForPool in B.
  apply ensure_inv in B; destruct B as [_ B].
  destruct (includes _ "METEORA" || includes _ "DLMM"); [|discriminate].
  unfold buildMeteoraDlmmSwapIxs in B.
  do 6 (apply ensure_inv in B; destruct B as [_ B]).
  apply bind_inv in B; destruct B as [pool [_ B]].
  apply bind_inv in B; destruct B as [inst [_ B]].
  apply ensure_inv in B; destruct B as [Hc _].
  destruct Hb as [Hb|Hb]; rewrite Hb in Hc; discriminate.
Qed.

End ExecutorFacts.

(** An empty [binArraysPubkey] hides the bin arrays listed under
    [binArrays]. *)
Lemma hop_without_bin_arrays_witness :
  isOk (Flash.buildSwapIxForPool Flash.demo
          (Flash.mkHop (Some "poolAB") None None (Some "SOL") (Some "USDC")
                       (Some 1000) (Some 495) (Some "METEORA_DLMM") None
                       (Some []) (Some ["bin0"]) None)
          "payer" true) = false.
Proof.
  apply (hop_without_bin_arrays_is_refused Flash.demo).
  right. reflexivity.
Defined.

Lemma executeRoute_witness :
  exists ixss,
    Forall2 (Flash.built_from_own_amounts Flash.demo "payer")
            Flash.two_legs ixss
    /\ Flash.send Flash.demo
         (Flash.addComputeBudgetIxs Flash.demo
            (Some (Flash.mkComputeBudget (Some 400000) None))
          ++ List.concat ixss)%list
       = Ok "signature".
Proof.
  destruct (proj1 (executeRoute_sends_budget_then_legs Flash.demo true
              (Some Flash.demo_payer) Flash.two_legs
              (Some (Flash.mkComputeBudget (Some 400000) None)) None
              "signature") eq_refl)
    as [_ [_ [kp [ixss [Hkp [F HS]]]]]].
  injection Hkp as <-.
  exists ixss. split; [|exact HS].
  eapply Forall2_impl; [|exact F].
  intros hop ixs [_ [_ [_ H]]]. exact H.
Defined.

(* --------------------------------------------------------------------- *)
(** ** Execution hook *)
(* --------------------------------------------------------------------- *)

Section ExecFacts.
Import Flash Exec.

Lemma resolveDexType_tags (leg : Leg) :
  resolveDexType leg = "METEORA_DLMM"
  /\ (text (l_type leg) = "dlmm" \/ includes (text (l_via leg)) "dlmm" = true)
  \/ In (resolveDexType leg)
        ["ORCA_WHIRLPOOL"; "RAYDIUM_CLMM"; "RAYDIUM_CPMM"; "UNKNOWN"].
Proof.
  unfold resolveDexType.
  destruct (String.eqb (text (l_type leg)) "dlmm") eqn:T; cbn [orb].
  { left. split; [reflexivity|]. left. now apply String.eqb_eq. }
  destruct (includes (text (l_via leg)) "dlmm") eqn:V.
  { left. split; [reflexivity|]. now right. }
  right.
  destruct (String.eqb _ "whirlpool" || includes _ "whirlpool");
    [cbn; tauto|].
  destruct (String.eqb _ "clmm" || includes _ "clmm"); [cbn; tauto|].
  destruct (String.eqb _ "cpmm" || includes _ "cpmm" || includes _ "amm");
    [|cbn; tauto].
  destruct (String.eqb _ "raydium"); cbn; tauto.
Qed.

(** Of the legs the hook prepares, the instruction builder accepts
    only those [resolveDexType] tags METEORA_DLMM: the type is dlmm or
    the [via] text mentions dlmm.  Whirlpool, clmm, cpmm and unknown
    legs make it throw. *)
Theorem only_dlmm_legs_can_be_built
        (E : Env) (leg : Leg) (payer : string) (connection : bool) :
  isOk (buildSwapIxForPool E (route_leg leg) payer connection) = true ->
  resolveDexType leg = "METEORA_DLMM"
  /\ (l_type leg = Some "dlmm" \/ includes (text (l_via leg)) "dlmm" = true).
Proof.
  intros H.
  destruct (resolveDexType_tags leg) as [[R D]|R].
  - split; [exact R|]. destruct D as [D|D]; [left|now right].
    unfold text in D. destruct (l_type leg) as [t|]; cbn in D.
    + destruct (truthy_str t); [now subst|discriminate].
    + discriminate.
  - exfalso. unfold buildSwapIxForPool, route_leg in H;
      cbn [h_dexType h_dex] in H.
    cbn [In] in R.
    destruct R as [R|[R|[R|[R|[]]]]]; rewrite <- R in H; cbn in H;
      discriminate.
Qed.

Lemma only_dlmm_legs_witness :
  resolveDexType (mkLeg (Some "dlmm") (Some "sdk-dlmm") (Some "meteora")
                        (Some "SOL") (Some "USDC") (Some "poolAB")
                        (Some 1000) (Some 495) (Some ["bin0"]))
  = "METEORA_DLMM".
Proof.
  apply (only_dlmm_legs_can_be_built demo
           (mkLeg (Some "dlmm") (Some "sdk-dlmm") (Some "meteora")
                  (Some "SOL") (Some "USDC") (Some "poolAB")
                  (Some 1000) (Some 495) (Some ["bin0"]))
           "payer" true).
  reflexivity.
Defined.

(** [executeFlashloan] never returns a signature.  With a missing
    argument or a leg count other than three it calls the executor
    without a [payer]; otherwise it reads the unbound [SOME_PROGRAM_ID],
    and were that bound, calls the planner without [routeLegs]. *)
Theorem executeFlashloan_always_throws
        (E : Env) (global_program_id : option (option string))
        (connection : bool) (payer : option Keypair)
        (legs : option (list Leg))
        (loanAmount : option Z) (loanMint : option string) :
  isOk (executeFlashloan E global_program_id connection payer legs
                         loanAmount loanMint) = false.
Proof.
  unfold executeFlashloan.
  destruct (negb connection || negb (is_some payer) || negb (is_some legs)
            || negb (Nat.eqb (List.length (nullish_or legs [])) 3)) eqn:G.
  - unfold executeRoute. destruct connection; reflexivity.
  - destruct global_program_id as [pid|]; [|reflexivity].
    unfold buildFlashloanTx.
    destruct connection; [|reflexivity]. cbn [negb].
    destruct payer; reflexivity.
Qed.

End ExecFacts.

(* --------------------------------------------------------------------- *)
(** ** clmm adapter *)
(* --------------------------------------------------------------------- *)

Section ClmmFacts.
Import Clmm.

Lemma normalizeQuote_ok (a : Adapter) (inAmt out minOut : text)
      (swapForY : bool) (q : Quote) :
  normalizeQuote a inAmt out minOut swapForY = Ok q ->
  success q = true /\ error q = None /\ inAmountRaw q = inAmt
  /\ q_swapForY q = swapForY
  /\ out = Numeric (outAmountRaw q) /\ minOut = Numeric (minOutAmountRaw q)
  /\ (exists i, inAmt = Numeric i)
  /\ is_some (tokenXDecimals a) = true /\ is_some (tokenYDecimals a) = true.
Proof.
  unfold normalizeQuote. intros H.
  apply ensure_inv in H; destruct H as [Hd H].
  apply andb_prop in Hd.
  destruct inAmt as [i|]; [|discriminate].
  destruct out as [o|]; [|discriminate].
  destruct minOut as [m|]; [|discriminate].
  cbn in H. injection H as <-. cbn.
  repeat split; try reflexivity; try (now exists i);
    destruct swapForY; tauto.
Qed.

(** [_normalizeQuote] reads the direction only to label the quote:
    its check of the decimals asks for both whichever comes first. *)
Lemma normalizeQuote_direction (a : Adapter) (inAmt out minOut : text)
      (d1 d2 : bool) :
  match normalizeQuote a inAmt out minOut d1,
        normalizeQuote a inAmt out minOut d2 with
  | Ok q1, Ok q2 =>
      success q1 = success q2 /\ outAmountRaw q1 = outAmountRaw q2
      /\ minOutAmountRaw q1 = minOutAmountRaw q2 /\ error q1 = error q2
  | Throw e1, Throw e2 => e1 = e2
  | _, _ => False
  end.
Proof.
  unfold normalizeQuote.
  destruct (tokenXDecimals a), (tokenYDecimals a), d1, d2;
    cbn [Cpmm.is_some andb ensure bind]; try reflexivity;
    destruct inAmt, out, minOut; cbn; auto.
Qed.

Lemma clmm_rejects_object_amount
      (R : Raydium) (a : Adapter) (swapForY : bool) (slippageBps : Q) :
  exists q,
    quoteExactIn R a (Some Malformed) swapForY slippageBps None = Ok q
    /\ success q = false.
Proof.
  unfold quoteExactIn; cbn [is_some ensure bind nullish_or].
  eexists; split; [reflexivity|].
  destruct (fetch R) as [pre|e]; reflexivity.
Qed.

(** Whatever the provider or the SDK does, [quoteExactIn] answers a
    non-null amount with a quote.  A quote marked [success] carries the
    out and min-out amounts the provider gave for this very amount,
    direction and slippage or, without a provider, the SDK gave for
    this amount and slippage; the three amounts are texts a Decimal can
    be built from, which NaN and the infinities are, and both decimals
    are known.  Any other quote has zero amounts and an error text.
    The SDK is never told the direction: for one amount and slippage
    the quotes for the two directions have the same success mark,
    amounts and error. *)
Theorem clmm_quote_is_passthrough_or_failure
        (R : Raydium) (a : Adapter) (amt : text) (swapForY : bool)
        (slippageBps : Q)
        (quoteProvider :
           option (ProviderArgs -> result (option ProviderQuote))) :
  (exists q,
     quoteExactIn R a (Some amt) swapForY slippageBps quoteProvider = Ok q
     /\ inAmountRaw q = amt /\ q_swapForY q = swapForY
     /\ (if success q
         then (exists i, amt = Numeric i
                 /\ match quoteProvider with
                    | Some provider =>
                        provider (mkProviderArgs amt swapForY slippageBps)
                    | None =>
                        pre <- fetch R ;;
                        quote <- compute R pre i slippageBps ;;
                        Ok (Some quote)
                    end
                    = Ok (Some (mkProviderQuote
                                  (Some (Numeric (outAmountRaw q)))
                                  (Some (Numeric (minOutAmountRaw q))))))
              /\ is_some (tokenXDecimals a) = true
              /\ is_some (tokenYDecimals a) = true
              /\ error q = None
         else outAmountRaw q = Value 0 /\ minOutAmountRaw q = Value 0
              /\ error q <> None))
  /\ (exists q1 q2,
        quoteExactIn R a (Some amt) true slippageBps None = Ok q1
        /\ quoteExactIn R a (Some amt) false slippageBps None = Ok q2
        /\ success q1 = success q2
        /\ outAmountRaw q1 = outAmountRaw q2
        /\ minOutAmountRaw q1 = minOutAmountRaw q2
        /\ error q1 = error q2).
Proof.
  split.
  - unfold quoteExactIn; cbn [is_some ensure bind nullish_or].
    destruct quoteProvider as [provider|].
    + eexists; split; [reflexivity|].
      destruct (provider _) as [[[[o|] [m|]]|]|e] eqn:P;
        cbn [bind caught];
        try (cbn; repeat split; discriminate).
      destruct (normalizeQuote a amt o m swapForY) as [q|e] eqn:N;
        cbn [caught]; [|cbn; repeat split; discriminate].
      apply normalizeQuote_ok in N.
      destruct N as [S [Er [I [D [-> [-> [[i ->] [X Y]]]]]]]].
      rewrite S. repeat split; try assumption.
      exists i. split; reflexivity.
    + eexists; split; [reflexivity|].
      destruct (fetch R) as [pre|e] eqn:F; cbn [bind caught];
        [|cbn; repeat split; discriminate].
      destruct amt as [i|]; cbn [toDec newDecimal bind caught];
        [|cbn; repeat split; discriminate].
      destruct (compute R pre i slippageBps) as [[[o|] [m|]]|e] eqn:C;
        cbn [bind caught];
        try (cbn; repeat split; discriminate).
      destruct (normalizeQuote a (Numeric i) o m swapForY) as [q|e] eqn:N;
        cbn [caught]; [|cbn; repeat split; discriminate].
      apply normalizeQuote_ok in N.
      destruct N as [S [Er [I [D [-> [-> [_ [X Y]]]]]]]].
      rewrite S. repeat split; try assumption.
      exists i. split; [reflexivity|]. cbn [bind]. rewrite C. reflexivity.
  - unfold quoteExactIn; cbn [is_some ensure bind nullish_or].
    eexists; eexists. split; [reflexivity|]. split; [reflexivity|].
    destruct (fetch R) as [pre|e] eqn:F; cbn [bind caught];
      [|cbn; repeat split; reflexivity].
    destruct amt as [i|]; cbn [toDec newDecimal bind caught];
      [|cbn; repeat split; reflexivity].
    destruct (compute R pre i slippageBps) as [[[o|] [m|]]|e] eqn:C;
      cbn [bind caught];
      try (cbn; repeat split; reflexivity).
    pose proof (normalizeQuote_direction a (Numeric i) o m true false) as N.
    destruct (normalizeQuote a (Numeric i) o m true) as [q1|e1];
      destruct (normalizeQuote a (Numeric i) o m false) as [q2|e2];
      cbn [caught]; try contradiction; [exact N|].
    subst e2. cbn. repeat split; reflexivity.
Qed.

(** A provider that answers NaN is passed through: the quote is marked
    [success] and its amounts are NaN. *)
Example clmm_nan_quote_is_marked_success :
  exists q,
    quoteExactIn no_sdk ready (Some (Numeric (Value 1000))) true 50
                 (Some nan_provider) = Ok q
    /\ success q = true
    /\ outAmountRaw q = NaN /\ minOutAmountRaw q = NaN.
Proof. eexists. split; [reflexivity|]. repeat split. Qed.

End ClmmFacts.

(* --------------------------------------------------------------------- *)
(** ** Leg simulator *)
(* --------------------------------------------------------------------- *)

Section SimFacts.
Import Sim.
Variable E : Env.
Variable c : config.

Lemma cpmm_rejects_object_amount (a : Cpmm.Adapter) (dir : bool) (slip : Q) :
  isOk (Cpmm.quoteExactIn c a (Some NotNumeric) dir slip) = false.
Proof.
  unfold Cpmm.quoteExactIn. cbn [is_some ensure bind].
  destruct (is_some (xReserveRaw a) && is_some (yReserveRaw a));
    [|reflexivity].
  cbn [ensure bind].
  destruct (toDec (xReserveRaw a)); [|reflexivity]. cbn [bind].
  destruct (toDec (yReserveRaw a)); [|reflexivity]. cbn [bind].
  destruct (gt0 _ && gt0 _); reflexivity.
Qed.

Lemma cpmm_quote_none (p : Pool) (q : option SdkQuote) :
  cpmm_quote c p = Ok q -> q = None.
Proof.
  unfold cpmm_quote. intros H.
  pose proof (cpmm_rejects_object_amount (Cpmm.constructor (data p)) true 50)
    as R.
  destruct (Cpmm.quoteExactIn _ _ _ _ _); [discriminate R|discriminate H].
Qed.

Lemma clmm_quote_none (n : nat) (p : Pool) (q : option SdkQuote) :
  clmm_quote E n p = Ok q -> q = None.
Proof.
  unfold clmm_quote. intros H.
  apply bind_inv in H; destruct H as [a [_ H]].
  destruct (clmm_rejects_object_amount (raydium E n) a true 50)
    as [q0 [Q S]].
  rewrite Q in H. cbn [bind] in H. rewrite S in H.
  now injection H as <-.
Qed.

Lemma sdk_quote_some (n : nat) (pool : option Pool)
      (inputMint : option string) (amount : AmountText) (q : SdkQuote) :
  sdk_quote E c n pool inputMint amount = Some q ->
  exists p addr out,
    pool = Some p
    /\ Classifier.normalizeType (Some (classified p)) = Classifier.dlmm
    /\ Flash.or_str (poolAddress p) (address p) = Some addr
    /\ valid_pubkey E addr = true
    /\ dlmm_swapQuote E n addr amount
         (Utils.same_mint inputMint (Clmm.baseMint (mints p)))
       = Ok (out, q_binArrays q)
    /\ q_dyAtomic q = Finite (inject_Z out).
Proof.
  unfold sdk_quote. intros H.
  destruct pool as [p|]; [|discriminate].
  destruct (Flash.or_str (poolAddress p) (address p)) as [addr|] eqn:A;
    [|discriminate].
  destruct (valid_pubkey E addr) eqn:V; [|discriminate]. cbn [negb] in H.
  destruct (Classifier.normalizeType (Some (classified p))) eqn:T.
  - destruct (cpmm_quote c p) as [r|] eqn:Q; [|discriminate].
    apply cpmm_quote_none in Q. congruence.
  - exists p, addr. unfold dlmm_quote in H.
    destruct (dlmm_create E n addr); [|discriminate]. cbn [bind] in H.
    destruct (ensure _ _); [|discriminate]. cbn [bind] in H.
    destruct (ensure _ _); [|discriminate]. cbn [bind] in H.
    destruct (dlmm_swapQuote E n addr amount _) as [[out bins]|] eqn:S;
      [|discriminate].
    injection H as <-. exists out. cbn. repeat split; assumption.
  - destruct (clmm_quote E n p) as [r|] eqn:Q; [|discriminate].
    apply clmm_quote_none in Q. congruence.
  - destruct (cpmm_quote c p) as [r|] eqn:Q; [|discriminate].
    apply cpmm_quote_none in Q. congruence.
Qed.

(** [sdk.quote] answers only for pools the classifier calls dlmm, and
    then with the out amount and bin arrays the Meteora SDK gave for
    this call.  For cpmm, clmm and whirlpool pools it is always null:
    their adapters read the options object as the amount. *)
Theorem sdk_quotes_only_dlmm_pools
        (n : nat) (pool : option Pool) (inputMint : option string)
        (amount : AmountText) :
  match sdk_quote E c n pool inputMint amount with
  | None => True
  | Some q =>
      exists p addr out,
        pool = Some p
        /\ Classifier.normalizeType (Some (classified p)) = Classifier.dlmm
        /\ Flash.or_str (poolAddress p) (address p) = Some addr
        /\ valid_pubkey E addr = true
        /\ dlmm_swapQuote E n addr amount
             (Utils.same_mint inputMint (Clmm.baseMint (mints p)))
           = Ok (out, q_binArrays q)
        /\ q_dyAtomic q = Finite (inject_Z out)
  end.
Proof.
  destruct (sdk_quote E c n pool inputMint amount) as [q|] eqn:Q;
    [|exact I].
  eapply sdk_quote_some; eassumption.
Qed.

Lemma sdk_quote_not_dlmm (n : nat) (p : Pool) (inputMint : option string)
      (amount : AmountText) :
  Classifier.normalizeType (Some (classified p)) <> Classifier.dlmm ->
  sdk_quote E c n (Some p) inputMint amount = None.
Proof.
  intros T.
  destruct (sdk_quote E c n (Some p) inputMint amount) as [q|] eqn:Q;
    [|reflexivity].
  apply sdk_quote_some in Q.
  destruct Q as [p' [addr [out [[= <-] [T' _]]]]]. contradiction.
Qed.

(** A leg on a pool that is not dlmm is never simulated: for a
    positive amount [simulateLeg] asks [sdk.quote] once, counts one
    failure and reports that no simulation method is available. *)
Theorem non_dlmm_leg_has_no_simulation_method
        (st : State) (p : Pool) (inputMint outputMint : option string)
        (d : Q) (preferSdk : bool) :
  Classifier.normalizeType (Some (classified p)) <> Classifier.dlmm ->
  0 < floor d ->
  simulateLeg E c st (Some p) inputMint outputMint (Some (Num d)) preferSdk
  = (Ok (failed ("no-simulation-method: type="
                 ++ Classifier.variant_name
                      (Classifier.normalizeType (Some (classified p)))
                 ++ ", sdk=null, math=false") (poolAddress p)),
     mkState (mkStats (sdkCalls (stats st)) (sdkSuccess (stats st))
                      (mathCalls (stats st)) (mathSuccess (stats st))
                      (failures (stats st) + 1))
             (S (quoteCalls st))).
Proof.
  intros T Hd. unfold simulateLeg. cbn [toDec newDecimal option_map].
  destruct (floor d <=? 0) eqn:L; [apply Z.leb_le in L; lia|].
  rewrite (sdk_quote_not_dlmm _ _ _ _ T).
  cbn [is_some]. rewrite andb_false_r. reflexivity.
Qed.

(** A leg that comes back [ok] is a dlmm leg quoted twice: it was
    asked for with [preferSdk], its amounts are the floored input and
    the positive out amount of the second quote, whose bin arrays it
    carries; its decimals are the pool's base and quote decimals (9 and
    6 when missing or zero) whatever the direction; one SDK call and
    one SDK success are counted. *)
Theorem ok_leg_is_a_dlmm_quote
        (st st' : State) (pool : option Pool)
        (inputMint outputMint : option string) (dxAtomic : option jsnum)
        (preferSdk : bool) (leg : Leg) :
  simulateLeg E c st pool inputMint outputMint dxAtomic preferSdk
  = (Ok leg, st') ->
  ok leg = true ->
  exists p addr d out,
    pool = Some p /\ preferSdk = true
    /\ Classifier.normalizeType (Some (classified p)) = Classifier.dlmm
    /\ toDec dxAtomic = Ok d /\ 0 < floor d
    /\ Flash.or_str (poolAddress p) (address p) = Some addr
    /\ dlmm_swapQuote E (S (quoteCalls st)) addr (toString E (floor d))
         (Utils.same_mint inputMint (Clmm.baseMint (mints p)))
       = Ok (out, nullish_or (l_binArrays leg) [])
    /\ 0 < out
    /\ leg = mkLeg true None (Some "sdk-dlmm") (poolAddress p)
                   (Some Classifier.dlmm)
                   (Some (Classifier.normalizeDex (Some (classified p))))
                   (Some (floor d)) (Some (Finite (inject_Z out)))
                   (Some (or_num (Cpmm.baseDecimals (data p)) 9))
                   (Some (or_num (Cpmm.quoteDecimals (data p)) 6))
                   true (l_binArrays leg)
    /\ st' = mkState (mkStats (sdkCalls (stats st) + 1)
                              (sdkSuccess (stats st) + 1)
                              (mathCalls (stats st)) (mathSuccess (stats st))
                              (failures (stats st)))
                     (S (S (quoteCalls st))).
Proof.
  unfold simulateLeg. intros H Hok.
  destruct (toDec dxAtomic) as [d|] eqn:D; [|discriminate].
  destruct (floor d <=? 0) eqn:L.
  { injection H as <- <-. discriminate. }
  apply Z.leb_gt in L.
  destruct (preferSdk && is_some (sdk_quote E c (quoteCalls st) pool
                                            inputMint
                                            (toString E (floor d)))) eqn:G.
  2:{ unfold no_method in H. destruct pool; cbn in H; [|discriminate].
      injection H as <- <-. discriminate. }
  apply andb_prop in G. destruct G as [-> _].
  cbn [count_quote count_sdkCall quoteCalls stats] in H.
  destruct (pays E (S (quoteCalls st))
                 (sdk_quote E c (S (quoteCalls st)) pool inputMint
                            (toString E (floor d))))
    eqn:P.
  2:{ destruct (Classifier.normalizeType (option_map classified pool));
        unfold no_method in H; destruct pool; cbn in H; try discriminate;
        injection H as <- <-; discriminate. }
  destruct (sdk_quote E c (S (quoteCalls st)) pool inputMint
                      (toString E (floor d)))
    as [q|] eqn:Q; [|discriminate P].
  pose proof (sdk_quote_some _ _ _ _ _ Q) as S2.
  destruct S2 as [p [addr [out [-> [T [A [V [SQ DY]]]]]]]].
  cbn [option_map] in H. rewrite T in H.
  injection H as <- <-.
  unfold pays in P. rewrite DY in P.
  exists p, addr, d, out. cbn [l_binArrays nullish_or].
  repeat split; try assumption; try reflexivity.
  - unfold gt0, gt in P. apply negb_true_iff in P.
    destruct (Z_lt_le_dec 0 out) as [|Hle]; [assumption|].
    exfalso. assert (Qle_bool (inject_Z out) 0 = true); [|congruence].
    apply Qle_bool_iff. unfold Qle; cbn. lia.
  - rewrite DY. reflexivity.
Qed.

Lemma simulateLeg_counts
      (st : State) (pool : option Pool)
      (inputMint outputMint : option string) (dxAtomic : option jsnum)
      (preferSdk : bool) :
  let r := fst (simulateLeg E c st pool inputMint outputMint dxAtomic
                            preferSdk) in
  let s := stats st in
  let s' := stats (snd (simulateLeg E c st pool inputMint outputMint
                                    dxAtomic preferSdk)) in
  let won := match r with Ok leg => if ok leg then 1 else 0 | _ => 0 end in
  mathCalls s' = mathCalls s /\ mathSuccess s' = mathSuccess s
  /\ sdkSuccess s' = sdkSuccess s + won
  /\ sdkCalls s + won <= sdkCalls s' <= sdkCalls s + 1
  /\ failures s <= failures s' <= failures s + 1 - won.
Proof.
  cbv zeta. unfold simulateLeg.
  destruct (toDec dxAtomic) as [d|]; [|cbn; lia].
  destruct (floor d <=? 0); [cbn; lia|].
  destruct (preferSdk && is_some _).
  2:{ unfold no_method. destruct pool; cbn; lia. }
  cbn [count_quote count_sdkCall quoteCalls stats].
  destruct (pays E _ _) eqn:P.
  - destruct (sdk_quote E c (S (quoteCalls st)) pool inputMint
                        (toString E (floor d)))
      as [q|] eqn:Q; [|discriminate P].
    apply sdk_quote_some in Q. destruct Q as [p [_ [_ [-> _]]]].
    cbn. lia.
  - destruct (Classifier.normalizeType (option_map classified pool));
      unfold no_method; destruct pool; cbn; lia.
Qed.

(** From fresh counters, after any run of calls: the math counters
    are still zero, [sdkSuccess] is the number of legs that came back
    [ok], and successes and failures together do not exceed the calls
    made. *)
Theorem stats_after_a_run (st : State) (calls : list Call) :
  let rs := fst (run E c (resetStats st) calls) in
  let s := stats (snd (run E c (resetStats st) calls)) in
  mathCalls s = 0 /\ mathSuccess s = 0
  /\ sdkSuccess s = ok_count rs
  /\ sdkSuccess s <= sdkCalls s <= Z.of_nat (List.length calls)
  /\ 0 <= failures s
  /\ sdkSuccess s + failures s <= Z.of_nat (List.length calls).
Proof.
  cbv zeta.
  assert (G : forall calls st0,
             let rs := fst (run E c st0 calls) in
             let s0 := stats st0 in
             let s := stats (snd (run E c st0 calls)) in
             mathCalls s = mathCalls s0 /\ mathSuccess s = mathSuccess s0
             /\ sdkSuccess s = sdkSuccess s0 + ok_count rs
             /\ sdkCalls s0 + ok_count rs <= sdkCalls s
                <= sdkCalls s0 + Z.of_nat (List.length calls)
             /\ failures s0 <= failures s
                <= failures s0 + Z.of_nat (List.length calls) - ok_count rs).
  { clear st calls. induction calls as [|k rest IH]; intros st0; cbv zeta.
    - cbn. unfold ok_count; cbn. lia.
    - cbn [run].
      pose proof (simulateLeg_counts st0 (c_pool k) (c_inputMint k)
                    (c_outputMint k) (c_dxAtomic k) (c_preferSdk k)) as K.
      cbv zeta in K.
      destruct (simulateLeg E c st0 (c_pool k) (c_inputMint k)
                            (c_outputMint k) (c_dxAtomic k) (c_preferSdk k))
        as [r st1].
      specialize (IH st1). cbv zeta in IH.
      destruct (run E c st1 rest) as [rs st2].
      cbn [fst snd] in *.
      assert (W : ok_count (r :: rs)
                  = match r with
                    | Ok leg => if ok leg then 1 else 0
                    | Throw _ => 0
                    end + ok_count rs).
      { unfold ok_count. cbn [filter].
        destruct r as [leg|]; [destruct (ok leg)|]; cbn [List.length]; lia. }
      rewrite W. cbn [List.length]. lia. }
  specialize (G calls (resetStats st)). cbv zeta in G.
  cbn [resetStats stats mathCalls mathSuccess sdkSuccess sdkCalls failures]
    in G.
  lia.
Qed.

End SimFacts.

Lemma non_dlmm_leg_witness :
  fst (Sim.simulateLeg Sim.quiet repo_config Sim.fresh
         (Some Sim.cpmm_pool) (Some "SOL") (Some "USDC")
         (Some (Num (inject_Z 1000))) true)
  = Ok (Sim.failed "no-simulation-method: type=cpmm, sdk=null, math=false"
                   (Some "poolAB")).
Proof.
  rewrite (non_dlmm_leg_has_no_simulation_method Sim.quiet repo_config
             Sim.fresh Sim.cpmm_pool (Some "SOL") (Some "USDC")
             (inject_Z 1000) true);
    [reflexivity|discriminate|reflexivity].
Defined.

(** From ten to the power [toExpPos] on, the amount reaches the SDK in
    exponent notation; an SDK that rejects it gives no leg. *)
Example leg_in_exponent_notation_is_not_quoted :
  fst (Sim.simulateLeg Sim.quiet repo_config Sim.fresh
         (Some Sim.dlmm_pool) (Some "SOL") (Some "USDC")
         (Some (Num (inject_Z (10 ^ 21)))) true)
  = Ok (Sim.failed "no-simulation-method: type=dlmm, sdk=null, math=false"
                   (Some "poolAB"))
  /\ match fst (Sim.simulateLeg Sim.quiet repo_config Sim.fresh
                  (Some Sim.dlmm_pool) (Some "SOL") (Some "USDC")
                  (Some (Num (inject_Z (10 ^ 21 - 1)))) true) with
     | Ok leg => Sim.ok leg = true
     | Throw _ => False
     end.
Proof. split; vm_compute; reflexivity. Qed.

Lemma ok_leg_witness :
  exists leg st',
    Sim.simulateLeg Sim.quiet repo_config Sim.fresh (Some Sim.dlmm_pool)
                    (Some "SOL") (Some "USDC") (Some (Num (inject_Z 1000)))
                    true = (Ok leg, st')
    /\ Sim.via leg = Some "sdk-dlmm"
    /\ Sim.dyAtomic leg = Some (Sim.Finite (inject_Z 999))
    /\ Sim.sdkSuccess (Sim.stats st') = 1.
Proof.
  eexists. eexists. split; [vm_compute; reflexivity|].
  destruct (ok_leg_is_a_dlmm_quote Sim.quiet repo_config Sim.fresh
              (Sim.mkState (Sim.mkStats 1 1 0 0 0) 2)
              (Some Sim.dlmm_pool) (Some "SOL") (Some "USDC")
              (Some (Num (inject_Z 1000))) true
              (Sim.mkLeg true None (Some "sdk-dlmm") (Some "poolAB")
                 (Some Classifier.dlmm) (Some "meteora") (Some 1000)
                 (Some (Sim.Finite (inject_Z 999))) (Some 9) (Some 6) true
                 (Some ["bin0"]))
              eq_refl eq_refl)
    as [p [addr [d [out [_ [_ [_ [_ [_ [_ [_ [_ [_ Hst]]]]]]]]]]]]].
  repeat split; reflexivity.
Defined.

(* --------------------------------------------------------------------- *)
(** ** Batched account fetch *)
(* --------------------------------------------------------------------- *)

Section FetchFacts.
Import Fetch.
Variable Account : Type.
Variable E : Env Account.

Lemma assign_length (i : nat) (v : option Account) :
  forall arr, (i < List.length arr)%nat ->
              List.length (assign i v arr) = List.length arr.
Proof.
  induction i as [|k IH]; intros [|x rest] L; cbn in *; try lia.
  rewrite IH; lia.
Qed.

Lemma assign_nth_other (i j : nat) (v : option Account) :
  forall arr, i <> j -> (i < List.length arr)%nat ->
              nth j (assign i v arr) None = nth j arr None.
Proof.
  revert j. induction i as [|k IH]; intros [|j] [|x rest] N L; cbn in *;
    try lia; try reflexivity.
  apply IH; lia.
Qed.

Lemma assign_app (v : option Account) (pre : list (option Account)) x post :
  assign (List.length pre) v (pre ++ x :: post) = (pre ++ v :: post)%list.
Proof.
  induction pre as [|p pre IH]; cbn; [reflexivity|]. now rewrite IH.
Qed.

Lemma validIndices_range (batch : list (option string)) : forall i,
  Forall (fun k => (i <= k < i + List.length batch)%nat
                   /\ truthy_ostr (nth (k - i) batch None) = true)
         (validIndices i batch).
Proof.
  induction batch as [|b rest IH]; intros i; cbn [validIndices List.length];
    [constructor|].
  assert (T : Forall (fun k => (i <= k < i + S (List.length rest))%nat
                               /\ truthy_ostr (nth (k - i) (b :: rest) None)
                                  = true)
                     (validIndices (S i) rest)).
  { eapply Forall_impl; [|apply IH]. cbn beta. intros k [R T]. split; [lia|].
    replace (k - i)%nat with (S (k - S i)) by lia. exact T. }
  destruct (truthy_ostr b) eqn:B; [|exact T].
  constructor; [|exact T]. split; [lia|].
  now rewrite Nat.sub_diag.
Qed.

(** Storing keeps the length and touches only the listed slots. *)
Lemma store_keeps (indices : list nat) :
  forall (accounts arr : list (option Account)),
  Forall (fun k => (k < List.length arr)%nat) indices ->
  List.length (store indices accounts arr) = List.length arr
  /\ forall j, ~ In j indices ->
               nth j (store indices accounts arr) None = nth j arr None.
Proof.
  induction indices as [|i rest IH]; intros accounts arr F;
    cbn [store]; [split; reflexivity|].
  destruct accounts as [|a accounts]; [split; reflexivity|].
  inversion F as [|? ? Hi F']; subst.
  destruct (IH accounts (assign i a arr)) as [L N].
  { rewrite assign_length by assumption. exact F'. }
  rewrite L, assign_length by assumption. split; [reflexivity|].
  intros j Hj. rewrite N by (intros ?; apply Hj; now right).
  apply assign_nth_other; [|assumption].
  intros ->. apply Hj. now left.
Qed.

Lemma attempts_keeps (left : nat) (keys : list string) (indices : list nat) :
  forall st,
    Forall (fun k => (k < List.length (results st))%nat) indices ->
    let st' := attempts E left keys indices st in
    List.length (results st') = List.length (results st)
    /\ (forall j, ~ In j indices ->
                  nth j (results st') None = nth j (results st) None)
    /\ (rpcCalls st <= rpcCalls st' <= rpcCalls st + left)%nat.
Proof.
  induction left as [|left IH]; intros st F; cbv zeta; cbn [attempts].
  - repeat split; lia.
  - destruct (rpc E (rpcCalls st) keys) as [accounts|message].
    + cbn [results rpcCalls].
      destruct (store_keeps indices accounts (results st) F) as [L N].
      repeat split; try assumption; lia.
    + destruct (is429 message).
      * specialize (IH (mkState (results st)
                          (Limiter.handle429
                             (clock E (2 + clockReads st))
                             (Limiter.waitForRateLimit
                                (clock E (clockReads st))
                                (clock E (S (clockReads st)))
                                (limiter st)))
                          (S (rpcCalls st)) (3 + clockReads st)) F).
        cbv zeta in IH. cbn [results rpcCalls] in IH.
        destruct IH as [L [N C]]. repeat split; try assumption; lia.
      * cbn [results rpcCalls]. repeat split; lia.
Qed.

Lemma indices_in_results (pubkeys : list (option string)) (batchSize i : nat)
      (arr : list (option Account)) :
  List.length arr = List.length pubkeys ->
  Forall (fun k => (k < List.length arr)%nat
                   /\ truthy_ostr (nth k pubkeys None) = true)
         (validIndices i (firstn batchSize (skipn i pubkeys))).
Proof.
  intros L.
  eapply Forall_impl;
    [|apply (validIndices_range (firstn batchSize (skipn i pubkeys)) i)].
  cbn beta. intros k [R T].
  rewrite length_firstn, length_skipn in R.
  split; [lia|].
  rewrite <- T.
  rewrite <- (firstn_skipn i pubkeys) at 1.
  rewrite app_nth2 by (rewrite length_firstn; lia).
  rewrite length_firstn, Nat.min_l by lia.
  rewrite <- (firstn_skipn batchSize (skipn i pubkeys)) at 1.
  rewrite app_nth1; [reflexivity|].
  rewrite length_firstn, length_skipn. lia.
Qed.

Lemma batches_spec (pubkeys : list (option string)) (batchSize : nat) :
  (1 <= batchSize)%nat ->
  forall fuel i st,
    (List.length pubkeys - i < fuel)%nat ->
    List.length (results st) = List.length pubkeys ->
    exists st',
      batches E fuel pubkeys batchSize i st = Some st'
      /\ List.length (results st') = List.length pubkeys
      /\ (forall j, truthy_ostr (nth j pubkeys None) = false ->
                    nth j (results st') None = nth j (results st) None)
      /\ Z.of_nat (rpcCalls st) <= Z.of_nat (rpcCalls st')
         <= Z.of_nat (rpcCalls st)
            + 3 * ((Z.of_nat (List.length pubkeys - i)
                    + Z.of_nat batchSize - 1) / Z.of_nat batchSize).
Proof.
  intros Hb. induction fuel as [|fuel IH]; intros i st Hf L; [lia|].
  cbn [batches].
  assert (Q0 : 0 <= (Z.of_nat (List.length pubkeys - i)
                     + Z.of_nat batchSize - 1) / Z.of_nat batchSize)
    by (apply Z.div_pos; lia).
  destruct (Nat.leb_spec (List.length pubkeys) i) as [Hi|Hi].
  { exists st. repeat split; try assumption; try reflexivity; lia. }
  assert (Step : 1 + (Z.of_nat (List.length pubkeys - (i + batchSize))
                      + Z.of_nat batchSize - 1) / Z.of_nat batchSize
                 <= (Z.of_nat (List.length pubkeys - i)
                     + Z.of_nat batchSize - 1) / Z.of_nat batchSize).
  { destruct (Nat.le_gt_cases (i + batchSize) (List.length pubkeys))
      as [Hs|Hs].
    - replace (Z.of_nat (List.length pubkeys - i) + Z.of_nat batchSize - 1)
        with ((Z.of_nat (List.length pubkeys - (i + batchSize))
               + Z.of_nat batchSize - 1) + 1 * Z.of_nat batchSize) by lia.
      rewrite Z.div_add by lia. lia.
    - replace (List.length pubkeys - (i + batchSize))%nat with 0%nat by lia.
      rewrite (Z.div_small (Z.of_nat 0 + Z.of_nat batchSize - 1)) by lia.
      assert (1 * Z.of_nat batchSize
              <= Z.of_nat (List.length pubkeys - i) + Z.of_nat batchSize - 1)
        by lia.
      assert (1 <= (Z.of_nat (List.length pubkeys - i)
                    + Z.of_nat batchSize - 1) / Z.of_nat batchSize);
        [|lia].
      apply Z.div_le_lower_bound; lia. }
  destruct (validBatch (firstn batchSize (skipn i pubkeys)))
    as [|key keys] eqn:V.
  - destruct (IH (i + batchSize)%nat st) as [st' [B [L' [N C]]]];
      [lia|assumption|].
    exists st'. repeat split; try assumption; lia.
  - pose proof (indices_in_results pubkeys batchSize i (results st) L) as F.
    destruct (attempts_keeps 3 (key :: keys)
                (validIndices i (firstn batchSize (skipn i pubkeys))) st)
      as [L1 [N1 C1]].
    { eapply Forall_impl; [|exact F]. cbn beta. tauto. }
    destruct (IH (i + batchSize)%nat
                 (attempts E 3 (key :: keys)
                    (validIndices i (firstn batchSize (skipn i pubkeys))) st))
      as [st' [B [L' [N C]]]]; [lia|congruence|].
    exists st'. repeat split; try assumption; try lia.
    intros j Hj. rewrite N by assumption. apply N1.
    intros Hin. rewrite Forall_forall in F.
    destruct (F j Hin) as [_ T]. congruence.
Qed.

(** With a batch size of at least one, [fetchAccountsBatched] returns
    after at most one iteration per key: one result per key, null for
    every null or empty key, after at most three calls of the cluster
    for each batch. *)
Theorem fetch_returns_a_result_per_key
        (pubkeys : list (option string)) (batchSize fuel : nat)
        (st : State Account) :
  (1 <= batchSize)%nat ->
  (List.length pubkeys < fuel)%nat ->
  exists st',
    fetchAccountsBatched E fuel pubkeys batchSize st = Some st'
    /\ List.length (results st') = List.length pubkeys
    /\ (forall j, truthy_ostr (nth j pubkeys None) = false ->
                  nth j (results st') None = None)
    /\ Z.of_nat (rpcCalls st') - Z.of_nat (rpcCalls st)
       <= 3 * ((Z.of_nat (List.length pubkeys) + Z.of_nat batchSize - 1)
               / Z.of_nat batchSize).
Proof.
  intros Hb Hf. unfold fetchAccountsBatched.
  destruct (batches_spec pubkeys batchSize Hb fuel 0
              (mkState (repeat None (List.length pubkeys)) (limiter st)
                       (rpcCalls st) (clockReads st)))
    as [st' [B [L [N C]]]].
  - lia.
  - cbn [results]. apply repeat_length.
  - exists st'. cbn [results rpcCalls] in *.
    rewrite Nat.sub_0_r in C.
    repeat split; try assumption; [|lia].
    intros j Hj. rewrite N by assumption.
    apply nth_repeat.
Qed.

(** With a batch size of zero and at least one key the loop index never
    moves: the function does not return, whatever the bound on its
    iterations. *)
Theorem fetch_with_empty_batches_never_returns
        (pubkeys : list (option string)) (fuel : nat) (st : State Account) :
  pubkeys <> [] ->
  fetchAccountsBatched E fuel pubkeys 0 st = None.
Proof.
  intros Hn. unfold fetchAccountsBatched.
  generalize (mkState (repeat (@None Account) (List.length pubkeys))
                      (limiter st) (rpcCalls st) (clockReads st)).
  induction fuel as [|fuel IH]; intros s; cbn [batches]; [reflexivity|].
  destruct pubkeys as [|k rest]; [contradiction|].
  cbn [List.length Nat.leb firstn validBatch Nat.add].
  apply IH.
Qed.

End FetchFacts.

Section FetchServed.
Import Fetch.
Variable Account : Type.
Variable chain : string -> option Account.

Lemma store_batch (batch : list (option string)) :
  forall (pre post : list (option Account)),
    store (validIndices (List.length pre) batch)
          (map chain (validBatch batch))
          (pre ++ repeat None (List.length batch) ++ post)
    = (pre ++ map (held chain) batch ++ post)%list.
Proof.
  induction batch as [|k rest IH]; intros pre post;
    cbn [validIndices validBatch List.length repeat map app];
    [reflexivity|].
  specialize (IH (pre ++ [held chain k])%list post).
  rewrite length_app in IH. cbn [List.length] in IH.
  rewrite Nat.add_1_r in IH. rewrite <- !app_assoc in IH. cbn [app] in IH.
  unfold held at 2. unfold held at 1 in IH.
  destruct (truthy_ostr k) eqn:T.
  - cbn [map store]. rewrite assign_app. exact IH.
  - exact IH.
Qed.

Lemma store_nothing (indices : list nat) (arr : list (option Account)) :
  store indices [] arr = arr.
Proof. destruct indices; reflexivity. Qed.

Lemma batches_served (pubkeys : list (option string)) (batchSize : nat) :
  (1 <= batchSize)%nat ->
  forall fuel i st,
    (List.length pubkeys - i < fuel)%nat ->
    results st = (map (held chain) (firstn i pubkeys)
                  ++ repeat None (List.length pubkeys - i))%list ->
    exists st',
      batches (serving chain) fuel pubkeys batchSize i st = Some st'
      /\ results st' = map (held chain) pubkeys.
Proof.
  intros Hb. induction fuel as [|fuel IH]; intros i st Hf R; [lia|].
  cbn [batches].
  destruct (Nat.leb_spec (List.length pubkeys) i) as [Hi|Hi].
  { exists st. split; [reflexivity|]. rewrite R.
    rewrite firstn_all2 by assumption.
    replace (List.length pubkeys - i)%nat with 0%nat by lia.
    apply app_nil_r. }
  set (batch := firstn batchSize (skipn i pubkeys)).
  assert (LB : List.length batch
               = Nat.min batchSize (List.length pubkeys - i))
    by (unfold batch; now rewrite length_firstn, length_skipn).
  assert (Next : (map (held chain) (firstn i pubkeys)
                  ++ map (held chain) batch
                  ++ repeat None (List.length pubkeys - (i + batchSize)))%list
                 = (map (held chain) (firstn (i + batchSize) pubkeys)
                    ++ repeat None (List.length pubkeys - (i + batchSize)))%list).
  { rewrite app_assoc. f_equal. rewrite <- map_app. f_equal.
    unfold batch.
    rewrite <- (firstn_skipn i pubkeys) at 3.
    rewrite firstn_app, length_firstn, Nat.min_l by lia.
    rewrite (firstn_all2 (n := (i + batchSize)%nat) (firstn i pubkeys))
      by (rewrite length_firstn; lia).
    f_equal. f_equal. lia. }
  assert (Split : (repeat (@None Account) (List.length pubkeys - i))
                  = (repeat None (List.length batch)
                     ++ repeat None (List.length pubkeys - (i + batchSize)))%list).
  { rewrite <- repeat_app. f_equal. lia. }
  assert (Stored : store (validIndices i batch) (map chain (validBatch batch))
                         (results st)
                   = (map (held chain) (firstn (i + batchSize) pubkeys)
                      ++ repeat None (List.length pubkeys - (i + batchSize)))%list).
  { rewrite R, Split, <- Next.
    pose proof (store_batch batch (map (held chain) (firstn i pubkeys))
                  (repeat None (List.length pubkeys - (i + batchSize)))) as S.
    rewrite length_map, length_firstn, Nat.min_l in S by lia.
    exact S. }
  destruct (validBatch batch) as [|key keys] eqn:V.
  - apply IH; [lia|].
    rewrite <- Stored. cbn [map]. now rewrite store_nothing.
  - apply IH; [lia|].
    cbn [attempts serving rpc results]. exact Stored.
Qed.

(** When the cluster serves every call, the batched fetch is the
    pointwise lookup: whatever the batch size (at least one), slot [i]
    of the result holds the account under key [i], and null where the
    key is null or empty. *)
Theorem fetch_is_pointwise_lookup
        (pubkeys : list (option string)) (batchSize fuel : nat)
        (st : State Account) :
  (1 <= batchSize)%nat ->
  (List.length pubkeys < fuel)%nat ->
  option_map results
             (fetchAccountsBatched (serving chain) fuel pubkeys batchSize st)
  = Some (map (held chain) pubkeys).
Proof.
  intros Hb Hf. unfold fetchAccountsBatched.
  destruct (batches_served pubkeys batchSize Hb fuel 0
              (mkState (repeat None (List.length pubkeys)) (limiter st)
                       (rpcCalls st) (clockReads st)))
    as [st' [B R]].
  - lia.
  - cbn [results firstn map app]. now rewrite Nat.sub_0_r.
  - rewrite B. cbn [option_map]. now rewrite R.
Qed.

End FetchServed.

Lemma fetch_returns_witness :
  exists st',
    Fetch.fetchAccountsBatched Fetch.limiting 4
      [Some "vaultA"; None; Some "vaultB"] 2 Fetch.start = Some st'
    /\ Fetch.results st' = [None; None; None]
    /\ Fetch.rpcCalls st' = 6%nat.
Proof.
  destruct (fetch_returns_a_result_per_key Z Fetch.limiting
              [Some "vaultA"; None; Some "vaultB"] 2 4 Fetch.start)
    as [st' [B _]]; [lia|cbn; lia|].
  exists st'. split; [exact B|].
  vm_compute in B. injection B as <-. split; reflexivity.
Defined.

Lemma fetch_never_returns_witness :
  Fetch.fetchAccountsBatched Fetch.limiting 1000 [Some "vaultA"] 0
                             Fetch.start = None.
Proof.
  apply (fetch_with_empty_batches_never_returns Z Fetch.limiting).
  discriminate.
Defined.

Lemma fetch_is_pointwise_witness :
  option_map Fetch.results
    (Fetch.fetchAccountsBatched
       (Fetch.serving (fun k => if String.eqb k "vaultA" then Some 7 else None))
       5 [Some "vaultA"; None; Some ""; Some "vaultB"] 3 Fetch.start)
  = Some [Some 7; None; None; None].
Proof.
  apply (fetch_is_pointwise_lookup Z
           (fun k => if String.eqb k "vaultA" then Some 7 else None)
           [Some "vaultA"; None; Some ""; Some "vaultB"] 3 5 Fetch.start);
    cbn; lia.
Defined.

(* --------------------------------------------------------------------- *)
(** ** The cpmm quote within the working precision *)
(* --------------------------------------------------------------------- *)

Section CpmmInvariants.
Import Precision.

Lemma quoted_closed_form
      (c : config) (dir : bool) (rin rout bps dx xDec yDec : Z) (slip : Q) :
  within_precision c rin rout bps dx ->
  quoted_out (quoteExactIn c
                (constructor (sided_pool dir rin rout bps xDec yDec))
                (int dx) dir slip)
  = Some (closed_form rin rout bps dx).
Proof.
  intros [Hrin [Hrout [Hdx [Hbps [Hnum Hden]]]]].
  pose proof (out_exact c rin rout bps dx Hrin Hrout Hdx Hbps Hnum Hden)
    as Hout.
  pose proof (gt0_inject_Z rin Hrin) as Gin.
  pose proof (gt0_inject_Z rout Hrout) as Gout.
  pose proof (gt0_inject_Z dx Hdx) as Gdx.
  destruct dir; unfold sided_pool, quoteExactIn, constructor, poolData, int;
    cbn [tokenXDecimals tokenYDecimals a_feeBps xReserveRaw yReserveRaw
         feeBps fee_bps xReserve baseReserve reserve_x yReserve
         quoteReserve reserve_y baseDecimals decimalsA decA quoteDecimals
         decimalsB decB raw rawq nullish nullish_or Cpmm.is_some
         andb ensure bind toDec newDecimal];
    rewrite Gin, Gout, Gdx;
    cbn [andb ensure bind];
    unfold normalizeQuote;
    cbn [tokenXDecimals tokenYDecimals Cpmm.is_some andb ensure bind
         quoted_out outAmountRaw];
    exact Hout.
Qed.

Lemma div_le_cross (a b c d : Z) :
  0 < b -> 0 < d -> 0 <= a -> a * d <= c * b -> a / b <= c / d.
Proof.
  intros Hb Hd Ha H.
  apply Z.div_le_lower_bound; [assumption|].
  pose proof (Z.mul_div_le a b Hb) as Q.
  assert (0 <= a / b) by (apply Z.div_pos; lia).
  nia.
Qed.

(** Within the working precision a quote never drains the pool: paying
    [dx] in and taking the quoted [dy] out leaves the product of the
    reserves at least what it was, so the quote is never better than
    the spot price [rout / rin]. *)
Theorem quote_keeps_the_reserve_product
        (c : config) (dir : bool) (rin rout bps dx xDec yDec : Z) (slip : Q) :
  within_precision c rin rout bps dx ->
  exists dy,
    quoted_out (quoteExactIn c
                  (constructor (sided_pool dir rin rout bps xDec yDec))
                  (int dx) dir slip) = Some dy
    /\ 0 <= dy < rout
    /\ rin * rout <= (rin + dx) * (rout - dy)
    /\ dy * rin <= dx * rout.
Proof.
  intros W. exists (closed_form rin rout bps dx).
  split; [now apply quoted_closed_form|].
  destruct W as [Hrin [Hrout [Hdx [Hbps _]]]].
  unfold closed_form.
  set (N := dx * (10000 - bps) * rout).
  set (D := 10000 * rin + dx * (10000 - bps)).
  assert (HD : 0 < D) by (unfold D; nia).
  assert (HN : 0 <= N) by (unfold N; nia).
  pose proof (Z.mul_div_le N D HD) as Q.
  assert (Q0 : 0 <= N / D) by (apply Z.div_pos; lia).
  assert (Q1 : N / D < rout)
    by (apply Z.div_lt_upper_bound; [assumption|unfold N, D; nia]).
  assert (K : (N / D) * rin <= dx * (rout - N / D)).
  { unfold N, D in Q.
    assert (10000 * ((N / D) * rin)
            <= (10000 - bps) * (dx * (rout - N / D))) by (fold N D in Q; nia).
    assert (0 <= dx * (rout - N / D)) by nia.
    nia. }
  repeat split; try lia; nia.
Qed.

(** Within the working precision the quote grows with the amount paid
    in and shrinks with the fee. *)
Theorem quote_is_monotone
        (c : config) (dir : bool) (rin rout xDec yDec : Z) (slip : Q)
        (bps dx bps' dx' : Z) :
  within_precision c rin rout bps dx ->
  within_precision c rin rout bps' dx' ->
  dx <= dx' -> bps' <= bps ->
  exists dy dy',
    quoted_out (quoteExactIn c
                  (constructor (sided_pool dir rin rout bps xDec yDec))
                  (int dx) dir slip) = Some dy
    /\ quoted_out (quoteExactIn c
                     (constructor (sided_pool dir rin rout bps' xDec yDec))
                     (int dx') dir slip) = Some dy'
    /\ dy <= dy'.
Proof.
  intros W W' Hdx Hbps.
  exists (closed_form rin rout bps dx), (closed_form rin rout bps' dx').
  split; [now apply quoted_closed_form|].
  split; [now apply quoted_closed_form|].
  destruct W as [Hrin [Hrout [Hd [Hb _]]]].
  destruct W' as [_ [_ [Hd' [Hb' _]]]].
  unfold closed_form.
  set (e := 10000 - bps). set (e' := 10000 - bps').
  assert (He : 0 < e <= e') by (unfold e, e'; lia).
  assert (Hm : dx * e <= dx' * e') by nia.
  assert (0 <= rout * (10000 * rin) * (dx' * e' - dx * e)) by nia.
  apply div_le_cross; nia.
Qed.

End CpmmInvariants.

Lemma quote_keeps_product_witness :
  exists dy,
    quoted_out (quoteExactIn default_config
                  (constructor (poolData (int 2000000) (int 1000000)
                                         (int 25) (Some 6) (Some 6)))
                  (int 1000) true 50) = Some dy
    /\ 2000000 * 1000000 <= (2000000 + 1000) * (1000000 - dy).
Proof.
  destruct (quote_keeps_the_reserve_product default_config true
              2000000 1000000 25 1000 6 6 50)
    as [dy [Q [_ [P _]]]].
  - unfold Precision.within_precision.
    repeat split; vm_compute; try reflexivity; discriminate.
  - exists dy. split; [exact Q|exact P].
Defined.

Lemma quote_is_monotone_witness :
  exists dy dy',
    quoted_out (quoteExactIn default_config
                  (constructor (poolData (int 2000000) (int 1000000)
                                         (int 30) (Some 6) (Some 6)))
                  (int 1000) true 50) = Some dy
    /\ quoted_out (quoteExactIn default_config
                     (constructor (poolData (int 2000000) (int 1000000)
                                            (int 25) (Some 6) (Some 6)))
                     (int 2000) true 50) = Some dy'
    /\ dy <= dy'.
Proof.
  apply (quote_is_monotone default_config true 2000000 1000000 6 6 50
           30 1000 25 2000);
    try lia;
    unfold Precision.within_precision;
    repeat split; vm_compute; try reflexivity; discriminate.
Defined.

(* --------------------------------------------------------------------- *)
(** ** The cache shortcut and the final pass *)
(* --------------------------------------------------------------------- *)

Section CacheFacts.
Import Hydrate Cache.

(** The final pass of the enricher changes nothing when run again, and
    it confirms the cache shortcut: the test that lets the first loop
    skip a pool is the flag the final pass computes, and a pool skipped
    as cached leaves the final pass as the first loop marked it. *)
Theorem final_pass_is_stable (pool : Pool) :
  markPool (markPool pool) = markPool pool
  /\ hasReserves (markPool pool) = Some (hasValidReserves pool)
  /\ (if hasValidReserves pool
      then markPool (mark_cached pool) = mark_cached pool
      else isMathReady (markPool pool) = Some false).
Proof.
  split; [|split].
  - unfold markPool;
      cbn [type xReserve yReserve reserveSource hasReserves isMathReady].
    destruct (truthy_ostr (reserveSource pool)) eqn:S; cbn [negb].
    + rewrite S. reflexivity.
    + destruct (truthy_reserve (xReserve pool)
                && truthy_reserve (yReserve pool)); reflexivity.
  - reflexivity.
  - unfold hasValidReserves.
    destruct (gt0 (parseFloat_or0 (xReserve pool))
              && gt0 (parseFloat_or0 (yReserve pool))) eqn:H.
    + unfold markPool, mark_cached;
        cbn [type xReserve yReserve reserveSource hasReserves isMathReady
             truthy_ostr truthy_str negb].
      rewrite H, orb_true_r. reflexivity.
    + unfold markPool; cbn [isMathReady]. rewrite H, orb_true_r. reflexivity.
Qed.

End CacheFacts.

(* --------------------------------------------------------------------- *)
(** ** Pool metadata normaliser *)
(* --------------------------------------------------------------------- *)

Section MetaFacts.
Import Meta.

Lemma pair_after_trim (a b : string) :
  isSolUsdcPair (Some a) (Some b) = true ->
  (trim a = SOL_MINT /\ trim b = USDC_MINT)
  \/ (trim a = USDC_MINT /\ trim b = SOL_MINT).
Proof.
  unfold isSolUsdcPair, normMint. cbn [truthy_ostr nullish_or].
  destruct (truthy_str a), (truthy_str b); intros H;
    apply orb_prop in H; destruct H as [H|H]; apply andb_prop in H;
    destruct H as [H1 H2]; apply String.eqb_eq in H1, H2;
    try (left; split; assumption); try (right; split; assumption);
    try (vm_compute in H1; discriminate); try (vm_compute in H2; discriminate).
Qed.









End MetaFacts.

Section MetaSides.
Import Meta.

Lemma normMint_trimmed (a : string) :
  trim a = a -> normMint (Some a) = a.
Proof.
  intros T. unfold normMint. cbn [truthy_ostr nullish_or].
  destruct (truthy_str a) eqn:E; [exact T|].
  destruct a; [reflexivity|discriminate].
Qed.

(** Which side of a record is called base does not matter: a record
    whose mints carry no surrounding white space and the same record
    with its sides exchanged normalise to the same result. *)
Theorem normalizePool_ignores_the_sides (p : Pool) (a b : string) :
  baseMint p = Some a -> quoteMint p = Some b ->
  trim a = a -> trim b = b ->
  normalizePool (Some (flip p)) = normalizePool (Some p).
Proof.
  intros Ha Hb Ta Tb. unfold normalizePool, flip.
  cbn [baseMint quoteMint baseDecimals quoteDecimals type binStep
       tickSpacing].
  rewrite Ha, Hb, !normMint_trimmed by assumption.
  rewrite (orb_comm (negb (truthy_str b))).
  destruct (negb (truthy_str a) || negb (truthy_str b)); [reflexivity|].
  unfold isSolUsdcPair. rewrite !normMint_trimmed by assumption.
  destruct (String.eqb a SOL_MINT) eqn:E1, (String.eqb a USDC_MINT) eqn:E2,
           (String.eqb b SOL_MINT) eqn:E3, (String.eqb b USDC_MINT) eqn:E4;
    cbn [andb orb negb]; try reflexivity;
    try (apply String.eqb_eq in E1); try (apply String.eqb_eq in E2);
    try (apply String.eqb_eq in E3); try (apply String.eqb_eq in E4);
    subst; try discriminate;
    destruct p as [bm qm bd qd ty bs ts];
    cbn [baseMint quoteMint] in Ha, Hb; subst; reflexivity.
Qed.

Lemma normalizePool_sides_witness :
  normalizePool (Some (flip usdc_sol)) = normalizePool (Some usdc_sol).
Proof.
  apply (normalizePool_ignores_the_sides usdc_sol USDC_MINT SOL_MINT);
    reflexivity.
Defined.

End MetaSides.

(* --------------------------------------------------------------------- *)
(** ** Triangle solver: what it reads *)
(* --------------------------------------------------------------------- *)

Section SolverReads.
Import Triangle.

Import Sides.

Lemma other_side_flip (curr : mint) (p : Pool) :
  other_side curr (flip p) = other_side curr p.
Proof.
  unfold other_side, flip; cbn [baseMint quoteMint].
  destruct (String.eqb_spec curr (quoteMint p)) as [Eq|];
    destruct (String.eqb_spec curr (baseMint p)) as [Eb|];
    try reflexivity.
  congruence.
Qed.

Lemma other_side_side (f : bool) (curr : mint) (p : Pool) :
  other_side curr (side f p) = other_side curr p.
Proof. destruct f; [apply other_side_flip|reflexivity]. Qed.

Lemma closes_side (f1 f2 f3 : bool) (start : mint) (p1 p2 p3 : Pool) :
  closes start [side f1 p1; side f2 p2; side f3 p3]
  = closes start [p1; p2; p3].
Proof.
  unfold closes; cbn [walk]. rewrite other_side_side.
  destruct (other_side start p1) as [c1|]; [|reflexivity].
  rewrite other_side_side.
  destruct (other_side c1 p2) as [c2|]; [|reflexivity].
  rewrite other_side_side. reflexivity.
Qed.

Lemma other_side_in (curr next : mint) (p : Pool) :
  other_side curr p = Some next ->
  (curr = baseMint p /\ next = quoteMint p)
  \/ (curr = quoteMint p /\ next = baseMint p).
Proof.
  unfold other_side.
  destruct (String.eqb_spec curr (baseMint p)) as [->|_].
  - intros [= <-]. now left.
  - destruct (String.eqb_spec curr (quoteMint p)) as [->|_]; [|discriminate].
    intros [= <-]. now right.
Qed.

(** At most one of the two starts closes, unless they are the same
    mint. *)
Lemma one_start_closes (p1 p2 p3 : Pool) (t t' : Tri) :
  closes (baseMint p1) [p1; p2; p3] = Some t ->
  closes (quoteMint p1) [p1; p2; p3] = Some t' ->
  baseMint p1 = quoteMint p1.
Proof.
  unfold closes; cbn [walk]. intros H H'.
  destruct (String.eqb_spec (baseMint p1) (quoteMint p1)) as [|N];
    [assumption|exfalso].
  destruct (other_side (baseMint p1) p1) as [c1|] eqn:A1; [|discriminate].
  destruct (other_side c1 p2) as [c2|] eqn:A2; [|discriminate].
  destruct (other_side c2 p3) as [c3|] eqn:A3; [|discriminate].
  destruct (String.eqb_spec c3 (baseMint p1)) as [->|]; [|discriminate].
  destruct (other_side (quoteMint p1) p1) as [d1|] eqn:B1; [|discriminate].
  destruct (other_side d1 p2) as [d2|] eqn:B2; [|discriminate].
  destruct (other_side d2 p3) as [d3|] eqn:B3; [|discriminate].
  destruct (String.eqb_spec d3 (quoteMint p1)) as [->|]; [|discriminate].
  apply other_side_in in A1, A2, A3, B1, B2, B3.
  destruct A1 as [[_ ->]|[? _]]; [|congruence].
  destruct B1 as [[? _]|[_ ->]]; [congruence|].
  destruct A2 as [[Q2 ->]|[Q2 ->]]; destruct B2 as [[R2 ->]|[R2 ->]];
    try congruence;
    destruct A3 as [[Q3 Q3']|[Q3 Q3']]; destruct B3 as [[R3 R3']|[R3 R3']];
    congruence.
Qed.

(** The answer of the solver does not depend on which side of a pool is
    called base and which quote: relabelling any of the three pools
    leaves the start mint and the input mints unchanged. *)
Theorem solver_ignores_side_labels (f1 f2 f3 : bool) (p1 p2 p3 : Pool) :
  solveTriangleOrientation
    [Some (side f1 p1); Some (side f2 p2); Some (side f3 p3)]
  = solveTriangleOrientation [Some p1; Some p2; Some p3].
Proof.
  rewrite !solve_unfold, !tryStart_closes, !closes_side. f_equal.
  destruct f1; [|reflexivity]. cbn [side flip baseMint quoteMint].
  destruct (closes (baseMint p1) [p1; p2; p3]) as [t|] eqn:A;
    destruct (closes (quoteMint p1) [p1; p2; p3]) as [t'|] eqn:B;
    cbn [or_else]; try reflexivity.
  pose proof (one_start_closes p1 p2 p3 t t' A B) as E.
  rewrite E in A. congruence.
Qed.

(** The solver looks at the first three elements only, and with
    fewer than three pools it never finds a triangle: it throws or
    returns null, and [validateTriangle] throws. *)
Theorem solver_reads_three_pools (pools : list (option Pool)) :
  solveTriangleOrientation pools = solveTriangleOrientation (firstn 3 pools)
  /\ ((List.length pools < 3)%nat ->
      (forall t, solveTriangleOrientation pools <> Ok (Some t))
      /\ isOk (validateTriangle pools) = false).
Proof.
  split.
  - destruct pools as [|a [|b [|c rest]]]; reflexivity.
  - intros L.
    assert (S : forall t, solveTriangleOrientation pools <> Ok (Some t)).
    { destruct pools as [|[p1|] [|[p2|] [|c rest]]]; cbn in L; try lia;
        intros t; unfold solveTriangleOrientation; cbn [nth];
        try discriminate;
        destruct (hop (baseMint p1) p1) as [[i0 c1]|]; cbn [bind];
        try (destruct (hop c1 p2) as [[i1 c2]|]; cbn [bind]);
        try discriminate;
        destruct (hop (quoteMint p1) p1) as [[j0 d1]|]; try discriminate;
        try (destruct (hop d1 p2) as [[j1 d2]|]); discriminate. }
    split; [exact S|].
    unfold validateTriangle.
    destruct (solveTriangleOrientation pools) as [[t|]|e]; cbn;
      [|reflexivity|reflexivity].
    exfalso. now apply (S t).
Qed.

Lemma solver_reads_three_witness :
  isOk (validateTriangle [Some Route.poolAB; Some Route.poolBC]) = false.
Proof.
  destruct (solver_reads_three_pools [Some Route.poolAB; Some Route.poolBC])
    as [_ H].
  apply H. cbn. lia.
Defined.

End SolverReads.

(* --------------------------------------------------------------------- *)
(** ** Rounding between values of limited precision *)
(* --------------------------------------------------------------------- *)

Section RoundingBounds.

Lemma round_int_le (rm : rounding) (t d U : Z) :
  0 < d -> t <= U * d -> round_int rm t d <= U.
Proof.
  intros Hd H. destruct rm; cbn [round_int].
  - apply Z.lt_succ_r. apply Z.div_lt_upper_bound; nia.
  - apply Z.lt_succ_r. apply Z.div_lt_upper_bound; nia.
Qed.

Lemma round_int_ge (rm : rounding) (t d L : Z) :
  0 < d -> L * d <= t -> L <= round_int rm t d.
Proof.
  intros Hd H. destruct rm; cbn [round_int].
  - apply Z.div_le_lower_bound; nia.
  - apply Z.div_le_lower_bound; nia.
Qed.

(** The scaled value of [n/d] lies in [[10^(P-1), 10^P)]. *)
Lemma scaled_range (P n d : Z) :
  0 < n -> 0 < d -> 1 <= P -> n < d * 10 ^ P ->
  let k := P - 1 - dexp n d in
  0 <= k /\ 10 ^ (P - 1) * d <= n * 10 ^ k /\ n * 10 ^ k < 10 ^ P * d.
Proof.
  intros Hn Hd HP Hq. cbv zeta.
  pose proof (dexp_lower n d Hn Hd) as Lo.
  pose proof (dexp_upper n d Hn Hd) as Up.
  remember (dexp n d) as e eqn:Ee. clear Ee.
  unfold ge_pow10 in Lo, Up.
  pose proof (pow10_pos P ltac:(lia)) as PP.
  assert (He : e < P).
  { destruct (Z.leb_spec 0 e) as [He|He]; [|lia].
    apply Z.leb_le in Lo.
    apply (pow10_lt_inv e P); [lia|]. nia. }
  split; [lia|].
  destruct (Z.leb_spec 0 e) as [He0|He0].
  - apply Z.leb_le in Lo.
    destruct (Z.leb_spec 0 (e + 1)) as [_|]; [|lia].
    apply Z.leb_gt in Up.
    pose proof (pow10_pos e He0) as Pe.
    pose proof (pow10_pos (P - 1 - e) ltac:(lia)) as Pk.
    assert (E1 : 10 ^ (P - 1) = 10 ^ e * 10 ^ (P - 1 - e)).
    { rewrite <- pow10_split by lia. f_equal; lia. }
    assert (E2 : 10 ^ P = 10 ^ (e + 1) * 10 ^ (P - 1 - e)).
    { rewrite <- pow10_split by lia. f_equal; lia. }
    rewrite E1, E2. split; nia.
  - apply Z.leb_le in Lo.
    pose proof (pow10_pos (- e) ltac:(lia)) as Pe.
    pose proof (pow10_pos (P - 1) ltac:(lia)) as Pk.
    assert (E1 : 10 ^ (P - 1 - e) = 10 ^ (P - 1) * 10 ^ (- e)).
    { rewrite <- pow10_split by lia. f_equal; lia. }
    rewrite E1. split.
    { assert (10 ^ (P - 1) * d <= 10 ^ (P - 1) * (n * 10 ^ (- e)))
        by (apply Z.mul_le_mono_nonneg_l; lia).
      lia. }
    destruct (Z.leb_spec 0 (e + 1)) as [He1|He1].
    + assert (e = -1) by lia. subst e.
      apply Z.leb_gt in Up. change (10 ^ (-1 + 1)) with 1 in Up.
      change (10 ^ (- -1)) with 10 in *.
      assert (E2 : 10 ^ P = 10 ^ (P - 1) * 10).
      { replace P with ((P - 1) + 1) at 1 by lia.
        rewrite pow10_split by lia. reflexivity. }
      rewrite E2. nia.
    + apply Z.leb_gt in Up.
      pose proof (pow10_pos (- (e + 1)) ltac:(lia)) as Pe1.
      assert (E2 : 10 ^ (- e) = 10 ^ (- (e + 1)) * 10).
      { replace (- e) with (- (e + 1) + 1) at 1 by lia.
        rewrite pow10_split by lia. reflexivity. }
      assert (E3 : 10 ^ P = 10 ^ (P - 1) * 10).
      { replace P with ((P - 1) + 1) at 1 by lia.
        rewrite pow10_split by lia. reflexivity. }
      rewrite E2, E3. nia.
Qed.

(** A positive value below [10^P] rounds to [R / 10^k] with
    [10^(P-1) <= R <= 10^P]. *)
Lemma round_pos_form (P : Z) (rm : rounding) (n d : Z) :
  0 < n -> 0 < d -> 1 <= P -> n < d * 10 ^ P ->
  let k := P - 1 - dexp n d in
  let R := round_int rm (n * 10 ^ k) d in
  0 <= k /\ 10 ^ (P - 1) <= R <= 10 ^ P
  /\ round_pos P rm n d = R # Z.to_pos (10 ^ k).
Proof.
  intros Hn Hd HP Hq. cbv zeta.
  destruct (scaled_range P n d Hn Hd HP Hq) as [Hk [Lo Up]].
  split; [exact Hk|]. split.
  - split; [apply round_int_ge|apply round_int_le]; lia.
  - unfold round_pos. destruct (Z.leb_spec 0 (P - 1 - dexp n d)); [|lia].
    reflexivity.
Qed.

(** Rounding does not cross a value of limited precision from
    below... *)
Lemma round_pos_le (P : Z) (rm : rounding) (n d M j : Z) :
  0 < n -> 0 < d -> 1 <= P -> n < d * 10 ^ P ->
  0 <= j -> 0 < M <= 10 ^ P -> n * 10 ^ j <= M * d ->
  (round_pos P rm n d <= M # Z.to_pos (10 ^ j))%Q.
Proof.
  intros Hn Hd HP Hq Hj HM Hle.
  destruct (round_pos_form P rm n d Hn Hd HP Hq) as [Hk [[R1 R2] ->]].
  destruct (scaled_range P n d Hn Hd HP Hq) as [_ [Lo Up]].
  set (k := P - 1 - dexp n d) in *.
  pose proof (pow10_pos k Hk) as Pk. pose proof (pow10_pos j Hj) as Pj.
  pose proof (pow10_pos (P - 1) ltac:(lia)) as PP1.
  unfold Qle; cbn [Qnum Qden]. rewrite !Z2Pos.id by assumption.
  destruct (Z.le_gt_cases j k) as [Hjk|Hjk].
  - assert (E : 10 ^ k = 10 ^ j * 10 ^ (k - j)).
    { rewrite <- pow10_split by lia. f_equal; lia. }
    pose proof (pow10_pos (k - j) ltac:(lia)) as Pkj.
    assert (B : round_int rm (n * 10 ^ k) d <= M * 10 ^ (k - j)).
    { apply round_int_le; [assumption|]. rewrite E.
      assert (n * 10 ^ j * 10 ^ (k - j) <= M * d * 10 ^ (k - j))
        by (apply Z.mul_le_mono_nonneg_r; lia).
      lia. }
    rewrite E.
    assert (round_int rm (n * (10 ^ j * 10 ^ (k - j))) d * 10 ^ j
            <= M * 10 ^ (k - j) * 10 ^ j)
      by (apply Z.mul_le_mono_nonneg_r; [lia|rewrite <- E; exact B]).
    lia.
  - assert (E : 10 ^ j = 10 ^ k * 10 ^ (j - k)).
    { rewrite <- pow10_split by lia. f_equal; lia. }
    pose proof (pow10_pos (j - k) ltac:(lia)) as Pjk.
    assert (E10 : 10 ^ P = 10 ^ (P - 1) * 10).
    { replace P with ((P - 1) + 1) at 1 by lia.
      rewrite pow10_split by lia. reflexivity. }
    assert (T : 10 <= 10 ^ (j - k)).
    { change 10 with (10 ^ 1) at 1. apply Z.pow_le_mono_r; lia. }
    set (a := 10 ^ k) in *. set (b := 10 ^ (j - k)) in *.
    set (p := 10 ^ (P - 1)) in *.
    (* [p * b <= M <= 10 * p], so [b = 10] and [M = 10 * p] *)
    assert (L : p * b <= M).
    { rewrite E in Hle.
      assert (H1 : p * d * b <= n * a * b)
        by (apply Z.mul_le_mono_nonneg_r; lia).
      assert (H2 : (p * b) * d <= M * d) by lia.
      apply Z.mul_le_mono_pos_r in H2; assumption. }
    assert (Hb : b = 10) by nia.
    assert (HM' : M = 10 * p) by nia.
    assert (B : round_int rm (n * a) d <= p).
    { apply round_int_le; [assumption|].
      rewrite E, Hb, HM' in Hle. lia. }
    rewrite E, Hb, HM'.
    assert (round_int rm (n * a) d * a <= p * a)
      by (apply Z.mul_le_mono_nonneg_r; lia).
    lia.
Qed.

(** ... nor from above. *)
Lemma round_pos_ge (P : Z) (rm : rounding) (n d M j : Z) :
  0 < n -> 0 < d -> 1 <= P -> n < d * 10 ^ P ->
  0 <= j -> 0 < M < 10 ^ P -> M * d <= n * 10 ^ j ->
  (M # Z.to_pos (10 ^ j) <= round_pos P rm n d)%Q.
Proof.
  intros Hn Hd HP Hq Hj HM Hle.
  destruct (round_pos_form P rm n d Hn Hd HP Hq) as [Hk [[R1 R2] ->]].
  set (k := P - 1 - dexp n d) in *.
  pose proof (pow10_pos k Hk) as Pk. pose proof (pow10_pos j Hj) as Pj.
  pose proof (pow10_pos (P - 1) ltac:(lia)) as PP1.
  unfold Qle; cbn [Qnum Qden]. rewrite !Z2Pos.id by assumption.
  destruct (Z.le_gt_cases j k) as [Hjk|Hjk].
  - assert (E : 10 ^ k = 10 ^ j * 10 ^ (k - j)).
    { rewrite <- pow10_split by lia. f_equal; lia. }
    pose proof (pow10_pos (k - j) ltac:(lia)) as Pkj.
    assert (B : M * 10 ^ (k - j) <= round_int rm (n * 10 ^ k) d).
    { apply round_int_ge; [assumption|]. rewrite E.
      assert (M * d * 10 ^ (k - j) <= n * 10 ^ j * 10 ^ (k - j))
        by (apply Z.mul_le_mono_nonneg_r; lia).
      lia. }
    rewrite E.
    assert (M * 10 ^ (k - j) * 10 ^ j
            <= round_int rm (n * (10 ^ j * 10 ^ (k - j))) d * 10 ^ j)
      by (apply Z.mul_le_mono_nonneg_r; [lia|rewrite <- E; exact B]).
    lia.
  - assert (E : 10 ^ j = 10 ^ k * 10 ^ (j - k)).
    { rewrite <- pow10_split by lia. f_equal; lia. }
    pose proof (pow10_pos (j - k) ltac:(lia)) as Pjk.
    assert (E10 : 10 ^ P = 10 ^ (P - 1) * 10).
    { replace P with ((P - 1) + 1) at 1 by lia.
      rewrite pow10_split by lia. reflexivity. }
    assert (T : 10 <= 10 ^ (j - k)).
    { change 10 with (10 ^ 1) at 1. apply Z.pow_le_mono_r; lia. }
    rewrite E.
    set (a := 10 ^ k) in *. set (b := 10 ^ (j - k)) in *.
    set (p := 10 ^ (P - 1)) in *.
    set (R := round_int rm (n * a) d) in *.
    assert (H1 : M * a <= 10 * p * a)
      by (apply Z.mul_le_mono_nonneg_r; lia).
    assert (H2 : p * (a * 10) <= R * (a * b)).
    { assert (p * (a * 10) <= R * (a * 10))
        by (apply Z.mul_le_mono_nonneg_r; lia).
      assert (R * (a * 10) <= R * (a * b))
        by (apply Z.mul_le_mono_nonneg_l; [lia|];
            apply Z.mul_le_mono_nonneg_l; lia).
      lia. }
    lia.
Qed.

End RoundingBounds.

Section RoundSigBounds.
Variable c : config.
Hypothesis HP : 1 <= precision c.

Lemma round_sig_of_pos (q : Q) :
  (0 < q)%Q ->
  exists n d,
    0 < n /\ 0 < d /\ (q == n # Z.to_pos d)%Q
    /\ (round_sig c q == round_pos (precision c) (mode c) n d)%Q.
Proof.
  intros Hq. unfold round_sig.
  pose proof (Qred_correct q) as Hr.
  destruct (Qred q) as [rn rd] eqn:E. cbn [Qnum Qden].
  assert (Hn : 0 < rn).
  { rewrite <- Hr in Hq. unfold Qlt in Hq; cbn in Hq. lia. }
  destruct rn as [|p|p]; try lia.
  exists (Zpos p), (Zpos rd). cbn [Z.to_pos].
  repeat split; try lia.
  - symmetry. exact Hr.
  - apply Qred_correct.
Qed.

(** A value with at most [precision] digits that bounds [q] from above
    bounds its rounding too. *)
Lemma round_sig_le (q : Q) (M j : Z) :
  (0 < q)%Q -> (q < inject_Z (10 ^ precision c))%Q ->
  0 <= j -> 0 < M <= 10 ^ precision c ->
  (q <= M # Z.to_pos (10 ^ j))%Q ->
  (round_sig c q <= M # Z.to_pos (10 ^ j))%Q.
Proof.
  intros Hq Hlt Hj HM Hle.
  destruct (round_sig_of_pos q Hq) as [n [d [Hn [Hd [E ->]]]]].
  pose proof (pow10_pos j Hj) as Pj.
  rewrite E in Hlt, Hle.
  apply round_pos_le; try assumption.
  - unfold Qlt in Hlt; cbn [Qnum Qden inject_Z] in Hlt.
    rewrite Z2Pos.id in Hlt by assumption. lia.
  - unfold Qle in Hle; cbn [Qnum Qden] in Hle.
    rewrite !Z2Pos.id in Hle by assumption. lia.
Qed.

(** Likewise from below. *)
Lemma round_sig_ge (q : Q) (M j : Z) :
  (q < inject_Z (10 ^ precision c))%Q ->
  0 <= j -> 0 < M < 10 ^ precision c ->
  (M # Z.to_pos (10 ^ j) <= q)%Q ->
  (M # Z.to_pos (10 ^ j) <= round_sig c q)%Q.
Proof.
  intros Hlt Hj HM Hle.
  pose proof (pow10_pos j Hj) as Pj.
  assert (Hq : (0 < q)%Q).
  { eapply Qlt_le_trans; [|exact Hle]. unfold Qlt; cbn. lia. }
  destruct (round_sig_of_pos q Hq) as [n [d [Hn [Hd [E ->]]]]].
  rewrite E in Hlt, Hle.
  apply round_pos_ge; try assumption.
  - unfold Qlt in Hlt; cbn [Qnum Qden inject_Z] in Hlt.
    rewrite Z2Pos.id in Hlt by assumption. lia.
  - unfold Qle in Hle; cbn [Qnum Qden] in Hle.
    rewrite !Z2Pos.id in Hle by assumption. lia.
Qed.

(** The rounding of a positive value below [10^precision] has at most
    [precision] digits (or is the next power of ten). *)
Lemma round_sig_form (q : Q) :
  (0 < q)%Q -> (q < inject_Z (10 ^ precision c))%Q ->
  exists R k,
    0 <= k /\ 0 < R <= 10 ^ precision c
    /\ (round_sig c q == R # Z.to_pos (10 ^ k))%Q.
Proof.
  intros Hq Hlt.
  destruct (round_sig_of_pos q Hq) as [n [d [Hn [Hd [E R]]]]].
  rewrite E in Hlt.
  assert (B : n < d * 10 ^ precision c).
  { unfold Qlt in Hlt; cbn [Qnum Qden inject_Z] in Hlt.
    rewrite Z2Pos.id in Hlt by assumption. lia. }
  destruct (round_pos_form (precision c) (mode c) n d Hn Hd HP B)
    as [Hk [[R1 R2] F]].
  pose proof (pow10_pos (precision c - 1) ltac:(lia)) as PP.
  eexists. eexists. split; [exact Hk|]. split; [|rewrite R, F; reflexivity].
  lia.
Qed.

End RoundSigBounds.

(* --------------------------------------------------------------------- *)
(** ** The slippage floor of a cpmm quote *)
(* --------------------------------------------------------------------- *)

Section MinOut.
Variable c : config.
Variables rin rout bps dx sb : Z.
Hypothesis Hrin : 0 < rin.
Hypothesis Hrout : 0 < rout.
Hypothesis Hdx : 0 < dx.
Hypothesis Hbps : 0 <= bps < 10000.
Hypothesis Hnum : 10 * (dx * (10000 - bps) * rout) < 10 ^ precision c.
Hypothesis Hden : 10000 * rin + dx * (10000 - bps) < 10 ^ precision c.
Hypothesis Hsb : 0 <= sb <= 10000.

Let N := dx * (10000 - bps) * rout.
Let D := 10000 * rin + dx * (10000 - bps).
Let inAfterFee :=
  mul c (inject_Z dx) (minus c 1 (round_sig c (inject_Z bps / 10000)%Q)).
Let q0 : Q :=
  (mul c inAfterFee (inject_Z rout) / plus c (inject_Z rin) inAfterFee)%Q.
Let out := round_sig c q0.
Let slip := round_sig c (inject_Z sb / 10000)%Q.

Lemma P5 : 5 <= precision c.
Proof.
  exact (precision_at_least_5 c rin rout bps dx Hrin Hrout Hdx Hbps Hnum Hden).
Qed.

Lemma N_small : 0 < N /\ 0 < D /\ N < 10 ^ (precision c - 1).
Proof.
  pose proof P5 as HP.
  assert (E : 10 ^ precision c = 10 * 10 ^ (precision c - 1)).
  { replace (precision c) with (Z.succ (precision c - 1)) at 1 by lia.
    apply Z.pow_succ_r. lia. }
  unfold N, D in *. repeat split; nia.
Qed.

Lemma q0_exact : (q0 == N # Z.to_pos D)%Q.
Proof.
  destruct N_small as [HN [HD _]].
  unfold q0, inAfterFee.
  rewrite (numerator_exact c rin rout bps dx Hrin Hrout Hdx Hbps Hnum Hden).
  rewrite (denominator_exact c rin rout bps dx Hrin Hrout Hdx Hbps Hnum Hden).
  fold N D.
  unfold Qeq, Qdiv, Qmult, Qinv; cbn [Qnum Qden].
  destruct D as [|pd|pd] eqn:ED; try lia.
  cbn [Qnum Qden Z.to_pos]. rewrite Pos2Z.inj_mul. lia.
Qed.

Lemma out_floor : Qfloor out = N / D.
Proof.
  destruct N_small as [HN [HD HS]]. pose proof P5.
  apply floor_round_sig; try assumption; try lia.
  apply q0_exact.
Qed.

Lemma dy_small : 0 <= N / D /\ N / D < rout /\ (N / D) * 10000 <= N.
Proof.
  destruct N_small as [HN [HD HS]].
  pose proof (Z.mul_div_le N D HD) as Q.
  assert (Q0 : 0 <= N / D) by (apply Z.div_pos; lia).
  split; [exact Q0|]. split.
  - apply Z.div_lt_upper_bound; [assumption|]. unfold N, D. nia.
  - assert (10000 <= D) by (unfold D; nia). nia.
Qed.

Lemma q0_range : (0 < q0)%Q /\ (q0 < inject_Z (10 ^ precision c))%Q.
Proof.
  destruct N_small as [HN [HD HS]]. pose proof P5 as HP.
  assert (E : 10 ^ precision c = 10 * 10 ^ (precision c - 1)).
  { replace (precision c) with (Z.succ (precision c - 1)) at 1 by lia.
    apply Z.pow_succ_r. lia. }
  rewrite q0_exact. unfold Qlt; cbn [Qnum Qden inject_Z].
  rewrite Z2Pos.id by assumption. split; nia.
Qed.

Lemma out_range :
  (0 < out)%Q /\ (inject_Z (N / D) <= out)%Q
  /\ (out < inject_Z (N / D + 1))%Q
  /\ exists R k, 0 <= k /\ 0 < R <= 10 ^ precision c
                 /\ (out == R # Z.to_pos (10 ^ k))%Q.
Proof.
  destruct q0_range as [Q1 Q2]. pose proof P5 as HP.
  destruct (round_sig_form c ltac:(lia) q0 Q1 Q2) as [R [k [Hk [HR E]]]].
  fold out in E.
  pose proof (pow10_pos k Hk) as Pk.
  split; [|split; [|split]].
  - rewrite E. unfold Qlt; cbn [Qnum Qden]. lia.
  - rewrite <- out_floor. apply Qfloor_le.
  - rewrite <- out_floor.
    replace (Qfloor out + 1) with (Qfloor out + 1)%Z by reflexivity.
    apply Qlt_floor.
  - exists R, k. repeat split; try assumption; lia.
Qed.

Lemma slip_exact : (minus c 1 slip == (10000 - sb) # 10000)%Q.
Proof.
  pose proof P5 as HP.
  assert (T : 10 ^ 5 <= 10 ^ precision c) by (apply Z.pow_le_mono_r; lia).
  change (10 ^ 5) with 100000 in T.
  assert (S : (slip == sb # 10000)%Q).
  { assert (E : (inject_Z sb / 10000 == sb # 10000)%Q) by qeq_arith.
    unfold slip.
    destruct (Z.eq_dec sb 0) as [Z0|NZ].
    - rewrite round_sig_zero; [subst; reflexivity|].
      rewrite E. subst. reflexivity.
    - rewrite (round_sig_exact c _ sb 4); [exact E|lia|lia|exact E]. }
  assert (E : (1 - slip == (10000 - sb) # 10000)%Q)
    by (rewrite S; qeq_arith).
  unfold minus.
  destruct (Z.eq_dec sb 10000) as [Z0|NZ].
  - rewrite round_sig_zero; [subst; reflexivity|].
    rewrite E. subst. reflexivity.
  - rewrite (round_sig_exact c _ (10000 - sb) 4); [exact E|lia|lia|exact E].
Qed.

(** The slippage floor lies between the out amount scaled down by the
    slippage and the out amount itself. *)
Lemma minOut_band :
  (N / D) * (10000 - sb) / 10000
  <= floor (mul c out (minus c 1 slip)) <= N / D.
Proof.
  destruct out_range as [O1 [O2 [O3 [R [k [Hk [HR OF]]]]]]].
  destruct dy_small as [Y0 [Y1 Y2]].
  destruct N_small as [HN [HD HS]].
  pose proof P5 as HP.
  pose proof (pow10_pos k Hk) as Pk.
  assert (E10 : 10 ^ precision c = 10 * 10 ^ (precision c - 1)).
  { replace (precision c) with (Z.succ (precision c - 1)) at 1 by lia.
    apply Z.pow_succ_r. lia. }
  unfold floor, mul.
  set (s := minus c 1 slip) in *.
  assert (S : (s == (10000 - sb) # 10000)%Q) by apply slip_exact.
  assert (S0 : (0 <= s)%Q) by (rewrite S; unfold Qle; cbn [Qnum Qden]; lia).
  assert (S1 : (s <= 1)%Q) by (rewrite S; unfold Qle; cbn [Qnum Qden]; lia).
  assert (PL : (out * s <= out)%Q).
  { rewrite <- (Qmult_1_r out) at 2.
    apply Qmult_le_l; assumption. }
  assert (PB : (out * s < inject_Z (10 ^ precision c))%Q).
  { eapply Qle_lt_trans; [exact PL|].
    eapply Qlt_le_trans; [exact O3|].
    rewrite <- Zle_Qle. lia. }
  destruct (Z.eq_dec sb 10000) as [->|NS].
  { assert (Z0 : (out * s == 0)%Q).
    { rewrite S. unfold Qeq, Qmult; cbn [Qnum Qden]. lia. }
    rewrite (round_sig_zero c _ Z0). cbn. split; [|lia].
    rewrite Z.mul_0_r. cbn. lia. }
  assert (PP : (0 < out * s)%Q).
  { rewrite S. rewrite OF. unfold Qlt, Qmult; cbn [Qnum Qden]. nia. }
  split.
  - destruct (Z.eq_dec (N / D) 0) as [Z0|NZ].
    { rewrite Z0. cbn.
      destruct (round_sig_form c ltac:(lia) (out * s)%Q PP PB)
        as [R' [k' [Hk' [HR' E']]]].
      rewrite (Qfloor_comp _ _ E').
      unfold Qfloor; cbn [Qnum Qden].
      apply Z.div_pos; lia. }
    assert (L : ((N / D) * (10000 - sb) # Z.to_pos (10 ^ 4)
                 <= round_sig c (out * s))%Q).
    { apply round_sig_ge; try lia; try assumption.
      - nia.
      - change (Z.to_pos (10 ^ 4)) with 10000%positive.
        rewrite S.
        apply Qle_trans with (inject_Z (N / D) * ((10000 - sb) # 10000))%Q.
        + unfold Qle, Qmult, inject_Z; cbn [Qnum Qden]. lia.
        + apply Qmult_le_compat_r; [exact O2|].
          unfold Qle; cbn [Qnum Qden]. lia. }
    apply Qfloor_resp_le in L.
    change (Z.to_pos (10 ^ 4)) with 10000%positive in L.
    unfold Qfloor at 1 in L. cbn [Qnum Qden] in L. exact L.
  - assert (U : (round_sig c (out * s) <= R # Z.to_pos (10 ^ k))%Q).
    { apply round_sig_le; try lia; try assumption.
      rewrite <- OF. exact PL. }
    rewrite <- OF in U.
    apply Qfloor_resp_le in U. rewrite out_floor in U. exact U.
Qed.

End MinOut.

Section SlippageFloor.
Import Precision.

Lemma toFixed0_int (c : config) (z : Z) :
  0 < z -> toFixed0 c (inject_Z z) = z.
Proof.
  intros Hz. unfold toFixed0, inject_Z; cbn [Qnum Qden].
  destruct z as [|p|p]; try lia.
  destruct (mode c); cbn [round_int].
  - apply Z.div_1_r.
  - symmetry. apply Z.div_unique with (r := 1); lia.
Qed.

(** Within the working precision, and for a slippage of [sb] basis
    points between 0 and 10000, the quote carries the input amount
    unchanged, the closed-form out amount [dy], and a slippage floor
    [minOut] with [floor(dy * (10000 - sb) / 10000) <= minOut <= dy]. *)
Theorem min_out_within_slippage_band
        (c : config) (dir : bool) (rin rout bps dx xDec yDec sb : Z) :
  within_precision c rin rout bps dx ->
  0 <= sb <= 10000 ->
  exists q dy m,
    quoteExactIn c (constructor (sided_pool dir rin rout bps xDec yDec))
                 (int dx) dir (inject_Z sb) = Ok q
    /\ inAmountRaw q = dx
    /\ outAmountRaw q = Some dy
    /\ minOutAmountRaw q = Some m
    /\ dy = closed_form rin rout bps dx
    /\ dy * (10000 - sb) / 10000 <= m <= dy.
Proof.
  intros [Hrin [Hrout [Hdx [Hbps [Hnum Hden]]]]] Hsb.
  pose proof (gt0_inject_Z rin Hrin) as Gin.
  pose proof (gt0_inject_Z rout Hrout) as Gout.
  pose proof (gt0_inject_Z dx Hdx) as Gdx.
  pose proof (denominator_exact c rin rout bps dx Hrin Hrout Hdx Hbps
                Hnum Hden) as DE.
  pose proof (out_floor c rin rout bps dx sb Hrin Hrout Hdx Hbps Hnum Hden
                Hsb) as OF.
  pose proof (minOut_band c rin rout bps dx sb Hrin Hrout Hdx Hbps Hnum
                Hden Hsb) as MB.
  set (X := mul c (mul c (inject_Z dx)
                     (minus c 1 (round_sig c (inject_Z bps / 10000)%Q)))
                (inject_Z rout)) in *.
  set (Y := plus c (inject_Z rin)
                 (mul c (inject_Z dx)
                    (minus c 1 (round_sig c (inject_Z bps / 10000)%Q))))
    in *.
  assert (Hdiv : div c X Y = Some (round_sig c (X / Y)%Q)).
  { unfold div. destruct (Qeq_bool Y 0) eqn:Z0; [|reflexivity].
    apply Qeq_bool_eq in Z0. rewrite DE in Z0.
    unfold Qeq in Z0; cbn [Qnum Qden] in Z0. nia. }
  exists (mkQuote dx (Some (closed_form rin rout bps dx))
                  (Some (floor (mul c (round_sig c (X / Y)%Q)
                                   (minus c 1
                                      (round_sig c (inject_Z sb / 10000)%Q)))))
                  dir "RAYDIUM_CPMM" true).
  eexists. eexists.
  split; [|split; [reflexivity|split; [reflexivity|split;
           [reflexivity|split; [reflexivity|exact MB]]]]].
  destruct dir; unfold sided_pool, quoteExactIn, constructor, poolData, int;
    cbn [tokenXDecimals tokenYDecimals a_feeBps xReserveRaw yReserveRaw
         feeBps fee_bps xReserve baseReserve reserve_x yReserve
         quoteReserve reserve_y baseDecimals decimalsA decA quoteDecimals
         decimalsB decB raw rawq nullish nullish_or Cpmm.is_some
         andb ensure bind toDec newDecimal];
    rewrite Gin, Gout, Gdx;
    cbn [andb ensure bind];
    unfold normalizeQuote;
    cbn [tokenXDecimals tokenYDecimals Cpmm.is_some andb ensure bind];
    fold X Y; rewrite Hdiv; cbn [option_map];
    rewrite (toFixed0_int c dx Hdx);
    unfold floor in OF |- *; rewrite OF; reflexivity.
Qed.

End SlippageFloor.

Lemma min_out_witness :
  exists q dy m,
    quoteExactIn default_config
                 (constructor (poolData (int 2000000) (int 1000000) (int 25)
                                        (Some 6) (Some 6)))
                 (int 1000) true (inject_Z 50) = Ok q
    /\ outAmountRaw q = Some dy
    /\ minOutAmountRaw q = Some m
    /\ dy * (10000 - 50) / 10000 <= m <= dy.
Proof.
  destruct (min_out_within_slippage_band default_config true
              2000000 1000000 25 1000 6 6 50)
    as [q [dy [m [Q [_ [O [M [_ B]]]]]]]].
  - unfold Precision.within_precision.
    repeat split; vm_compute; try reflexivity; discriminate.
  - lia.
  - exists q, dy, m. repeat split; try assumption; lia.
Defined.
